(** * WhatsConnect: messaging session, message pipelines and conversation view

    A shallow embedding of the server routes of the CRM
    ([routes/whatsapp.js], [routes/conversations.js]) and of the Message
    schema ([models/Message.js]), with the properties of the messaging core
    stated against it.

    Conventions of the model.
    - A JavaScript string is a [string] of the Standard Library holding its
      UTF-8 bytes.  Case folding is modelled on the ASCII range:
      [toLowerCase] maps [A-Z] to [a-z] and leaves every other byte alone.
      [trim] removes the white space of the language, the characters
      outside ASCII included, and [length16] counts UTF-16 code units as
      [.length] does; on digits and on the empty string [String.length] is
      the same number.
    - Instants ([Date] values) are integers, the milliseconds since the epoch.
    - Document ids ([ObjectId]) are natural numbers.
    - The numbers 0.7 and 0.5 are the rationals [7 # 10] and [5 # 10].
    - Of the console, only [console.error] is kept; what [console.log] and
      [console.warn] print has no effect on state or responses.
    - A handler runs to its end before the next event is looked at: the
      interleaving of two handlers at an [await] is not modelled, except
      for the await of the reconnect route ([Reconnect]). *)

From Stdlib Require Import List String Ascii Bool Arith ZArith QArith Lia.
From Stdlib Require Import DecimalString.
Import ListNotations.

Local Close Scope Q_scope.
Local Open Scope string_scope.

(* ------------------------------------------------------------------------- *)
(** ** String primitives of the host language *)

Module Js.

(** [c.toLowerCase()] on one character. *)
Definition lowerAscii (c : ascii) : ascii :=
  let n := nat_of_ascii c in
  if ((65 <=? n) && (n <=? 90))%nat then ascii_of_nat (n + 32) else c.

(** [s.toLowerCase()]. *)
Fixpoint toLowerCase (s : string) : string :=
  match s with
  | EmptyString => EmptyString
  | String c r => String (lowerAscii c) (toLowerCase r)
  end.

(** [s.includes(sub)]: [sub] occurs in [s] as a contiguous substring. *)
Fixpoint includes (s sub : string) : bool :=
  match s with
  | EmptyString => String.prefix sub EmptyString
  | String _ r => String.prefix sub s || includes r sub
  end.

(** [/\d/] on one character. *)
Definition isDigit (c : ascii) : bool :=
  let n := nat_of_ascii c in ((48 <=? n) && (n <=? 57))%nat.

(** [s.replace(/\D/g, '')]: delete every character that is not a digit. *)
Fixpoint stripNonDigits (s : string) : string :=
  match s with
  | EmptyString => EmptyString
  | String c r =>
      if isDigit c then String c (stripNonDigits r) else stripNonDigits r
  end.

(** White space removed by [trim], on one byte: U+0009 to U+000D and
    U+0020. *)
Definition isSpace (c : ascii) : bool :=
  let n := nat_of_ascii c in (((9 <=? n) && (n <=? 13)) || (n =? 32))%nat.

(** The white space of two bytes: U+00A0. *)
Definition isSpace2 (a b : ascii) : bool :=
  ((nat_of_ascii a =? 194) && (nat_of_ascii b =? 160))%nat.

(** The white space of three bytes: U+1680, U+2000 to U+200A, U+2028,
    U+2029, U+202F, U+205F, U+3000 and U+FEFF. *)
Definition isSpace3 (a b c : ascii) : bool :=
  let x := nat_of_ascii a in
  let y := nat_of_ascii b in
  let z := nat_of_ascii c in
  (((x =? 225) && (y =? 154) && (z =? 128))
   || ((x =? 226) && (y =? 128)
       && (((128 <=? z) && (z <=? 138)) || (z =? 168) || (z =? 169)
           || (z =? 175)))
   || ((x =? 226) && (y =? 129) && (z =? 159))
   || ((x =? 227) && (y =? 128) && (z =? 128))
   || ((x =? 239) && (y =? 187) && (z =? 191)))%nat.

Fixpoint trimStart (s : string) : string :=
  match s with
  | EmptyString => EmptyString
  | String a r =>
      if isSpace a then trimStart r
      else
        match r with
        | EmptyString => s
        | String b r2 =>
            if isSpace2 a b then trimStart r2
            else
              match r2 with
              | EmptyString => s
              | String c r3 => if isSpace3 a b c then trimStart r3 else s
              end
        end
  end.

(** [s] is made of white space only ([/^\s*$/]). *)
Fixpoint allWhite (s : string) : bool :=
  match s with
  | EmptyString => true
  | String a r =>
      if isSpace a then allWhite r
      else
        match r with
        | EmptyString => false
        | String b r2 =>
            if isSpace2 a b then allWhite r2
            else
              match r2 with
              | EmptyString => false
              | String c r3 => isSpace3 a b c && allWhite r3
              end
        end
  end.

(** Drops the trailing white space: a byte is kept when something other
    than white space starts at it or after it. *)
Fixpoint trimEnd (s : string) : string :=
  match s with
  | EmptyString => EmptyString
  | String c r => if allWhite s then EmptyString else String c (trimEnd r)
  end.

(** [s.trim()]. *)
Definition trim (s : string) : string := trimEnd (trimStart s).


(** [s.substring(from)] for [0 <= from]. *)
Definition substringFrom (from : nat) (s : string) : string :=
  String.substring from (String.length s - from) s.

(** [s.replace(pat, '')] with a string pattern: the first occurrence of
    [pat] is deleted, the rest of [s] is kept. *)
Fixpoint removeFirst (pat s : string) : string :=
  if String.prefix pat s then substringFrom (String.length pat) s
  else match s with
       | EmptyString => EmptyString
       | String c r => String c (removeFirst pat r)
       end.

(** Decimal rendering of a non-negative integer, as in a template literal. *)
Definition showNat (n : nat) : string :=
  NilZero.string_of_uint (Nat.to_uint n).

(** The line feed of a template literal. *)
Definition nl : string := String (ascii_of_nat 10) EmptyString.

(** [a || b] on strings. *)
Definition orElse (a b : string) : string :=
  match a with EmptyString => b | _ => a end.

(** A string is truthy when it is not empty. *)
Definition truthy (s : string) : bool :=
  match s with EmptyString => false | _ => true end.

End Js.

(* ------------------------------------------------------------------------- *)
(** ** Sentiment classifier ([analyzeSentiment], [analyzeSentimentSimple]) *)

Module Sentiment.

Inductive Label := positive | neutral | negative.

Record Result := { sentiment : Label; score : Q }.

Definition positiveWords : list string :=
  ["thank"; "thanks"; "great"; "good"; "excellent"; "happy"; "satisfied";
   "love"; "perfect"; "awesome"; "amazing"; "wonderful"; "pleased"].

Definition negativeWords : list string :=
  ["bad"; "terrible"; "worst"; "angry"; "frustrated"; "disappointed";
   "hate"; "problem"; "issue"; "error"; "wrong"; "broken"; "refund";
   "cancel"; "complaint"].

(** [words.filter(word => lowerMsg.includes(word)).length] *)
Definition hits (words : list string) (lowerMsg : string) : nat :=
  List.length (filter (fun word => Js.includes lowerMsg word) words).

Definition analyzeSentiment (message : string) : Result :=
  let lowerMsg := Js.toLowerCase message in
  let positiveCount := hits positiveWords lowerMsg in
  let negativeCount := hits negativeWords lowerMsg in
  if (positiveCount <? negativeCount)%nat
  then {| sentiment := negative; score := 7 # 10 |}
  else if (negativeCount <? positiveCount)%nat
  then {| sentiment := positive; score := 7 # 10 |}
  else {| sentiment := neutral; score := 5 # 10 |}.

(** The copy of the classifier kept by the AI route (keyword fallback). *)
Definition analyzeSentimentSimple (message : string) : Result :=
  let lowerMsg := Js.toLowerCase message in
  let positiveWords :=
    ["thank"; "thanks"; "great"; "good"; "excellent"; "happy"; "satisfied";
     "love"; "perfect"; "awesome"; "amazing"; "wonderful"; "pleased"] in
  let negativeWords :=
    ["bad"; "terrible"; "worst"; "angry"; "frustrated"; "disappointed";
     "hate"; "problem"; "issue"; "error"; "wrong"; "broken"; "refund";
     "cancel"; "complaint"] in
  let positiveCount := hits positiveWords lowerMsg in
  let negativeCount := hits negativeWords lowerMsg in
  if (positiveCount <? negativeCount)%nat
  then {| sentiment := negative; score := 7 # 10 |}
  else if (negativeCount <? positiveCount)%nat
  then {| sentiment := positive; score := 7 # 10 |}
  else {| sentiment := neutral; score := 5 # 10 |}.

End Sentiment.

(* ------------------------------------------------------------------------- *)
(** ** Documents of the store *)

Inductive Direction := inbound | outbound.

Inductive DeliveryStatus := sent | delivered | read | failed.

Inductive QueryStatus := qs_new | qs_in_progress | qs_resolved | qs_closed.

Definition Direction_eqb (a b : Direction) : bool :=
  match a, b with
  | inbound, inbound | outbound, outbound => true
  | _, _ => false
  end.

Definition QueryStatus_eqb (a b : QueryStatus) : bool :=
  match a, b with
  | qs_new, qs_new | qs_in_progress, qs_in_progress
  | qs_resolved, qs_resolved | qs_closed, qs_closed => true
  | _, _ => false
  end.

(** [messageSchema] of [models/Message.js]. *)
Module MessageSchema.

Record doc := {
  _id : nat;
  contactId : option nat;
  phone : string;
  direction : Direction;
  message : string;
  timestamp : Z;
  status : DeliveryStatus;
  sentiment : Sentiment.Label;
  sentimentScore : Q
}.

(** What a caller hands to [Message.create]: the fields the schema does
    not require may be left out. *)
Record data := {
  d_contactId : option nat;
  d_phone : string;
  d_direction : Direction;
  d_message : string;
  d_timestamp : option Z;
  d_status : option DeliveryStatus;
  d_sentiment : option Sentiment.Label;
  d_sentimentScore : option Q
}.

Definition default_status : DeliveryStatus := sent.
Definition default_sentiment : Sentiment.Label := Sentiment.neutral.
Definition default_sentimentScore : Q := 5 # 10.

(** The document mongoose builds from [data]: defaults fill the gaps;
    [now] is [Date.now()], the default of [timestamp]. *)
Definition build (id : nat) (now : Z) (d : data) : doc :=
  {| _id := id;
     contactId := d_contactId d;
     phone := d_phone d;
     direction := d_direction d;
     message := d_message d;
     timestamp := match d_timestamp d with Some t => t | None => now end;
     status := match d_status d with Some x => x | None => default_status end;
     sentiment :=
       match d_sentiment d with Some x => x | None => default_sentiment end;
     sentimentScore :=
       match d_sentimentScore d with
       | Some x => x
       | None => default_sentimentScore
       end |}.

(** [messageData.contactId = id] *)
Definition set_contactId (id : nat) (d : data) : data :=
  {| d_contactId := Some id;
     d_phone := d_phone d;
     d_direction := d_direction d;
     d_message := d_message d;
     d_timestamp := d_timestamp d;
     d_status := d_status d;
     d_sentiment := d_sentiment d;
     d_sentimentScore := d_sentimentScore d |}.

End MessageSchema.

(** The Contact documents, as the routes read and write them. *)
Module ContactSchema.

Record doc := {
  _id : nat;
  name : string;
  phone : string;
  queryStatus : QueryStatus;
  unreadCount : option nat;        (* [None]: the field is absent *)
  lastContacted : option Z
}.

(** The argument of [Contact.create] in the two pipelines. *)
Record data := {
  d_name : string;
  d_phone : string;
  d_queryStatus : QueryStatus;
  d_unreadCount : nat;
  d_lastContacted : option Z
}.

(** Modelled from the spec: [models/Contact.js] is not among the sources.
    The data model gives a Contact the attributes displayName, unreadCount,
    queryStatus and lastContactedAt, the last one possibly not set; a
    document created without [lastContacted] is taken to have none. *)
Definition build (id : nat) (d : data) : doc :=
  {| _id := id;
     name := d_name d;
     phone := d_phone d;
     queryStatus := d_queryStatus d;
     unreadCount := Some (d_unreadCount d);
     lastContacted := d_lastContacted d |}.

(** The update document of [Contact.findByIdAndUpdate] in the send route:
    [lastContacted] always, [queryStatus] when the key was added. *)
Record update := {
  u_lastContacted : Z;
  u_queryStatus : option QueryStatus
}.

Definition apply (u : update) (c : doc) : doc :=
  {| _id := _id c;
     name := name c;
     phone := phone c;
     queryStatus :=
       match u_queryStatus u with Some q => q | None => queryStatus c end;
     unreadCount := unreadCount c;
     lastContacted := Some (u_lastContacted u) |}.

Definition set_unreadCount (n : nat) (c : doc) : doc :=
  {| _id := _id c; name := name c; phone := phone c;
     queryStatus := queryStatus c;
     unreadCount := Some n;
     lastContacted := lastContacted c |}.

Definition set_queryStatus (q : QueryStatus) (c : doc) : doc :=
  {| _id := _id c; name := name c; phone := phone c;
     queryStatus := q;
     unreadCount := unreadCount c;
     lastContacted := lastContacted c |}.

Definition set_lastContacted (t : Z) (c : doc) : doc :=
  {| _id := _id c; name := name c; phone := phone c;
     queryStatus := queryStatus c;
     unreadCount := unreadCount c;
     lastContacted := Some t |}.

End ContactSchema.

(* ------------------------------------------------------------------------- *)
(** ** The messaging session ([routes/whatsapp.js], module state)

    The module keeps the session in five variables.  The model adds what the
    JavaScript runtime holds for it: the callbacks waiting in [setTimeout],
    and the number of [Client] objects built so far, which names them.
    [initialize()] is an [async] method: its failure arrives as a rejected
    promise, the event [InitializeRejected]. *)

Module Session.

Definition MAX_RETRIES : nat := 3.

(** The three callbacks the module hands to [setTimeout]. *)
Inductive Callback :=
| RetryInit      (* retryWithBackoff: drop the client, initWhatsApp(false) *)
| ClearClient    (* 'disconnected' handler: whatsappClient = null *)
| Start.         (* disconnect and reconnect routes: initWhatsApp() *)

Record Timer := { delay : Z; callback : Callback }.

Record State := {
  whatsappClient : option nat;
  qrCodeData : option string;
  isReady : bool;
  isInitializing : bool;
  retryCount : nat;
  timers : list Timer;
  clientsCreated : nat
}.

(** The module variables as they are declared. *)
Definition initial : State :=
  {| whatsappClient := None; qrCodeData := None; isReady := false;
     isInitializing := false; retryCount := 0; timers := [];
     clientsCreated := 0 |}.

Definition hasClient (s : State) : bool :=
  match whatsappClient s with Some _ => true | None => false end.

(** [!isReady || !whatsappClient] is false. *)
Definition connected (s : State) : bool := isReady s && hasClient s.

Definition initWhatsApp (resetRetryCount : bool) (s : State) : State :=
  if hasClient s || isInitializing s then s
  else
    {| whatsappClient := Some (clientsCreated s);
       qrCodeData := qrCodeData s;
       isReady := isReady s;
       isInitializing := true;
       retryCount := if resetRetryCount then 0 else retryCount s;
       timers := timers s;
       clientsCreated := S (clientsCreated s) |}.

(** [Math.min(1000 * Math.pow(2, retryCount - 1), 10000)], for the values
    [retryCount >= 1] it is called with. *)
Definition backoffDelay (attempt : nat) : Z :=
  Z.min (1000 * 2 ^ (Z.of_nat attempt - 1)) 10000.

Definition retryWithBackoff (s : State) : State :=
  if (MAX_RETRIES <=? retryCount s)%nat then
    {| whatsappClient := None;
       qrCodeData := qrCodeData s;
       isReady := isReady s;
       isInitializing := false;
       retryCount := retryCount s;
       timers := timers s;
       clientsCreated := clientsCreated s |}
  else
    let retryCount' := S (retryCount s) in
    {| whatsappClient := whatsappClient s;
       qrCodeData := qrCodeData s;
       isReady := isReady s;
       isInitializing := isInitializing s;
       retryCount := retryCount';
       timers := timers s ++
                 [{| delay := backoffDelay retryCount'; callback := RetryInit |}];
       clientsCreated := clientsCreated s |}.

Definition set_isInitializing (b : bool) (s : State) : State :=
  {| whatsappClient := whatsappClient s; qrCodeData := qrCodeData s;
     isReady := isReady s; isInitializing := b;
     retryCount := retryCount s; timers := timers s;
     clientsCreated := clientsCreated s |}.

Definition set_whatsappClient (c : option nat) (s : State) : State :=
  {| whatsappClient := c; qrCodeData := qrCodeData s;
     isReady := isReady s; isInitializing := isInitializing s;
     retryCount := retryCount s; timers := timers s;
     clientsCreated := clientsCreated s |}.

Definition set_timers (t : list Timer) (s : State) : State :=
  {| whatsappClient := whatsappClient s; qrCodeData := qrCodeData s;
     isReady := isReady s; isInitializing := isInitializing s;
     retryCount := retryCount s; timers := t;
     clientsCreated := clientsCreated s |}.

(** The body of a callback, run when its timer expires. *)
Definition runCallback (c : Callback) (s : State) : State :=
  match c with
  | RetryInit =>
      initWhatsApp false (set_isInitializing false (set_whatsappClient None s))
  | ClearClient => set_whatsappClient None s
  | Start => initWhatsApp true s
  end.

Fixpoint removeNth {A} (i : nat) (l : list A) : list A :=
  match i, l with
  | _, [] => []
  | O, _ :: r => r
  | S j, x :: r => x :: removeNth j r
  end.

Inductive Event :=
| OnQr (qr : string)
| OnReady
| OnAuthenticated
| OnAuthFailure
| OnDisconnected
| OnError (message : string)
| InitializeRejected (message : string)
| TimerFires (i : nat)
| PostDisconnect
| PostReconnect.

Definition isProtocolError (message : string) : bool :=
  Js.includes message "Protocol error"
  || Js.includes message "Execution context was destroyed".

Definition step (s : State) (e : Event) : State :=
  match e with
  | OnQr qr =>
      {| whatsappClient := whatsappClient s; qrCodeData := Some qr;
         isReady := isReady s; isInitializing := isInitializing s;
         retryCount := retryCount s; timers := timers s;
         clientsCreated := clientsCreated s |}
  | OnReady =>
      {| whatsappClient := whatsappClient s; qrCodeData := None;
         isReady := true; isInitializing := false;
         retryCount := 0; timers := timers s;
         clientsCreated := clientsCreated s |}
  | OnAuthenticated => s
  | OnAuthFailure =>
      {| whatsappClient := whatsappClient s; qrCodeData := qrCodeData s;
         isReady := false; isInitializing := isInitializing s;
         retryCount := retryCount s; timers := timers s;
         clientsCreated := clientsCreated s |}
  | OnDisconnected =>
      {| whatsappClient := whatsappClient s; qrCodeData := qrCodeData s;
         isReady := false; isInitializing := false;
         retryCount := retryCount s;
         timers := timers s ++ [{| delay := 2000; callback := ClearClient |}];
         clientsCreated := clientsCreated s |}
  | OnError message =>
      if Js.truthy message && Js.includes message "EBUSY" then s
      else if Js.truthy message && isProtocolError message
      then retryWithBackoff (set_isInitializing false s)
      else s
  | InitializeRejected _ =>
      (* the three branches differ in what they print only *)
      retryWithBackoff (set_isInitializing false s)
  | TimerFires i =>
      match nth_error (timers s) i with
      | Some t => runCallback (callback t) (set_timers (removeNth i (timers s)) s)
      | None => s
      end
  | PostDisconnect =>
      {| whatsappClient := None; qrCodeData := None;
         isReady := false; isInitializing := false;
         retryCount := 0;
         timers := timers s ++ [{| delay := 1500; callback := Start |}];
         clientsCreated := clientsCreated s |}
  | PostReconnect =>
      {| whatsappClient := None; qrCodeData := None;
         isReady := false; isInitializing := false;
         retryCount := 0;
         timers := timers s ++ [{| delay := 2000; callback := Start |}];
         clientsCreated := clientsCreated s |}
  end.

Definition run (s : State) (es : list Event) : State := fold_left step es s.

(** The state once the module is loaded: [initWhatsApp()] has run. *)
Definition loaded : State := initWhatsApp true initial.

End Session.

(* ------------------------------------------------------------------------- *)
(** ** The store, the environment and the computations of a handler

    A handler runs against a [World]: the two collections, the id the store
    hands out next, the number of clock readings taken so far and what
    [console.error] has printed.  Its [Env] answers the calls that leave the
    process: the clock, the transport, and whether a store call rejects.  A
    computation either returns or throws, and the world it has reached is
    kept in both cases, since a write made before a throw stays made. *)

Module Rt.

(** A thrown value: its [message] property (empty when it has none) and
    what [toString()] gives. *)
Record JsError := { errMessage : string; errText : string }.

(** [new Error(msg)] *)
Definition mkError (msg : string) : JsError :=
  {| errMessage := msg; errText := "Error: " ++ msg |}.

Inductive DbOp :=
| ContactFindById | ContactFindOne | ContactCreate | ContactSave
| ContactFindByIdAndUpdate
| MessageCreate | MessageAggregate | MessageFindOne.

(** What the transport knows of a sender. *)
Record ContactInfo := { pushname : string; ci_name : string }.

Record Env := {
  clock : nat -> Z;                       (* the k-th reading of the clock *)
  faults : DbOp -> option string;         (* [Some msg]: the call rejects *)
  session : Session.State;                (* module state when the handler starts *)
  sessionAtCatch : Session.State;         (* ... when a failed send is handled *)
  sendMessage : string -> string -> JsError + string;
                                          (* resolves with [id._serialized] *)
  getContactById : string -> JsError + option ContactInfo
}.

Record World := {
  contacts : list ContactSchema.doc;
  messages : list MessageSchema.doc;
  nextId : nat;
  ticks : nat;
  errorLog : list (string * JsError)
}.

Inductive Outcome (A : Type) :=
| Returned (a : A) (w : World)
| Threw (e : JsError) (w : World).
Arguments Returned {A} a w.
Arguments Threw {A} e w.

Definition M (A : Type) : Type := Env -> World -> Outcome A.

(** The world a computation has reached, however it ended. *)
Definition worldOf {A} (o : Outcome A) : World :=
  match o with
  | Returned _ w => w
  | Threw _ w => w
  end.

Definition ret {A} (a : A) : M A := fun _ w => Returned a w.

Definition bind {A B} (c : M A) (k : A -> M B) : M B :=
  fun env w =>
    match c env w with
    | Returned a w' => k a env w'
    | Threw e w' => Threw e w'
    end.

Definition throw {A} (e : JsError) : M A := fun _ w => Threw e w.

(** [try { c } catch (e) { h e }] *)
Definition tryCatch {A} (c : M A) (h : JsError -> M A) : M A :=
  fun env w =>
    match c env w with
    | Returned a w' => Returned a w'
    | Threw e w' => h e env w'
    end.

Definition askEnv : M Env := fun env w => Returned env w.
Definition getWorld : M World := fun _ w => Returned w w.
Definition putWorld (w : World) : M unit := fun _ _ => Returned tt w.

Declare Scope rt_scope.
Delimit Scope rt_scope with rt.
Notation "x <- c ;; k" := (bind c (fun x => k))
  (at level 61, c at next level, right associativity) : rt_scope.
Notation "c ;;; k" := (bind c (fun _ => k))
  (at level 61, right associativity) : rt_scope.
Local Open Scope rt_scope.

(** [new Date()] *)
Definition newDate : M Z :=
  fun env w =>
    Returned (clock env (ticks w))
      {| contacts := contacts w; messages := messages w;
         nextId := nextId w; ticks := S (ticks w);
         errorLog := errorLog w |}.

(** [console.error(label, e)] *)
Definition consoleError (label : string) (e : JsError) : M unit :=
  fun _ w =>
    Returned tt
      {| contacts := contacts w; messages := messages w;
         nextId := nextId w; ticks := ticks w;
         errorLog := errorLog w ++ [(label, e)] |}.

(** A store call first meets its fault, if the environment has one. *)
Definition dbCall {A} (op : DbOp) (c : M A) : M A :=
  env <- askEnv ;;
  match faults env op with
  | Some msg => throw (mkError msg)
  | None => c
  end.

Definition set_contacts (cs : list ContactSchema.doc) (w : World) : World :=
  {| contacts := cs; messages := messages w; nextId := nextId w;
     ticks := ticks w; errorLog := errorLog w |}.

(** Replaces the document that has the id of [c]. *)
Fixpoint replaceContact (c : ContactSchema.doc) (cs : list ContactSchema.doc)
  : list ContactSchema.doc :=
  match cs with
  | [] => []
  | x :: r =>
      if (ContactSchema._id x =? ContactSchema._id c)%nat then c :: r
      else x :: replaceContact c r
  end.

Definition lookupContact (id : nat) (cs : list ContactSchema.doc)
  : option ContactSchema.doc :=
  find (fun c => (ContactSchema._id c =? id)%nat) cs.

Module Contact.

(** [Contact.findById(id)] *)
Definition findById (id : nat) : M (option ContactSchema.doc) :=
  dbCall ContactFindById
    (w <- getWorld ;; ret (lookupContact id (contacts w))).

(** [Contact.findOne({ phone })] *)
Definition findOne (phone : string) : M (option ContactSchema.doc) :=
  dbCall ContactFindOne
    (w <- getWorld ;;
     ret (find (fun c => String.eqb (ContactSchema.phone c) phone)
               (contacts w))).

(** [Contact.create(data)] *)
Definition create (d : ContactSchema.data) : M ContactSchema.doc :=
  dbCall ContactCreate
    (w <- getWorld ;;
     let c := ContactSchema.build (nextId w) d in
     putWorld {| contacts := contacts w ++ [c]; messages := messages w;
                 nextId := S (nextId w); ticks := ticks w;
                 errorLog := errorLog w |} ;;;
     ret c).

(** [contact.save()] on a document read from the store. *)
Definition save (c : ContactSchema.doc) : M unit :=
  dbCall ContactSave
    (w <- getWorld ;;
     putWorld (set_contacts (replaceContact c (contacts w)) w)).

(** [Contact.findByIdAndUpdate(id, update)]; resolves with the document
    as it was, or [null]. *)
Definition findByIdAndUpdate (id : nat) (u : ContactSchema.update)
  : M (option ContactSchema.doc) :=
  dbCall ContactFindByIdAndUpdate
    (w <- getWorld ;;
     match lookupContact id (contacts w) with
     | Some c =>
         putWorld (set_contacts
                     (replaceContact (ContactSchema.apply u c) (contacts w))
                     w) ;;;
         ret (Some c)
     | None => ret None
     end).

End Contact.

Module Message.

(** [Message.create(data)]; [phone] and [message] are required, and
    mongoose refuses an empty string for a required path. *)
Definition create (d : MessageSchema.data) : M MessageSchema.doc :=
  dbCall MessageCreate
    (env <- askEnv ;;
     w <- getWorld ;;
     if negb (Js.truthy (MessageSchema.d_phone d))
     then throw (mkError
            "Message validation failed: phone: Path `phone` is required.")
     else if negb (Js.truthy (MessageSchema.d_message d))
     then throw (mkError
            "Message validation failed: message: Path `message` is required.")
     else
     let m := MessageSchema.build (nextId w) (clock env (ticks w)) d in
     putWorld {| contacts := contacts w; messages := messages w ++ [m];
                 nextId := S (nextId w); ticks := ticks w;
                 errorLog := errorLog w |} ;;;
     ret m).

End Message.

End Rt.

(* ------------------------------------------------------------------------- *)
(** ** Inbound ingestion ([whatsappClient.on('message')]) *)

Module Inbound.
Import Rt.
Local Open Scope rt_scope.

(** The transport's message: sender id, text, and time in seconds. *)
Record Msg := { from : string; body : string; timestamp : Z }.

(** The name of a new contact: the transport's, or 'Customer'. *)
Definition contactNameFor (from : string) : M string :=
  tryCatch
    (env <- askEnv ;;
     match getContactById env from with
     | inl e => throw e
     | inr contactInfo =>
         match contactInfo with
         | Some ci =>
             if Js.truthy (pushname ci) then ret (pushname ci)
             else if Js.truthy (ci_name ci) then ret (ci_name ci)
             else ret "Customer"
         | None => ret "Customer"
         end
     end)
    (fun _ => ret "Customer").

(** [contact.unreadCount || 0] *)
Definition orZero (n : option nat) : nat :=
  match n with Some k => k | None => 0 end.

(** The changes made to a contact that is already known. *)
Definition touch (t : Z) (contact : ContactSchema.doc) : ContactSchema.doc :=
  let c1 :=
    ContactSchema.set_unreadCount (orZero (ContactSchema.unreadCount contact) + 1)
                                  contact in
  let c2 :=
    if QueryStatus_eqb (ContactSchema.queryStatus c1) qs_resolved
       || QueryStatus_eqb (ContactSchema.queryStatus c1) qs_closed
    then ContactSchema.set_queryStatus qs_new c1
    else c1 in
  ContactSchema.set_lastContacted t c2.

Definition onMessage (msg : Msg) : M unit :=
  tryCatch
    (let phone := Js.removeFirst "@c.us" (from msg) in
     found <- Contact.findOne phone ;;
     contact <-
       match found with
       | None =>
           contactName <- contactNameFor (from msg) ;;
           Contact.create
             {| ContactSchema.d_name := contactName;
                ContactSchema.d_phone := phone;
                ContactSchema.d_queryStatus := qs_new;
                ContactSchema.d_unreadCount := 1;
                ContactSchema.d_lastContacted := Some (timestamp msg * 1000)%Z |}
       | Some c =>
           let c' := touch (timestamp msg * 1000)%Z c in
           Contact.save c' ;;; ret c'
       end ;;
     let sentiment := Sentiment.analyzeSentiment (body msg) in
     Message.create
       {| MessageSchema.d_contactId := Some (ContactSchema._id contact);
          MessageSchema.d_phone := phone;
          MessageSchema.d_direction := inbound;
          MessageSchema.d_message := body msg;
          MessageSchema.d_timestamp := Some (timestamp msg * 1000)%Z;
          MessageSchema.d_status := Some delivered;
          MessageSchema.d_sentiment := Some (Sentiment.sentiment sentiment);
          MessageSchema.d_sentimentScore := Some (Sentiment.score sentiment) |} ;;;
     ret tt)
    (fun error => consoleError "Error saving incoming message:" error).

(** The world after the handler has settled; it never throws. *)
Definition handle (msg : Msg) (env : Env) (w : World) : World :=
  match onMessage msg env w with
  | Returned _ w' => w'
  | Threw _ w' => w'
  end.

End Inbound.

(* ------------------------------------------------------------------------- *)
(** ** Outbound send ([router.post('/send')]) *)

Module Send.
Import Rt.
Local Open Scope rt_scope.

(** [req.body]; a string left out of the request is the empty string,
    which is as falsy. *)
Record Request := { phone : string; message : string; contactId : option nat }.

Inductive Body :=
| ErrorBody (error : string)
| SuccessBody (messageId : string) (message : string).

Record Response := { code : nat; body : Body }.

Definition reject (code : nat) (error : string) : M Response :=
  ret {| code := code; body := ErrorBody error |}.

(** Lines 454 to 472: the digits of [phone], or the text of the refusal. *)
Definition validatePhone (phone : string) : string + string :=
  let cleanedPhone := Js.stripNonDigits phone in
  if negb (Js.truthy cleanedPhone) || (String.length cleanedPhone =? 0)%nat
  then inl "Phone number is required and cannot be empty."
  else if (String.length cleanedPhone <? 10)%nat
  then inl ("Phone number is too short ("
            ++ Js.showNat (String.length cleanedPhone)
            ++ " digits). Please include country code." ++ Js.nl
            ++ "Example: 1234567890 (US) or 911234567890 (India)")
  else if (15 <? String.length cleanedPhone)%nat
  then inl ("Phone number is too long ("
            ++ Js.showNat (String.length cleanedPhone)
            ++ " digits). Maximum is 15 digits with country code.")
  else inr cleanedPhone.

(** The answer to a rejected [sendMessage]. *)
Definition classifySendError (cleanedPhone : string) (sendError : JsError)
  : M Response :=
  let errorMsg :=
    Js.toLowerCase (Js.orElse (errMessage sendError)
                              (Js.orElse (errText sendError) "")) in
  let errorString := errText sendError in
  if Js.includes errorMsg "t: t"
     || Js.includes errorMsg "not registered"
     || Js.includes errorMsg "invalid number"
     || Js.includes errorMsg "number not registered"
     || Js.includes errorString "not registered"
  then reject 400
         ("Phone number " ++ cleanedPhone
          ++ " is not registered on WhatsApp or is invalid. Please verify:"
          ++ Js.nl ++ "- The number includes country code (e.g., 1234567890 for US)"
          ++ Js.nl ++ "- The number is correct"
          ++ Js.nl ++ "- The contact has WhatsApp installed")
  else if Js.includes errorMsg "protocol error"
          || Js.includes errorMsg "execution context"
          || Js.includes errorMsg "target closed"
          || Js.includes errorMsg "session closed"
  then reject 503
         "WhatsApp connection lost. Please go to Settings and reconnect your WhatsApp account."
  else if Js.includes errorMsg "timeout" || Js.includes errorMsg "timed out"
  then reject 504
         "Request timed out. Please check your internet connection and try again."
  else if Js.includes errorMsg "rate limit" || Js.includes errorMsg "too many"
  then reject 429
         "Too many messages sent. Please wait a few minutes before sending more messages."
  else
    env <- askEnv ;;
    if negb (Session.connected (sessionAtCatch env))
    then reject 400
           "WhatsApp is not connected. Please go to Settings and connect your WhatsApp account first."
    else
      let detailedError :=
        Js.orElse (errMessage sendError)
                  (Js.orElse (errText sendError) "Unknown error") in
      reject 500
        ("Failed to send message: " ++ detailedError ++ ". Please verify:"
         ++ Js.nl ++ "- Phone number format is correct (include country code)"
         ++ Js.nl ++ "- WhatsApp is connected"
         ++ Js.nl ++ "- The number is registered on WhatsApp").

(** Lines 557 to 599: the side record of a message that went out. *)
Definition saveToDatabase (contactId : option nat)
           (cleanedPhone message : string) : M unit :=
  contact <-
    match contactId with
    | Some id => Contact.findById id
    | None => Contact.findOne cleanedPhone
    end ;;
  timestamp <- newDate ;;
  let messageData :=
    {| MessageSchema.d_contactId := None;
       MessageSchema.d_phone := cleanedPhone;
       MessageSchema.d_direction := outbound;
       MessageSchema.d_message := Js.trim message;
       MessageSchema.d_timestamp := Some timestamp;
       MessageSchema.d_status := Some sent;
       MessageSchema.d_sentiment := None;
       MessageSchema.d_sentimentScore := None |} in
  match contact with
  | Some c =>
      Message.create
        (MessageSchema.set_contactId (ContactSchema._id c) messageData) ;;;
      lastContacted <- newDate ;;
      let updateData :=
        {| ContactSchema.u_lastContacted := lastContacted;
           ContactSchema.u_queryStatus :=
             if QueryStatus_eqb (ContactSchema.queryStatus c) qs_new
             then Some qs_in_progress else None |} in
      Contact.findByIdAndUpdate (ContactSchema._id c) updateData ;;;
      ret tt
  | None =>
      created <-
        Contact.create
          {| ContactSchema.d_name :=
               "Customer "
               ++ Js.substringFrom (String.length cleanedPhone - 4) cleanedPhone;
             ContactSchema.d_phone := cleanedPhone;
             ContactSchema.d_queryStatus := qs_new;
             ContactSchema.d_unreadCount := 0;
             ContactSchema.d_lastContacted := None |} ;;
      Message.create
        (MessageSchema.set_contactId (ContactSchema._id created) messageData) ;;;
      ret tt
  end.

Definition friendly (error : JsError) : string :=
  if Js.truthy (errMessage error) then
    if Js.includes (errMessage error) "not connected"
    then "WhatsApp is not connected. Please check your connection in Settings."
    else if Js.includes (errMessage error) "timeout"
    then "Request timed out. Please try again."
    else errMessage error
  else "An unexpected error occurred while sending the message.".

Definition send (req : Request) : M Response :=
  tryCatch
    (env <- askEnv ;;
     if negb (Session.connected (session env))
     then reject 400
            "WhatsApp not connected. Please check your connection in Settings."
     else if negb (Js.truthy (phone req)) || negb (Js.truthy (message req))
     then reject 400 "Phone and message are required"
     else
       match validatePhone (phone req) with
       | inl refusal => reject 400 refusal
       | inr cleanedPhone =>
           let formattedPhone :=
             if negb (Js.includes cleanedPhone "@")
             then cleanedPhone ++ "@c.us" else cleanedPhone in
           if (String.length (Js.trim (message req)) =? 0)%nat
           then reject 400 "Message cannot be empty"
           else
             match sendMessage env formattedPhone (Js.trim (message req)) with
             | inl sendError =>
                 consoleError "WhatsApp send error details:" sendError ;;;
                 classifySendError cleanedPhone sendError
             | inr serialized =>
                 saveToDatabase (contactId req) cleanedPhone (message req) ;;;
                 ret {| code := 200;
                        body := SuccessBody serialized
                                  "Message sent successfully" |}
             end
       end)
    (fun error =>
       consoleError "Error sending message:" error ;;;
       ret {| code := 500; body := ErrorBody (friendly error) |}).

(** The response and the world once the request is answered. *)
Definition handle (req : Request) (env : Env) (w : World) : Response * World :=
  match send req env w with
  | Returned r w' => (r, w')
  | Threw e w' =>
      (* not reached: the handler of [send] returns *)
      ({| code := 500; body := ErrorBody (errMessage e) |}, w')
  end.

End Send.

(* ------------------------------------------------------------------------- *)
(** ** Conversation view ([routes/conversations.js]) *)

Module Conversations.
Import Rt.
Local Open Scope rt_scope.

Record SLA := { overdue : bool; minutes : Z; text : string; urgent : bool }.

(** Rendering of a number that is not negative. *)
Definition show (z : Z) : string := Js.showNat (Z.to_nat z).

Definition calculateSLATime (lastMessageTime : option Z) (slaHours : Z)
  : M (option SLA) :=
  match lastMessageTime with
  | None => ret None
  | Some lastMsg =>
      now <- newDate ;;
      let diffMs := (now - lastMsg)%Z in
      let diffMins := (diffMs / 60000)%Z in
      let remainingMins := (slaHours * 60 - diffMins)%Z in
      if (remainingMins <=? 0)%Z then
        ret (Some {| overdue := true;
                     minutes := Z.abs remainingMins;
                     text := show (Z.abs remainingMins) ++ "m overdue";
                     urgent := true |})
      else if (remainingMins <=? 30)%Z then
        ret (Some {| overdue := false;
                     minutes := remainingMins;
                     text := show remainingMins ++ "m remaining";
                     urgent := true |})
      else
        let hours := (remainingMins / 60)%Z in
        let mins := (remainingMins mod 60)%Z in
        ret (Some {| overdue := false;
                     minutes := remainingMins;
                     text := show hours ++ "h " ++ show mins ++ "m remaining";
                     urgent := false |})
  end.

(** One document of the [$group] stage. *)
Record Conv := {
  _id : option nat;
  lastMessage : Z;          (* $max of timestamp *)
  messageCount : nat;       (* $sum of 1 *)
  unreadCount : nat         (* $sum of 1 for inbound, 0 otherwise *)
}.

Definition key_eqb (a b : option nat) : bool :=
  match a, b with
  | Some x, Some y => (x =? y)%nat
  | None, None => true
  | _, _ => false
  end.

Definition inboundUnit (m : MessageSchema.doc) : nat :=
  if Direction_eqb (MessageSchema.direction m) inbound then 1 else 0.

(** The accumulators of [$group] take one more message. *)
Fixpoint accumulate (m : MessageSchema.doc) (gs : list Conv) : list Conv :=
  match gs with
  | [] =>
      [{| _id := MessageSchema.contactId m;
          lastMessage := MessageSchema.timestamp m;
          messageCount := 1;
          unreadCount := inboundUnit m |}]
  | g :: r =>
      if key_eqb (_id g) (MessageSchema.contactId m) then
        {| _id := _id g;
           lastMessage := Z.max (lastMessage g) (MessageSchema.timestamp m);
           messageCount := messageCount g + 1;
           unreadCount := unreadCount g + inboundUnit m |} :: r
      else g :: accumulate m r
  end.

Definition group (ms : list MessageSchema.doc) : list Conv :=
  fold_left (fun gs m => accumulate m gs) ms [].

(** [$sort: { lastMessage: -1 }]; groups of equal [lastMessage] stay in
    the order the grouping met them. *)
Fixpoint insertDesc (c : Conv) (l : list Conv) : list Conv :=
  match l with
  | [] => [c]
  | x :: r =>
      if (lastMessage x <=? lastMessage c)%Z then c :: l
      else x :: insertDesc c r
  end.

Definition sortDesc (l : list Conv) : list Conv := fold_right insertDesc [] l.

(** [Message.aggregate([...])] *)
Definition aggregate : M (list Conv) :=
  dbCall MessageAggregate
    (w <- getWorld ;; ret (sortDesc (group (messages w)))).

(** The newest of a list of messages; of two of the same instant, the one
    stored first. *)
Fixpoint newest (ms : list MessageSchema.doc) : option MessageSchema.doc :=
  match ms with
  | [] => None
  | m :: r =>
      match newest r with
      | Some m' =>
          if (MessageSchema.timestamp m <? MessageSchema.timestamp m')%Z
          then Some m' else Some m
      | None => Some m
      end
  end.

Definition ofContact (k : option nat) (ms : list MessageSchema.doc)
  : list MessageSchema.doc :=
  filter (fun m => key_eqb k (MessageSchema.contactId m)) ms.

(** [Message.findOne({ contactId }).sort({ timestamp: -1 })] *)
Definition findLast (k : option nat) : M (option MessageSchema.doc) :=
  dbCall MessageFindOne
    (w <- getWorld ;; ret (newest (ofContact k (messages w)))).

(** [Contact.findById(conv._id)], which is [null] for the group of the
    messages that have no contact. *)
Definition findContact (k : option nat) : M (option ContactSchema.doc) :=
  match k with
  | Some id => Contact.findById id
  | None => dbCall ContactFindById (ret None)
  end.

(** The word lists of the view, shorter than the classifier's. *)
Definition negativeWords : list string :=
  ["bad"; "terrible"; "worst"; "angry"; "frustrated"; "disappointed";
   "hate"; "problem"; "issue"; "error"].

Definition positiveWords : list string :=
  ["thank"; "great"; "good"; "excellent"; "happy"; "satisfied"; "love";
   "perfect"].

(** Lines 76 to 85. *)
Definition sentimentOf (lastMessage : option MessageSchema.doc)
  : Sentiment.Label :=
  match lastMessage with
  | Some m =>
      if Direction_eqb (MessageSchema.direction m) inbound then
        let lowerMsg := Js.toLowerCase (MessageSchema.message m) in
        let negCount := Sentiment.hits negativeWords lowerMsg in
        let posCount := Sentiment.hits positiveWords lowerMsg in
        if (posCount <? negCount)%nat then Sentiment.negative
        else if (negCount <? posCount)%nat then Sentiment.positive
        else Sentiment.neutral
      else Sentiment.neutral
  | None => Sentiment.neutral
  end.

Record LastMessage := {
  lm_message : string;
  lm_timestamp : Z;
  lm_direction : Direction
}.

Record Summary := {
  s_contact : option ContactSchema.doc;
  s_lastMessage : option LastMessage;
  s_messageCount : nat;
  s_unreadCount : nat;
  s_sla : option SLA;
  s_sentiment : Sentiment.Label
}.

(** The callback of [conversations.map]. *)
Definition populate (conv : Conv) : M Summary :=
  contact <- findContact (_id conv) ;;
  lastMessage <- findLast (_id conv) ;;
  slaInfo <-
    match contact with
    | Some c =>
        match ContactSchema.lastContacted c with
        | Some t => calculateSLATime (Some t) 2
        | None => ret None
        end
    | None => ret None
    end ;;
  ret {| s_contact := contact;
         s_lastMessage :=
           match lastMessage with
           | Some m =>
               Some {| lm_message := MessageSchema.message m;
                       lm_timestamp := MessageSchema.timestamp m;
                       lm_direction := MessageSchema.direction m |}
           | None => None
           end;
         s_messageCount := messageCount conv;
         s_unreadCount := unreadCount conv;   (* [conv.unreadCount || 0] *)
         s_sla := slaInfo;
         s_sentiment := sentimentOf lastMessage |}.

Fixpoint mapM {A B} (f : A -> M B) (l : list A) : M (list B) :=
  match l with
  | [] => ret []
  | a :: r => b <- f a ;; bs <- mapM f r ;; ret (b :: bs)
  end.

Inductive Response :=
| Json (conversations : list Summary)            (* 200 *)
| Failure (code : nat) (error : string).

Definition get : M Response :=
  tryCatch
    (conversations <- aggregate ;;
     populatedConversations <- mapM populate conversations ;;
     ret (Json populatedConversations))
    (fun error => ret (Failure 500 (errMessage error))).

Definition handle (env : Env) (w : World) : Response :=
  match get env w with
  | Returned r _ => r
  | Threw e _ => Failure 500 (errMessage e)
  end.

End Conversations.

(* ------------------------------------------------------------------------- *)
(** ** Derived notions used in the statements *)

Module Spec.
Import Rt.

(** A send is dispatched when the route gets as far as [sendMessage] and
    the transport resolves: the digits of the phone and the id of the
    message that went out. *)
Definition dispatch (req : Send.Request) (env : Env) : option (string * string) :=
  if Session.connected (session env)
     && Js.truthy (Send.phone req) && Js.truthy (Send.message req)
  then
    match Send.validatePhone (Send.phone req) with
    | inl _ => None
    | inr cleanedPhone =>
        if (String.length (Js.trim (Send.message req)) =? 0)%nat then None
        else
          match sendMessage env (cleanedPhone ++ "@c.us")
                            (Js.trim (Send.message req)) with
          | inl _ => None
          | inr serialized => Some (cleanedPhone, serialized)
          end
    end
  else None.

(** The contact a send resolves: by [contactId] when the request has one,
    else by phone. *)
Definition resolve (contactId : option nat) (cleanedPhone : string) (w : World)
  : option ContactSchema.doc :=
  match contactId with
  | Some id => lookupContact id (contacts w)
  | None =>
      find (fun c => String.eqb (ContactSchema.phone c) cleanedPhone)
           (contacts w)
  end.

(** Every character of [s] is a digit. *)
Fixpoint onlyDigits (s : string) : bool :=
  match s with
  | EmptyString => true
  | String c r => Js.isDigit c && onlyDigits r
  end.

(** Document ids identify: no two contacts of the store share one. *)
Definition uniqueIds (w : World) : Prop :=
  NoDup (map ContactSchema._id (contacts w)).

(** What a send makes of the contact it resolved: contacted now, and in
    progress if its query was new. *)
Definition responded (now : Z) (c : ContactSchema.doc) : ContactSchema.doc :=
  {| ContactSchema._id := ContactSchema._id c;
     ContactSchema.name := ContactSchema.name c;
     ContactSchema.phone := ContactSchema.phone c;
     ContactSchema.queryStatus :=
       match ContactSchema.queryStatus c with
       | qs_new => qs_in_progress
       | unchanged => unchanged
       end;
     ContactSchema.unreadCount := ContactSchema.unreadCount c;
     ContactSchema.lastContacted := Some now |}.

(** The message a send records for the contact [id]. *)
Definition outboundMessage (id contact : nat) (cleanedPhone text : string)
           (now : Z) : MessageSchema.doc :=
  {| MessageSchema._id := id;
     MessageSchema.contactId := Some contact;
     MessageSchema.phone := cleanedPhone;
     MessageSchema.direction := outbound;
     MessageSchema.message := Js.trim text;
     MessageSchema.timestamp := now;
     MessageSchema.status := sent;
     MessageSchema.sentiment := Sentiment.neutral;
     MessageSchema.sentimentScore := (5 # 10)%Q |}.

(** No store call rejects. *)
Definition healthy (env : Env) : Prop := forall op, faults env op = None.

(** The messages of the store that are inbound and belong to [k]. *)
Definition inboundOf (k : option nat) (ms : list MessageSchema.doc)
  : list MessageSchema.doc :=
  filter (fun m => Direction_eqb (MessageSchema.direction m) inbound)
         (Conversations.ofContact k ms).


(** Following the words of the specification: the counter stored with the
    contact of a summary. *)
Definition storedUnread_spec (s : Conversations.Summary) : option nat :=
  match Conversations.s_contact s with
  | Some c => ContactSchema.unreadCount c
  | None => None
  end.

(** The group a message joins, and the group it opens. *)
Definition joined (m : MessageSchema.doc) (g : Conversations.Conv) : Conversations.Conv :=
  {| Conversations._id := Conversations._id g;
     Conversations.lastMessage := Z.max (Conversations.lastMessage g) (MessageSchema.timestamp m);
     Conversations.messageCount := Conversations.messageCount g + 1;
     Conversations.unreadCount := Conversations.unreadCount g + Conversations.inboundUnit m |}.

Definition opened (m : MessageSchema.doc) : Conversations.Conv :=
  {| Conversations._id := MessageSchema.contactId m;
     Conversations.lastMessage := MessageSchema.timestamp m;
     Conversations.messageCount := 1;
     Conversations.unreadCount := Conversations.inboundUnit m |}.

(** What the grouping has computed, for the messages seen so far. *)
Definition counted (ms : list MessageSchema.doc) (g : Conversations.Conv) : Prop :=
  Conversations.messageCount g = List.length (Conversations.ofContact (Conversations._id g) ms)
  /\ Conversations.unreadCount g = List.length (inboundOf (Conversations._id g) ms)
  /\ 1 <= Conversations.messageCount g.

(** A summary renders the group [conv] of a store with the contacts [cs]
    and the messages [ms]. *)
Definition summarizes (cs : list ContactSchema.doc)
           (ms : list MessageSchema.doc)
           (conv : Conversations.Conv) (s : Conversations.Summary) : Prop :=
  let last := Conversations.newest
                (Conversations.ofContact (Conversations._id conv) ms) in
  Conversations.s_contact s
  = match Conversations._id conv with
    | Some id => lookupContact id cs
    | None => None
    end
  /\ Conversations.s_messageCount s = Conversations.messageCount conv
  /\ Conversations.s_unreadCount s = Conversations.unreadCount conv
  /\ Conversations.s_sentiment s = Conversations.sentimentOf last
  /\ Conversations.s_lastMessage s
     = match last with
       | Some m =>
           Some {| Conversations.lm_message := MessageSchema.message m;
                   Conversations.lm_timestamp := MessageSchema.timestamp m;
                   Conversations.lm_direction := MessageSchema.direction m |}
       | None => None
       end.

(** Every outbound message of the store carries the schema's sentiment. *)
Definition outboundNeutral (ms : list MessageSchema.doc) : Prop :=
  forall m, In m ms ->
    MessageSchema.direction m = outbound ->
    MessageSchema.sentiment m = Sentiment.neutral
    /\ MessageSchema.sentimentScore m = (5 # 10)%Q.

End Spec.

(* ------------------------------------------------------------------------- *)
(** ** Concrete worlds and environments *)

Module Fixtures.
Import Rt.

Definition emptyWorld : World :=
  {| contacts := []; messages := []; nextId := 0; ticks := 0; errorLog := [] |}.

Definition readySession : Session.State :=
  Session.step Session.loaded Session.OnReady.

(** A connected session, a transport that accepts, a store that answers;
    the clock reads 5000, 5001, ... *)
Definition calmEnv : Env :=
  {| clock := fun k => (5000 + Z.of_nat k)%Z;
     faults := fun _ => None;
     session := readySession;
     sessionAtCatch := readySession;
     sendMessage := fun _ _ => inr "true_12345678901@c.us_3EB0";
     getContactById := fun _ => inr None |}.

(** The same, with a store that refuses to create a message. *)
Definition brokenStoreEnv : Env :=
  {| clock := clock calmEnv;
     faults := fun op =>
                 match op with
                 | MessageCreate => Some "connection closed"
                 | _ => None
                 end;
     session := readySession;
     sessionAtCatch := readySession;
     sendMessage := sendMessage calmEnv;
     getContactById := getContactById calmEnv |}.

Definition request : Send.Request :=
  {| Send.phone := "+1 (234) 567-8901";
     Send.message := "Your order has shipped";
     Send.contactId := None |}.

(** A contact whose ticket was closed, with nothing unread. *)
Definition alice : ContactSchema.doc :=
  {| ContactSchema._id := 0;
     ContactSchema.name := "Alice";
     ContactSchema.phone := "15551234567";
     ContactSchema.queryStatus := qs_closed;
     ContactSchema.unreadCount := Some 0;
     ContactSchema.lastContacted := Some 1000%Z |}.

Definition complaint : MessageSchema.doc :=
  {| MessageSchema._id := 1;
     MessageSchema.contactId := Some 0;
     MessageSchema.phone := "15551234567";
     MessageSchema.direction := inbound;
     MessageSchema.message := "This is terrible";
     MessageSchema.timestamp := 1000%Z;
     MessageSchema.status := delivered;
     MessageSchema.sentiment := Sentiment.negative;
     MessageSchema.sentimentScore := (7 # 10)%Q |}.

Definition answer : MessageSchema.doc :=
  {| MessageSchema._id := 2;
     MessageSchema.contactId := Some 0;
     MessageSchema.phone := "15551234567";
     MessageSchema.direction := outbound;
     MessageSchema.message := "We are looking into it";
     MessageSchema.timestamp := 2000%Z;
     MessageSchema.status := sent;
     MessageSchema.sentiment := Sentiment.neutral;
     MessageSchema.sentimentScore := (5 # 10)%Q |}.

(** Alice has read her one inbound message; no answer yet. *)
Definition readWorld : World :=
  {| contacts := [alice]; messages := [complaint]; nextId := 2; ticks := 0;
     errorLog := [] |}.

(** Alice complained and was answered. *)
Definition answeredWorld : World :=
  {| contacts := [alice]; messages := [complaint; answer]; nextId := 3;
     ticks := 0; errorLog := [] |}.

Definition hello : Inbound.Msg :=
  {| Inbound.from := "15551234567@c.us";
     Inbound.body := "I have a problem with my order";
     Inbound.timestamp := 1700000000%Z |}.

End Fixtures.

(* ------------------------------------------------------------------------- *)
(** ** Pairing and status routes ([router.get('/status')], [router.get('/qr')]) *)

Module Pairing.

Record Status := { connected : bool; hasQR : bool }.

(** [!!qrCodeData] *)
Definition held (s : Session.State) : option string :=
  match Session.qrCodeData s with
  | Some qr => if Js.truthy qr then Some qr else None
  | None => None
  end.

(** [router.get('/status')] *)
Definition status (s : Session.State) : Status :=
  {| connected := Session.isReady s;
     hasQR := match held s with Some _ => true | None => false end |}.

Inductive QrResponse :=
| QrImage (qrImage : string)
| Qr (qr : string)
| QrStatus (status : string).

(** [router.get('/qr')]; [format] is [req.query.format], [renderer] is the
    optional [qrcode] package, whose [toDataURL] may reject. *)
Definition qr (format : string)
           (renderer : option (string -> Rt.JsError + string))
           (s : Session.State) : QrResponse :=
  match held s with
  | Some qrCodeData =>
      match String.eqb format "image", renderer with
      | true, Some toDataURL =>
          match toDataURL qrCodeData with
          | inr qrImage => QrImage qrImage
          | inl _ => Qr qrCodeData
          end
      | _, _ => Qr qrCodeData
      end
  | None =>
      if Session.isReady s then QrStatus "connected"
      else QrStatus "initializing"
  end.

End Pairing.

(* ------------------------------------------------------------------------- *)
(** ** The reconnect route and its await ([router.post('/reconnect')])

    [Session.step] takes a reconnect request as one update.  The route
    awaits [destroy()] when it finds a client, and the events handled during
    that await see the state between its two halves. *)

Module Reconnect.
Import Session.




End Reconnect.

(* ------------------------------------------------------------------------- *)
(** ** Reply suggestions and context ([routes/ai.js]) *)

Module Ai.

(** [\w] *)
Definition isWordChar (c : ascii) : bool :=
  let n := nat_of_ascii c in
  (((48 <=? n) && (n <=? 57)) || ((65 <=? n) && (n <=? 90))
   || (n =? 95) || ((97 <=? n) && (n <=? 122)))%nat.

Definition wordAt (c : option ascii) : bool :=
  match c with Some x => isWordChar x | None => false end.

(** [\b] between two neighbours; the ends of the text count as non-words. *)
Definition boundary (prev next : option ascii) : bool :=
  xorb (wordAt prev) (wordAt next).

(** The alternative [alt] stands at the head of [s] and [\b] holds after
    it; [prev] is the character before [s]. *)
Definition altHere (prev : option ascii) (s alt : string) : bool :=
  String.prefix alt s
  && boundary (match alt with
               | EmptyString => prev
               | _ => String.get (String.length alt - 1) alt
               end)
              (String.get (String.length alt) s).

(** [s.match(/\b(a|b|...)\b/)] finds something, from some position on. *)
Fixpoint searchFrom (alts : list string) (prev : option ascii) (s : string)
  : bool :=
  (boundary prev (String.get 0 s) && existsb (altHere prev s) alts)
  || match s with
     | EmptyString => false
     | String c r => searchFrom alts (Some c) r
     end.

Definition matchesWord (alts : list string) (s : string) : bool :=
  searchFrom alts None s.

(** [s.match(/\?\s*$/)] *)
Fixpoint questionAtEnd (s : string) : bool :=
  match s with
  | EmptyString => false
  | String c r => (Ascii.eqb c "?" && Js.allWhite r) || questionAtEnd r
  end.




(** Messages of one contact, newest first ([sort({ timestamp: -1 })]);
    messages of the same instant keep their order in the store. *)
Fixpoint insertNewestFirst (m : MessageSchema.doc) (l : list MessageSchema.doc)
  : list MessageSchema.doc :=
  match l with
  | [] => [m]
  | x :: r =>
      if (MessageSchema.timestamp x <=? MessageSchema.timestamp m)%Z
      then m :: l
      else x :: insertNewestFirst m r
  end.

Definition newestFirst (l : list MessageSchema.doc) : list MessageSchema.doc :=
  fold_right insertNewestFirst [] l.

(** [Message.find({ contactId }).sort({ timestamp: -1 }).limit(n)];
    [findFault] is what the store rejects the query with, if it does. *)
Definition recentOf (findFault : option string) (contactId : nat) (n : nat)
           (messages : list MessageSchema.doc)
  : Rt.JsError + list MessageSchema.doc :=
  match findFault with
  | Some msg => inl (Rt.mkError msg)
  | None =>
      inr (firstn n (newestFirst (Conversations.ofContact (Some contactId)
                                                          messages)))
  end.


Inductive SentimentResponse :=
| SentimentOk (result : Sentiment.Result)
| SentimentError (code : nat) (error : string).

(** [router.post('/sentiment')] *)
Definition sentimentRoute (message : string) : SentimentResponse :=
  if negb (Js.truthy message) then SentimentError 400 "Message is required"
  else SentimentOk (Sentiment.analyzeSentimentSimple message).

Definition extractTopic (messages : list MessageSchema.doc) : string :=
  let allText :=
    String.concat " "
      (map (fun m => Js.toLowerCase (MessageSchema.message m)) messages) in
  if matchesWord ["order"; "delivery"; "shipping"] allText then "order"
  else if matchesWord ["payment"; "billing"; "refund"] allText then "billing"
  else if matchesWord ["problem"; "issue"; "error"; "broken"] allText
  then "support"
  else if matchesWord ["product"; "item"; "feature"] allText then "product"
  else "general".

Definition suggestAction (messages : list MessageSchema.doc)
           (currentMessage : string) : string :=
  if negb (Js.truthy currentMessage) then "acknowledge"
  else
    let lowerMsg := Js.toLowerCase currentMessage in
    if matchesWord ["thank"; "thanks"] lowerMsg then "close"
    else if matchesWord ["problem"; "issue"; "error"] lowerMsg then "investigate"
    else if matchesWord ["order"; "delivery"] lowerMsg then "check_order"
    else if questionAtEnd lowerMsg then "answer_question"
    else "respond".

Record Context := {
  messageCount : nat;
  lastMessageDirection : Direction;
  hasUnresolvedIssue : bool;
  conversationTopic : string;
  suggestedAction : string
}.

Inductive ContextResponse :=
| ContextOk (context : Context)
| ContextError (code : nat) (error : string).

(** [router.post('/analyze-context')] *)
Definition analyzeContext (findFault : option string)
           (contactId : option nat) (currentMessage : string)
           (stored : list MessageSchema.doc) : ContextResponse :=
  match contactId with
  | None => ContextError 400 "Contact ID is required"
  | Some id =>
      match recentOf findFault id 10 stored with
      | inl error => ContextError 500 (Rt.errMessage error)
      | inr messages =>
          ContextOk
            {| messageCount := List.length messages;
               lastMessageDirection :=
                 match messages with
                 | m :: _ => MessageSchema.direction m
                 | [] => outbound
                 end;
               hasUnresolvedIssue :=
                 existsb
                   (fun m =>
                      Direction_eqb (MessageSchema.direction m) inbound
                      && matchesWord ["problem"; "issue"; "error"; "help"; "need"]
                                     (Js.toLowerCase (MessageSchema.message m)))
                   messages;
               conversationTopic := extractTopic messages;
               suggestedAction := suggestAction messages currentMessage |}
      end
  end.

End Ai.

(* ------------------------------------------------------------------------- *)
(** ** Further notions used in the statements *)

Module Notions.

(** A retry timer carries one of the three delays of the policy. *)
Definition policyTimer (t : Session.Timer) : Prop :=
  Session.callback t = Session.RetryInit ->
  Session.delay t = 1000%Z \/ Session.delay t = 2000%Z \/ Session.delay t = 4000%Z.

(** The retry count is within the cap and every pending retry follows the
    policy. *)
Definition withinPolicy (s : Session.State) : Prop :=
  Session.retryCount s <= Session.MAX_RETRIES
  /\ Forall policyTimer (Session.timers s).

(** A list of instants that never increases. *)
Fixpoint descending (l : list Z) : Prop :=
  match l with
  | a :: r =>
      match r with
      | b :: _ => (b <= a)%Z /\ descending r
      | [] => True
      end
  | [] => True
  end.

(** The instant of the message a summary shows. *)
Definition shownAt (s : Conversations.Summary) : option Z :=
  match Conversations.s_lastMessage s with
  | Some lm => Some (Conversations.lm_timestamp lm)
  | None => None
  end.

(** The ids the store has handed out lie below the next one. *)
Definition freshIds (w : Rt.World) : Prop :=
  forall c, In c (Rt.contacts w) -> ContactSchema._id c < Rt.nextId w.



(** The store call by which a send looks its contact up: by id when the
    request has one, else by phone (lines 559 to 563). *)
Definition lookupOp (contactId : option nat) : Rt.DbOp :=
  match contactId with
  | Some _ => Rt.ContactFindById
  | None => Rt.ContactFindOne
  end.

(** The first store call of a send's side record that rejects, with its
    message, in the order of the calls: the lookup; then, for a contact
    that is found, the message and the update; for none, the new contact
    and the message. *)
Definition firstFault (env : Rt.Env) (contactId : option nat)
           (resolved : option ContactSchema.doc) : option string :=
  match Rt.faults env (lookupOp contactId) with
  | Some reason => Some reason
  | None =>
      match resolved with
      | Some _ =>
          match Rt.faults env Rt.MessageCreate with
          | Some reason => Some reason
          | None => Rt.faults env Rt.ContactFindByIdAndUpdate
          end
      | None =>
          match Rt.faults env Rt.ContactCreate with
          | Some reason => Some reason
          | None => Rt.faults env Rt.MessageCreate
          end
      end
  end.

(** The text with which the send route refuses a request before it calls
    the transport, if it does (lines 443 to 489). *)
Definition refusal (req : Send.Request) (env : Rt.Env) : option string :=
  if negb (Session.connected (Rt.session env))
  then Some "WhatsApp not connected. Please check your connection in Settings."
  else if negb (Js.truthy (Send.phone req))
          || negb (Js.truthy (Send.message req))
  then Some "Phone and message are required"
  else
    match Send.validatePhone (Send.phone req) with
    | inl text => Some text
    | inr _ =>
        if (String.length (Js.trim (Send.message req)) =? 0)%nat
        then Some "Message cannot be empty"
        else None
    end.

(** From [w] to [w1] the store has handed out ids upwards only, and it has
    handed one out if it holds more contacts. *)
Definition grows (w w1 : Rt.World) : Prop :=
  Rt.nextId w <= Rt.nextId w1
  /\ (List.length (Rt.contacts w1) = List.length (Rt.contacts w)
      \/ Rt.nextId w < Rt.nextId w1).

(** A computation that makes the store grow in this way only, however it
    ends. *)
Definition tame {A} (c : Rt.M A) : Prop :=
  forall env w, grows w (Rt.worldOf (c env w)).

(** The contacts of a store are well formed: ids unique and handed out
    below the next one, and one contact per phone. *)
Definition wellFormed (w : Rt.World) : Prop :=
  Spec.uniqueIds w
  /\ freshIds w
  /\ NoDup (map ContactSchema.phone (Rt.contacts w)).

(** One run of a handler, with the environment it meets: an inbound event
    or a send. *)
Inductive Job :=
| Arrives (msg : Inbound.Msg) (env : Rt.Env)
| Sends (req : Send.Request) (env : Rt.Env).

(** The store after the handler has run to its end. *)
Definition perform (w : Rt.World) (j : Job) : Rt.World :=
  match j with
  | Arrives msg env => Inbound.handle msg env w
  | Sends req env => snd (Send.handle req env w)
  end.

(** A send of the job names no contact id. *)
Definition byPhone (j : Job) : Prop :=
  match j with
  | Arrives _ _ => True
  | Sends req _ => Send.contactId req = None
  end.

(** The codes a send answers with when the message did not go out. *)
Definition failureCode (n : nat) : Prop :=
  n = 400 \/ n = 429 \/ n = 500 \/ n = 503 \/ n = 504.

End Notions.

(* ------------------------------------------------------------------------- *)
(** ** Further worlds and environments *)

Module Samples.
Import Rt.

(** A second contact, who wrote after Alice was answered. *)
Definition bob : ContactSchema.doc :=
  {| ContactSchema._id := 3;
     ContactSchema.name := "Bob";
     ContactSchema.phone := "15557654321";
     ContactSchema.queryStatus := qs_new;
     ContactSchema.unreadCount := Some 1;
     ContactSchema.lastContacted := Some 3000%Z |}.

Definition question : MessageSchema.doc :=
  {| MessageSchema._id := 4;
     MessageSchema.contactId := Some 3;
     MessageSchema.phone := "15557654321";
     MessageSchema.direction := inbound;
     MessageSchema.message := "Is my order on its way?";
     MessageSchema.timestamp := 3000%Z;
     MessageSchema.status := delivered;
     MessageSchema.sentiment := Sentiment.neutral;
     MessageSchema.sentimentScore := (5 # 10)%Q |}.

(** Two conversations: Alice's, answered at 2000, and Bob's, opened at
    3000. *)
Definition twoChats : World :=
  {| contacts := [Fixtures.alice; bob];
     messages := [Fixtures.complaint; Fixtures.answer; question];
     nextId := 5; ticks := 0; errorLog := [] |}.

(** A first message from a number the store does not have. *)
Definition stranger : Inbound.Msg :=
  {| Inbound.from := "15550001111@c.us";
     Inbound.body := "Hello, do you deliver on Sundays?";
     Inbound.timestamp := 1700000100%Z |}.

(** A send to Alice by her contact id. *)
Definition requestToAlice : Send.Request :=
  {| Send.phone := "15551234567";
     Send.message := "It is on its way";
     Send.contactId := Some 0 |}.

(** A send whose message is one NO-BREAK SPACE (U+00A0). *)
Definition blankRequest : Send.Request :=
  {| Send.phone := "15551234567";
     Send.message := String (ascii_of_nat 194)
                            (String (ascii_of_nat 160) EmptyString);
     Send.contactId := None |}.


(** A store that refuses to update a contact. *)
Definition updateRefusedEnv : Env :=
  {| clock := clock Fixtures.calmEnv;
     faults := fun op =>
                 match op with
                 | ContactFindByIdAndUpdate => Some "update refused"
                 | _ => None
                 end;
     session := Fixtures.readySession;
     sessionAtCatch := Fixtures.readySession;
     sendMessage := sendMessage Fixtures.calmEnv;
     getContactById := getContactById Fixtures.calmEnv |}.

End Samples.

(* ------------------------------------------------------------------------- *)
(** * Properties *)

(** ** Sentiment classifier *)

Lemma analyzeSentimentSimple_eq text :
  Sentiment.analyzeSentimentSimple text = Sentiment.analyzeSentiment text.
Proof. reflexivity. Qed.

(** C5. The classifier lower-cases the text, counts the positive and the
    negative keywords that occur in it as substrings (a keyword counts once,
    however often it occurs), and answers negative 0.7 when the
    negative count is strictly greater, positive 0.7 when the positive count
    is strictly greater, neutral 0.5 otherwise (a tie included); the answer
    depends on the text up to letter case only; the three sample sentences
    classify as positive, negative and neutral. *)
Theorem analyzeSentiment_classifies :
  (forall text,
      let lowerMsg := Js.toLowerCase text in
      let p := Sentiment.hits Sentiment.positiveWords lowerMsg in
      let n := Sentiment.hits Sentiment.negativeWords lowerMsg in
      (p < n -> Sentiment.analyzeSentiment text
                = {| Sentiment.sentiment := Sentiment.negative;
                     Sentiment.score := 7 # 10 |})
      /\ (n < p -> Sentiment.analyzeSentiment text
                   = {| Sentiment.sentiment := Sentiment.positive;
                        Sentiment.score := 7 # 10 |})
      /\ (p = n -> Sentiment.analyzeSentiment text
                   = {| Sentiment.sentiment := Sentiment.neutral;
                        Sentiment.score := 5 # 10 |}))
  /\ (forall t1 t2, Js.toLowerCase t1 = Js.toLowerCase t2 ->
                    Sentiment.analyzeSentiment t1 = Sentiment.analyzeSentiment t2)
  /\ (forall text, Sentiment.analyzeSentimentSimple text
                   = Sentiment.analyzeSentiment text)
  /\ Sentiment.analyzeSentiment "Thank you, excellent service!"
     = {| Sentiment.sentiment := Sentiment.positive; Sentiment.score := 7 # 10 |}
  /\ Sentiment.analyzeSentiment "This is broken, terrible, a complete problem"
     = {| Sentiment.sentiment := Sentiment.negative; Sentiment.score := 7 # 10 |}
  /\ Sentiment.analyzeSentiment "Hello, what time is it"
     = {| Sentiment.sentiment := Sentiment.neutral; Sentiment.score := 5 # 10 |}.
Proof.
  split; [| split; [| split; [| repeat split ]]].
  - intros text lowerMsg p n. unfold Sentiment.analyzeSentiment.
    fold lowerMsg. fold p. fold n.
    repeat split; intro H.
    + apply Nat.ltb_lt in H. now rewrite H.
    + assert (Hpn : (p <? n)%nat = false) by (apply Nat.ltb_ge; lia).
      apply Nat.ltb_lt in H. now rewrite Hpn, H.
    + rewrite H. now rewrite Nat.ltb_irrefl.
  - intros t1 t2 H. unfold Sentiment.analyzeSentiment. now rewrite H.
  - intro text. apply analyzeSentimentSimple_eq.
Qed.

Lemma analyzeSentiment_classifies_witness :
  Sentiment.analyzeSentiment "REFUND my order, thanks for nothing, it is WRONG and BROKEN"
  = {| Sentiment.sentiment := Sentiment.negative; Sentiment.score := 7 # 10 |}.
Proof.
  apply (proj1 (proj1 analyzeSentiment_classifies
                  "REFUND my order, thanks for nothing, it is WRONG and BROKEN")).
  vm_compute. lia.
Defined.

(** ** Phone validation of the send route *)

Lemma stripNonDigits_onlyDigits s : Spec.onlyDigits (Js.stripNonDigits s) = true.
Proof.
  induction s as [| c r IH]; simpl; [reflexivity |].
  destruct (Js.isDigit c) eqn:E; simpl; [now rewrite E |]; exact IH.
Qed.

Lemma stripNonDigits_fixes_digits s :
  Spec.onlyDigits s = true -> Js.stripNonDigits s = s.
Proof.
  induction s as [| c r IH]; simpl; [reflexivity |].
  intro H. apply andb_true_iff in H as [Hc Hr].
  rewrite Hc. now rewrite IH.
Qed.

Lemma truthy_length s : Js.truthy s = negb (String.length s =? 0)%nat.
Proof. now destruct s. Qed.

Lemma validatePhone_cases phone :
  let n := String.length (Js.stripNonDigits phone) in
  (n = 0 /\ Send.validatePhone phone
            = inl "Phone number is required and cannot be empty.")
  \/ (1 <= n < 10 /\
      Send.validatePhone phone
      = inl ("Phone number is too short (" ++ Js.showNat n
             ++ " digits). Please include country code." ++ Js.nl
             ++ "Example: 1234567890 (US) or 911234567890 (India)"))
  \/ (15 < n /\
      Send.validatePhone phone
      = inl ("Phone number is too long (" ++ Js.showNat n
             ++ " digits). Maximum is 15 digits with country code."))
  \/ (10 <= n <= 15 /\ Send.validatePhone phone = inr (Js.stripNonDigits phone)).
Proof.
  intro n. unfold Send.validatePhone. fold n.
  rewrite truthy_length, negb_involutive. fold n. rewrite orb_diag.
  destruct (n =? 0)%nat eqn:E0.
  { apply Nat.eqb_eq in E0. left. now split. }
  apply Nat.eqb_neq in E0.
  destruct (n <? 10)%nat eqn:E1.
  { apply Nat.ltb_lt in E1. right; left. split; [lia | reflexivity]. }
  apply Nat.ltb_ge in E1.
  destruct (15 <? n)%nat eqn:E2.
  { apply Nat.ltb_lt in E2. right; right; left. now split. }
  apply Nat.ltb_ge in E2. right; right; right. split; [lia | reflexivity].
Qed.

Lemma send_refuses_phone req env w refusal :
  Session.connected (Rt.session env) = true ->
  Js.truthy (Send.phone req) = true ->
  Js.truthy (Send.message req) = true ->
  Send.validatePhone (Send.phone req) = inl refusal ->
  Send.handle req env w
  = ({| Send.code := 400; Send.body := Send.ErrorBody refusal |}, w).
Proof.
  intros Hc Hp Hm Hv.
  unfold Send.handle, Send.send, Rt.tryCatch, Rt.bind, Rt.askEnv.
  rewrite Hc, Hp, Hm, Hv. reflexivity.
Qed.

(** C7. The send route strips every non-digit character of the phone before
    it looks at the length, and accepts the result exactly when it has 10 to
    15 digits: nothing left is refused as missing, fewer than 10 digits and
    more than 15 digits are refused with a message that gives the length, and
    the route answers 400 with that message without sending;
    "+1 (234) 567-8901" becomes 12345678901 and is accepted. *)
Theorem validatePhone_accepts_10_to_15 :
  (forall phone,
      let cleaned := Js.stripNonDigits phone in
      let n := String.length cleaned in
      Spec.onlyDigits cleaned = true
      /\ (Spec.onlyDigits phone = true -> cleaned = phone)
      /\ (n = 0 ->
          Send.validatePhone phone
          = inl "Phone number is required and cannot be empty.")
      /\ (1 <= n < 10 ->
          Send.validatePhone phone
          = inl ("Phone number is too short (" ++ Js.showNat n
                 ++ " digits). Please include country code." ++ Js.nl
                 ++ "Example: 1234567890 (US) or 911234567890 (India)"))
      /\ (15 < n ->
          Send.validatePhone phone
          = inl ("Phone number is too long (" ++ Js.showNat n
                 ++ " digits). Maximum is 15 digits with country code."))
      /\ (10 <= n <= 15 -> Send.validatePhone phone = inr cleaned)
      /\ ((exists digits, Send.validatePhone phone = inr digits)
          <-> 10 <= n <= 15))
  /\ (forall req env w refusal,
         Session.connected (Rt.session env) = true ->
         Js.truthy (Send.phone req) = true ->
         Js.truthy (Send.message req) = true ->
         Send.validatePhone (Send.phone req) = inl refusal ->
         Send.handle req env w
         = ({| Send.code := 400; Send.body := Send.ErrorBody refusal |}, w))
  /\ Send.validatePhone "+1 (234) 567-8901" = inr "12345678901"
  /\ fst (Send.handle Fixtures.request Fixtures.calmEnv Fixtures.emptyWorld)
     = {| Send.code := 200;
          Send.body := Send.SuccessBody "true_12345678901@c.us_3EB0"
                                        "Message sent successfully" |}.
Proof.
  split; [| split; [| split; reflexivity ]].
  - intros phone cleaned n.
    pose proof (validatePhone_cases phone) as H. cbv zeta in H.
    fold cleaned in H. fold n in H.
    split; [apply stripNonDigits_onlyDigits |].
    split; [apply stripNonDigits_fixes_digits |].
    split; [| split; [| split; [| split; [| split ]]]].
    + intro Hn. destruct H as [[_ E] | [[B _] | [[B _] | [B _]]]];
        [exact E | lia | lia | lia].
    + intro Hn. destruct H as [[B _] | [[_ E] | [[B _] | [B _]]]];
        [lia | exact E | lia | lia].
    + intro Hn. destruct H as [[B _] | [[B _] | [[_ E] | [B _]]]];
        [lia | lia | exact E | lia].
    + intro Hn. destruct H as [[B _] | [[B _] | [[B _] | [_ E]]]];
        [lia | lia | lia | exact E].
    + intros [d Hd].
      destruct H as [[_ E] | [[_ E] | [[_ E] | [B _]]]];
        try (rewrite E in Hd; discriminate). exact B.
    + intro Hn. exists cleaned.
      destruct H as [[B _] | [[B _] | [[B _] | [_ E]]]];
        [lia | lia | lia | exact E].
  - intros req env w refusal. apply send_refuses_phone.
Qed.

Lemma validatePhone_accepts_10_to_15_witness :
  Send.validatePhone "555-0199"
  = inl ("Phone number is too short (7 digits). Please include country code."
         ++ Js.nl ++ "Example: 1234567890 (US) or 911234567890 (India)").
Proof.
  apply (proj1 (proj2 (proj2 (proj2
           (proj1 validatePhone_accepts_10_to_15 "555-0199"))))).
  vm_compute. lia.
Defined.

(** ** The session: start guard and retry policy *)

Lemma backoffDelay_values :
  Session.backoffDelay 1 = 1000%Z
  /\ Session.backoffDelay 2 = 2000%Z
  /\ Session.backoffDelay 3 = 4000%Z.
Proof. repeat split. Qed.

Lemma retryWithBackoff_below_cap s :
  Session.retryCount s < Session.MAX_RETRIES ->
  Session.retryCount (Session.retryWithBackoff s) = S (Session.retryCount s)
  /\ Session.timers (Session.retryWithBackoff s)
     = (Session.timers s
        ++ [{| Session.delay :=
                 Z.min (1000 * 2 ^ (Z.of_nat (S (Session.retryCount s)) - 1)) 10000;
               Session.callback := Session.RetryInit |}])%list.
Proof.
  intro H. unfold Session.retryWithBackoff.
  destruct (Session.MAX_RETRIES <=? Session.retryCount s)%nat eqn:E.
  - apply Nat.leb_le in E. lia.
  - split; reflexivity.
Qed.

Lemma retryWithBackoff_at_cap s :
  Session.MAX_RETRIES <= Session.retryCount s ->
  Session.timers (Session.retryWithBackoff s) = Session.timers s
  /\ Session.whatsappClient (Session.retryWithBackoff s) = None
  /\ Session.isInitializing (Session.retryWithBackoff s) = false
  /\ Session.retryCount (Session.retryWithBackoff s) = Session.retryCount s.
Proof.
  intro H. unfold Session.retryWithBackoff.
  apply Nat.leb_le in H. rewrite H. repeat split.
Qed.

(** X20. When nothing is scheduled at the start and every scheduled retry
    fires before the next failure, three failed initializations in a row
    schedule retries after 1000ms, 2000ms and 4000ms, each delay being
    min(1000 * 2^(attempt-1), 10000); the fourth failure schedules nothing,
    drops the client and leaves the session not connected with no timer
    pending, so that nothing restarts it; a reconnect request, once its
    settling delay has passed, starts it again with the retry count at 0.
    In any state, a failed initialization below the cap of 3 schedules one
    retry with that delay for the next attempt, and at the cap it schedules
    none. *)
Theorem retry_delays_1000_2000_4000 :
  forall (s : Session.State) (e1 e2 e3 e4 : string),
    Session.retryCount s = 0 ->
    Session.timers s = [] ->
    Session.isReady s = false ->
    let fails msg st := Session.step st (Session.InitializeRejected msg) in
    let fires st := Session.step st (Session.TimerFires 0) in
    let retry attempt :=
      {| Session.delay := Z.min (1000 * 2 ^ (Z.of_nat attempt - 1)) 10000;
         Session.callback := Session.RetryInit |} in
    let s1 := fails e1 s in
    let s2 := fails e2 (fires s1) in
    let s3 := fails e3 (fires s2) in
    let s4 := fails e4 (fires s3) in
    (Session.timers s1 = [retry 1] /\ Session.delay (retry 1) = 1000%Z)
    /\ (Session.timers s2 = [retry 2] /\ Session.delay (retry 2) = 2000%Z)
    /\ (Session.timers s3 = [retry 3] /\ Session.delay (retry 3) = 4000%Z)
    /\ Session.retryCount s3 = Session.MAX_RETRIES
    /\ Session.timers s4 = []
    /\ Session.whatsappClient s4 = None
    /\ Session.isInitializing s4 = false
    /\ Session.connected s4 = false
    /\ (forall i, Session.step s4 (Session.TimerFires i) = s4)
    /\ (forall msg, Session.timers (fails msg s4) = []
                    /\ Session.whatsappClient (fails msg s4) = None)
    /\ (let r := fires (Session.step s4 Session.PostReconnect) in
        Session.isInitializing r = true
        /\ Session.whatsappClient r <> None
        /\ Session.retryCount r = 0
        /\ Session.timers r = [])
    /\ (forall st msg,
           Session.retryCount st < Session.MAX_RETRIES ->
           Session.timers (fails msg st)
           = (Session.timers st ++ [retry (S (Session.retryCount st))])%list)
    /\ (forall st msg,
           Session.MAX_RETRIES <= Session.retryCount st ->
           Session.timers (fails msg st) = Session.timers st).
Proof.
  intros s e1 e2 e3 e4 Hc Ht Hr.
  destruct s as [cl qr rd ini rc tm made]. simpl in Hc, Ht, Hr. subst rc tm rd.
  cbv zeta.
  repeat match goal with |- _ /\ _ => split end;
    try (vm_compute; reflexivity).
  - intro i. destruct i; vm_compute; reflexivity.
  - intro msg. vm_compute. split; reflexivity.
  - vm_compute. discriminate.
  - intros st msg H.
    exact (proj2 (retryWithBackoff_below_cap
                    (Session.set_isInitializing false st) H)).
  - intros st msg H.
    exact (proj1 (retryWithBackoff_at_cap
                    (Session.set_isInitializing false st) H)).
Qed.

Lemma retry_delays_1000_2000_4000_witness :
  Session.timers
    (Session.step Session.loaded (Session.InitializeRejected "EBUSY: resource busy"))
  = [{| Session.delay := 1000; Session.callback := Session.RetryInit |}].
Proof.
  exact (proj1 (proj1 (retry_delays_1000_2000_4000 Session.loaded
                         "EBUSY: resource busy" "Protocol error" "timeout" "x"
                         eq_refl eq_refl eq_refl))).
Defined.

(** C8, at the input where the code departs from it.  Four 'error' events
    with a protocol error arrive in a row, before any retry has fired.  The
    first three schedule retries after 1000, 2000 and 4000 ms.  The fourth
    schedules nothing and drops the client, but the three retries stay
    scheduled: nothing cancels them.  When the first of them fires, with no
    reconnect request, the session is initializing again with a new client,
    and the other two are still waiting. *)
Theorem four_errors_in_a_row_restart_the_session :
  let err := Session.OnError "Protocol error" in
  let retry d := {| Session.delay := d; Session.callback := Session.RetryInit |} in
  let s3 := Session.run Session.loaded [err; err; err] in
  let s4 := Session.step s3 err in
  let s5 := Session.step s4 (Session.TimerFires 0) in
  Session.timers s3 = [retry 1000%Z; retry 2000%Z; retry 4000%Z]
  /\ Session.retryCount s3 = Session.MAX_RETRIES
  /\ Session.timers s4 = Session.timers s3
  /\ Session.whatsappClient s4 = None
  /\ Session.isInitializing s4 = false
  /\ Session.connected s4 = false
  /\ Session.whatsappClient s5 = Some 1
  /\ Session.isInitializing s5 = true
  /\ Session.retryCount s5 = Session.MAX_RETRIES
  /\ Session.timers s5 = [retry 2000%Z; retry 4000%Z].
Proof. vm_compute. repeat split. Qed.



(** ** Store calls *)

Section StoreCalls.
Import Rt.
Variables (env : Env) (w : World).

Lemma dbCall_ok {A} op (c : M A) :
  faults env op = None -> dbCall op c env w = c env w.
Proof. intro H. unfold dbCall, bind, askEnv. now rewrite H. Qed.

Lemma dbCall_fail {A} op (c : M A) msg :
  faults env op = Some msg -> dbCall op c env w = Threw (mkError msg) w.
Proof. intro H. unfold dbCall, bind, askEnv. now rewrite H. Qed.

Lemma findOne_ok phone :
  faults env ContactFindOne = None ->
  Contact.findOne phone env w
  = Returned (find (fun c => String.eqb (ContactSchema.phone c) phone)
                   (contacts w)) w.
Proof. intro H. unfold Contact.findOne. now rewrite dbCall_ok. Qed.

Lemma findById_ok id :
  faults env ContactFindById = None ->
  Contact.findById id env w = Returned (lookupContact id (contacts w)) w.
Proof. intro H. unfold Contact.findById. now rewrite dbCall_ok. Qed.

Lemma Contact_create_ok d :
  faults env ContactCreate = None ->
  Contact.create d env w
  = Returned (ContactSchema.build (nextId w) d)
      {| contacts := contacts w ++ [ContactSchema.build (nextId w) d];
         messages := messages w; nextId := S (nextId w); ticks := ticks w;
         errorLog := errorLog w |}.
Proof. intro H. unfold Contact.create. now rewrite dbCall_ok. Qed.

Lemma Contact_save_ok c :
  faults env ContactSave = None ->
  Contact.save c env w
  = Returned tt (set_contacts (replaceContact c (contacts w)) w).
Proof. intro H. unfold Contact.save. now rewrite dbCall_ok. Qed.

Lemma Message_create_ok d :
  faults env MessageCreate = None ->
  Js.truthy (MessageSchema.d_phone d) = true ->
  Js.truthy (MessageSchema.d_message d) = true ->
  Message.create d env w
  = Returned (MessageSchema.build (nextId w) (clock env (ticks w)) d)
      {| contacts := contacts w;
         messages := messages w
                     ++ [MessageSchema.build (nextId w) (clock env (ticks w)) d];
         nextId := S (nextId w); ticks := ticks w; errorLog := errorLog w |}.
Proof.
  intros H Hp Hm. unfold Message.create. rewrite dbCall_ok by assumption.
  unfold bind, askEnv, getWorld. now rewrite Hp, Hm.
Qed.

(** Creating a message never touches the contacts, and adds at most the
    message it was asked for. *)
Lemma Message_create_effect d :
  contacts (worldOf (Message.create d env w)) = contacts w
  /\ (messages (worldOf (Message.create d env w)) = messages w
      \/ messages (worldOf (Message.create d env w))
         = (messages w
            ++ [MessageSchema.build (nextId w) (clock env (ticks w)) d])%list).
Proof.
  unfold Message.create, dbCall, bind, askEnv, getWorld.
  destruct (faults env MessageCreate); simpl; [now split; [| left] |].
  destruct (Js.truthy (MessageSchema.d_phone d)); simpl;
    [| now split; [| left]].
  destruct (Js.truthy (MessageSchema.d_message d)); simpl;
    [| now split; [| left]].
  split; [reflexivity | now right].
Qed.

End StoreCalls.

Lemma lookup_replaceContact c cs :
  (exists x, In x cs /\ ContactSchema._id x = ContactSchema._id c) ->
  Rt.lookupContact (ContactSchema._id c) (Rt.replaceContact c cs) = Some c.
Proof.
  induction cs as [| y r IH]; intros [x [Hin Hid]]; [destruct Hin |].
  simpl. destruct (ContactSchema._id y =? ContactSchema._id c)%nat eqn:E.
  - unfold Rt.lookupContact. simpl. now rewrite Nat.eqb_refl.
  - unfold Rt.lookupContact. simpl. rewrite E.
    apply IH. destruct Hin as [-> | Hin].
    + rewrite Hid, Nat.eqb_refl in E. discriminate.
    + now exists x.
Qed.

(** ** Inbound ingestion *)

Lemma contactNameFor_returns from env w :
  Inbound.contactNameFor from env w
  = Rt.Returned
      match Rt.getContactById env from with
      | inr (Some ci) =>
          if Js.truthy (Rt.pushname ci) then Rt.pushname ci
          else if Js.truthy (Rt.ci_name ci) then Rt.ci_name ci
          else "Customer"
      | _ => "Customer"
      end w.
Proof.
  unfold Inbound.contactNameFor, Rt.tryCatch, Rt.bind, Rt.askEnv.
  destruct (Rt.getContactById env from) as [e | [ci |]]; try reflexivity.
  destruct (Js.truthy (Rt.pushname ci)); [reflexivity |].
  destruct (Js.truthy (Rt.ci_name ci)); reflexivity.
Qed.

Lemma touch_fields t c :
  ContactSchema._id (Inbound.touch t c) = ContactSchema._id c
  /\ ContactSchema.name (Inbound.touch t c) = ContactSchema.name c
  /\ ContactSchema.phone (Inbound.touch t c) = ContactSchema.phone c
  /\ ContactSchema.unreadCount (Inbound.touch t c)
     = Some (Inbound.orZero (ContactSchema.unreadCount c) + 1)
  /\ ContactSchema.lastContacted (Inbound.touch t c) = Some t
  /\ ContactSchema.queryStatus (Inbound.touch t c)
     = match ContactSchema.queryStatus c with
       | qs_resolved | qs_closed => qs_new
       | unchanged => unchanged
       end.
Proof.
  unfold Inbound.touch. destruct c as [id nm ph qs ur lc]. simpl.
  destruct qs; simpl; repeat split.
Qed.



(** ** Outbound send *)

Lemma digit_is_not_at c : Js.isDigit c = true -> c <> "@"%char.
Proof. intros H E. subst c. discriminate H. Qed.

Lemma onlyDigits_no_at s : Spec.onlyDigits s = true -> Js.includes s "@" = false.
Proof.
  induction s as [| c r IH]; [reflexivity |].
  intro H. change (Js.isDigit c && Spec.onlyDigits r = true) in H.
  apply andb_true_iff in H as [Hc Hr].
  change (Js.includes (String c r) "@")
    with (String.prefix "@" (String c r) || Js.includes r "@").
  rewrite (IH Hr), orb_false_r.
  change (String.prefix "@" (String c r))
    with (if ascii_dec "@" c then String.prefix "" r else false).
  destruct (ascii_dec "@" c) as [E | _]; [| reflexivity].
  exfalso. now apply (digit_is_not_at c Hc).
Qed.

Lemma validatePhone_accepted phone cleaned :
  Send.validatePhone phone = inr cleaned ->
  cleaned = Js.stripNonDigits phone
  /\ 10 <= String.length cleaned <= 15
  /\ Js.truthy cleaned = true
  /\ Js.includes cleaned "@" = false.
Proof.
  intro H.
  destruct (validatePhone_cases phone) as [[_ E] | [[_ E] | [[_ E] | [B E]]]];
    rewrite E in H; try discriminate.
  injection H as <-.
  split; [reflexivity |]. split; [exact B |].
  split.
  - rewrite truthy_length.
    destruct (String.length (Js.stripNonDigits phone)); [lia | reflexivity].
  - apply onlyDigits_no_at, stripNonDigits_onlyDigits.
Qed.

Lemma dispatch_inv req env cleaned serialized :
  Spec.dispatch req env = Some (cleaned, serialized) ->
  Session.connected (Rt.session env) = true
  /\ Js.truthy (Send.phone req) = true
  /\ Js.truthy (Send.message req) = true
  /\ Send.validatePhone (Send.phone req) = inr cleaned
  /\ (String.length (Js.trim (Send.message req)) =? 0)%nat = false
  /\ Rt.sendMessage env (cleaned ++ "@c.us") (Js.trim (Send.message req))
     = inr serialized.
Proof.
  unfold Spec.dispatch. intro H.
  destruct (Session.connected (Rt.session env)); [| discriminate].
  destruct (Js.truthy (Send.phone req)); [| discriminate].
  destruct (Js.truthy (Send.message req)); [| discriminate].
  simpl in H.
  destruct (Send.validatePhone (Send.phone req)) as [| c]; [discriminate |].
  destruct (String.length (Js.trim (Send.message req)) =? 0)%nat;
    [discriminate |].
  destruct (Rt.sendMessage env (c ++ "@c.us") (Js.trim (Send.message req)))
    as [| i] eqn:E; [discriminate |].
  injection H as <- <-. repeat split. exact E.
Qed.

(** A dispatched send answers by what its side record does: success when
    the record is written, and the 500 of the outer handler, after a line on
    the error console, when a store call throws. *)
Lemma send_dispatched req env w cleaned serialized :
  Spec.dispatch req env = Some (cleaned, serialized) ->
  Send.handle req env w
  = match Send.saveToDatabase (Send.contactId req) cleaned (Send.message req)
                              env w with
    | Rt.Returned _ w' =>
        ({| Send.code := 200;
            Send.body := Send.SuccessBody serialized "Message sent successfully" |},
         w')
    | Rt.Threw e w' =>
        ({| Send.code := 500; Send.body := Send.ErrorBody (Send.friendly e) |},
         {| Rt.contacts := Rt.contacts w'; Rt.messages := Rt.messages w';
            Rt.nextId := Rt.nextId w'; Rt.ticks := Rt.ticks w';
            Rt.errorLog := (Rt.errorLog w' ++ [("Error sending message:", e)])%list |})
    end.
Proof.
  intro H. apply dispatch_inv in H as (Hc & Hp & Hm & Hv & Ht & Hs).
  pose proof (validatePhone_accepted _ _ Hv) as (_ & _ & _ & Hat).
  unfold Send.handle, Send.send, Rt.tryCatch, Rt.bind, Rt.askEnv.
  rewrite Hc, Hp, Hm, Hv. cbv beta iota. rewrite Hat, Ht.
  cbn [negb orb]. rewrite Hs.
  destruct (Send.saveToDatabase (Send.contactId req) cleaned (Send.message req)
                                env w); reflexivity.
Qed.

Lemma lookup_unique c cs :
  NoDup (map ContactSchema._id cs) -> In c cs ->
  Rt.lookupContact (ContactSchema._id c) cs = Some c.
Proof.
  unfold Rt.lookupContact.
  induction cs as [| x r IH]; intros Hnd Hin; [destruct Hin |].
  simpl in Hnd. inversion Hnd as [| ? ? Hx Hr]; subst.
  simpl. destruct Hin as [-> | Hin]; [now rewrite Nat.eqb_refl |].
  destruct (ContactSchema._id x =? ContactSchema._id c)%nat eqn:E.
  - apply Nat.eqb_eq in E. exfalso. apply Hx. rewrite E. now apply in_map.
  - now apply IH.
Qed.

Lemma resolve_in cid cleaned w c :
  Spec.resolve cid cleaned w = Some c -> In c (Rt.contacts w).
Proof.
  unfold Spec.resolve, Rt.lookupContact.
  destruct cid; intro H; now apply find_some in H.
Qed.

Section SideRecord.
Import Rt.
Variables (env : Env) (w : World).
Variables (cid : option nat) (cleaned text : string).
Hypothesis Hhealthy : Spec.healthy env.
Hypothesis Hphone : Js.truthy cleaned = true.
Hypothesis Htext : Js.truthy (Js.trim text) = true.

Lemma saveToDatabase_lookup :
  forall k : option ContactSchema.doc -> M unit,
    bind (match cid with
          | Some id => Contact.findById id
          | None => Contact.findOne cleaned
          end) k env w
    = k (Spec.resolve cid cleaned w) env w.
Proof.
  intro k. unfold bind, Spec.resolve. destruct cid.
  - now rewrite findById_ok.
  - now rewrite findOne_ok.
Qed.

(** The side record of a send to a contact the store has. *)
Lemma saveToDatabase_known c :
  Spec.uniqueIds w ->
  Spec.resolve cid cleaned w = Some c ->
  Send.saveToDatabase cid cleaned text env w
  = Returned tt
      {| contacts :=
           replaceContact (Spec.responded (clock env (S (ticks w))) c)
                          (contacts w);
         messages :=
           messages w
           ++ [Spec.outboundMessage (nextId w) (ContactSchema._id c) cleaned
                                    text (clock env (ticks w))];
         nextId := S (nextId w);
         ticks := S (S (ticks w));
         errorLog := errorLog w |}.
Proof.
  intros Hu Hr. unfold Send.saveToDatabase.
  rewrite saveToDatabase_lookup, Hr.
  unfold bind at 1. unfold newDate at 1.
  unfold bind at 1. rewrite Message_create_ok by (auto || apply Hhealthy).
  unfold bind at 1. unfold newDate at 1.
  unfold bind at 1. unfold Contact.findByIdAndUpdate.
  rewrite dbCall_ok by apply Hhealthy.
  unfold bind at 1. unfold getWorld. cbn [contacts].
  rewrite (lookup_unique c (contacts w) Hu (resolve_in _ _ _ _ Hr)).
  unfold bind, putWorld, ret, set_contacts. cbn.
  destruct c as [id nm ph qs ur lc]. destruct qs; reflexivity.
Qed.

(** The side record of a send to a phone the store does not have. *)
Lemma saveToDatabase_unknown :
  Spec.resolve cid cleaned w = None ->
  Send.saveToDatabase cid cleaned text env w
  = Returned tt
      {| contacts :=
           contacts w
           ++ [{| ContactSchema._id := nextId w;
                  ContactSchema.name :=
                    "Customer "
                    ++ Js.substringFrom (String.length cleaned - 4) cleaned;
                  ContactSchema.phone := cleaned;
                  ContactSchema.queryStatus := qs_new;
                  ContactSchema.unreadCount := Some 0;
                  ContactSchema.lastContacted := None |}];
         messages :=
           messages w
           ++ [Spec.outboundMessage (S (nextId w)) (nextId w) cleaned text
                                    (clock env (ticks w))];
         nextId := S (S (nextId w));
         ticks := S (ticks w);
         errorLog := errorLog w |}.
Proof.
  intro Hr. unfold Send.saveToDatabase.
  rewrite saveToDatabase_lookup, Hr.
  unfold bind at 1. unfold newDate at 1.
  unfold bind at 1. rewrite Contact_create_ok by apply Hhealthy.
  unfold bind at 1. rewrite Message_create_ok by (auto || apply Hhealthy).
  reflexivity.
Qed.

End SideRecord.

(** *** What a send does to the message collection, on every path *)

Section SendEffects.
Import Rt.
Variable env : Env.

Lemma lookup_keeps_world cid cleaned w :
  worldOf (match cid with
           | Some id => Contact.findById id
           | None => Contact.findOne cleaned
           end env w) = w.
Proof.
  destruct cid; unfold Contact.findById, Contact.findOne, dbCall, bind, askEnv;
    match goal with |- context [faults env ?op] => destruct (faults env op) end;
    reflexivity.
Qed.

Lemma Contact_create_messages d w :
  messages (worldOf (Contact.create d env w)) = messages w
  /\ forall c w1, Contact.create d env w = Returned c w1 ->
                  ContactSchema._id c = nextId w.
Proof.
  unfold Contact.create, dbCall, bind, askEnv.
  destruct (faults env ContactCreate); simpl; split; try reflexivity;
    intros c w1 H; inversion H; reflexivity.
Qed.

Lemma findByIdAndUpdate_messages id u w :
  messages (worldOf (Contact.findByIdAndUpdate id u env w)) = messages w.
Proof.
  unfold Contact.findByIdAndUpdate, dbCall, bind, askEnv, getWorld.
  destruct (faults env ContactFindByIdAndUpdate); [reflexivity |].
  destruct (lookupContact id (contacts w)); reflexivity.
Qed.

Ltac conclude P Hm :=
  unfold P; simpl;
  (destruct Hm as [Hm | Hm]; [now left | right]);
  eexists _, _, _; rewrite Hm; reflexivity.

Lemma saveToDatabase_messages cid cleaned text w :
  let w' := worldOf (Send.saveToDatabase cid cleaned text env w) in
  messages w' = messages w
  \/ exists id contact now,
       messages w'
       = (messages w ++ [Spec.outboundMessage id contact cleaned text now])%list.
Proof.
  set (P := fun o : Outcome unit =>
              messages (worldOf o) = messages w
              \/ exists id contact now,
                   messages (worldOf o)
                   = (messages w
                      ++ [Spec.outboundMessage id contact cleaned text now])%list).
  change (P (Send.saveToDatabase cid cleaned text env w)).
  unfold Send.saveToDatabase. unfold bind at 1.
  pose proof (lookup_keeps_world cid cleaned w) as Hl.
  destruct (match cid with
            | Some id => Contact.findById id
            | None => Contact.findOne cleaned
            end env w) as [found w0 | e w0]; simpl in Hl; subst w0;
    [| now left].
  unfold bind at 1. unfold newDate at 1.
  destruct found as [c |].
  - unfold bind at 1.
    match goal with
    | |- context [Message.create ?d env ?w1] =>
        pose proof (Message_create_effect env w1 d) as [_ Hm];
        destruct (Message.create d env w1) as [m w2 | e w2]
    end; simpl in Hm.
    + unfold bind at 1. unfold newDate at 1. unfold bind at 1.
      match goal with
      | |- context [Contact.findByIdAndUpdate ?i ?u env ?w3] =>
          pose proof (findByIdAndUpdate_messages i u w3) as Hu;
          destruct (Contact.findByIdAndUpdate i u env w3)
      end; simpl in Hu; rewrite <- Hu in Hm; conclude P Hm.
    + conclude P Hm.
  - unfold bind at 1.
    match goal with
    | |- context [Contact.create ?d env ?w1] =>
        pose proof (Contact_create_messages d w1) as [Hc _];
        destruct (Contact.create d env w1) as [c w2 | e w2]
    end; simpl in Hc; [| now left].
    unfold bind at 1.
    match goal with
    | |- context [Message.create ?d env ?w3] =>
        pose proof (Message_create_effect env w3 d) as [_ Hm];
        destruct (Message.create d env w3) as [m w4 | e w4]
    end; simpl in Hm; rewrite Hc in Hm; conclude P Hm.
Qed.

Lemma classifySendError_keeps_world cleaned e w :
  worldOf (Send.classifySendError cleaned e env w) = w.
Proof.
  unfold Send.classifySendError, Send.reject, bind, askEnv, ret.
  repeat match goal with
         | |- context [if ?b then _ else _] => destruct b
         end; reflexivity.
Qed.

Lemma send_messages req w :
  let w' := snd (Send.handle req env w) in
  messages w' = messages w
  \/ exists id contact now cleaned,
       messages w'
       = (messages w
          ++ [Spec.outboundMessage id contact cleaned (Send.message req) now])%list.
Proof.
  set (P := fun rw : Send.Response * World =>
              messages (snd rw) = messages w
              \/ exists id contact now cleaned,
                   messages (snd rw)
                   = (messages w
                      ++ [Spec.outboundMessage id contact cleaned
                                               (Send.message req) now])%list).
  change (P (Send.handle req env w)).
  unfold Send.handle, Send.send, tryCatch. unfold bind at 1. unfold askEnv.
  destruct (negb (Session.connected (session env))); [now left |].
  destruct (negb (Js.truthy (Send.phone req))
            || negb (Js.truthy (Send.message req))); [now left |].
  destruct (Send.validatePhone (Send.phone req)) as [refusal | cleaned];
    [now left |].
  destruct (String.length (Js.trim (Send.message req)) =? 0)%nat; [now left |].
  match goal with
  | |- context [sendMessage env ?a ?b] =>
      destruct (sendMessage env a b) as [sendError | serialized]
  end.
  - unfold bind at 1. unfold consoleError at 1.
    match goal with
    | |- context [Send.classifySendError ?c ?e env ?w1] =>
        pose proof (classifySendError_keeps_world c e w1) as Hk;
        destruct (Send.classifySendError c e env w1)
    end; simpl in Hk; subst; now left.
  - unfold bind at 1.
    pose proof (saveToDatabase_messages (Send.contactId req) cleaned
                                        (Send.message req) w) as Hs.
    destruct (Send.saveToDatabase (Send.contactId req) cleaned
                                  (Send.message req) env w);
      simpl in Hs; unfold P; simpl;
      (destruct Hs as [Hs | (id & contact & now & Hs)];
       [now left | right; now exists id, contact, now, cleaned]).
Qed.

End SendEffects.

Section InboundEffects.
Import Rt.
Variable env : Env.

Lemma Contact_save_messages c w :
  messages (worldOf (Contact.save c env w)) = messages w.
Proof.
  unfold Contact.save, dbCall, bind, askEnv, getWorld.
  destruct (faults env ContactSave); reflexivity.
Qed.

Lemma findOne_keeps_world phone w :
  worldOf (Contact.findOne phone env w) = w.
Proof. exact (lookup_keeps_world env None phone w). Qed.

Lemma inbound_messages msg w :
  let w' := Inbound.handle msg env w in
  messages w' = messages w
  \/ exists id contact,
       messages w'
       = (messages w
          ++ [{| MessageSchema._id := id;
                 MessageSchema.contactId := Some contact;
                 MessageSchema.phone := Js.removeFirst "@c.us" (Inbound.from msg);
                 MessageSchema.direction := inbound;
                 MessageSchema.message := Inbound.body msg;
                 MessageSchema.timestamp := (Inbound.timestamp msg * 1000)%Z;
                 MessageSchema.status := delivered;
                 MessageSchema.sentiment :=
                   Sentiment.sentiment
                     (Sentiment.analyzeSentiment (Inbound.body msg));
                 MessageSchema.sentimentScore :=
                   Sentiment.score
                     (Sentiment.analyzeSentiment (Inbound.body msg)) |}])%list.
Proof.
  set (P := fun w' : World =>
              messages w' = messages w
              \/ exists id contact,
                   messages w'
                   = (messages w
                      ++ [{| MessageSchema._id := id;
                             MessageSchema.contactId := Some contact;
                             MessageSchema.phone :=
                               Js.removeFirst "@c.us" (Inbound.from msg);
                             MessageSchema.direction := inbound;
                             MessageSchema.message := Inbound.body msg;
                             MessageSchema.timestamp :=
                               (Inbound.timestamp msg * 1000)%Z;
                             MessageSchema.status := delivered;
                             MessageSchema.sentiment :=
                               Sentiment.sentiment
                                 (Sentiment.analyzeSentiment (Inbound.body msg));
                             MessageSchema.sentimentScore :=
                               Sentiment.score
                                 (Sentiment.analyzeSentiment (Inbound.body msg))
                          |}])%list).
  change (P (Inbound.handle msg env w)).
  unfold Inbound.handle, Inbound.onMessage, tryCatch. unfold bind at 1.
  pose proof (findOne_keeps_world
                (Js.removeFirst "@c.us" (Inbound.from msg)) w) as Hf.
  destruct (Contact.findOne (Js.removeFirst "@c.us" (Inbound.from msg)) env w)
    as [found w0 | e w0]; simpl in Hf; subst w0; [| now left].
  assert (Hstep :
            forall (step : M ContactSchema.doc),
              messages (worldOf (step env w)) = messages w ->
              P match
                  match
                    bind step
                      (fun contact =>
                         bind
                           (Message.create
                              {| MessageSchema.d_contactId :=
                                   Some (ContactSchema._id contact);
                                 MessageSchema.d_phone :=
                                   Js.removeFirst "@c.us" (Inbound.from msg);
                                 MessageSchema.d_direction := inbound;
                                 MessageSchema.d_message := Inbound.body msg;
                                 MessageSchema.d_timestamp :=
                                   Some (Inbound.timestamp msg * 1000)%Z;
                                 MessageSchema.d_status := Some delivered;
                                 MessageSchema.d_sentiment :=
                                   Some (Sentiment.sentiment
                                           (Sentiment.analyzeSentiment
                                              (Inbound.body msg)));
                                 MessageSchema.d_sentimentScore :=
                                   Some (Sentiment.score
                                           (Sentiment.analyzeSentiment
                                              (Inbound.body msg))) |})
                           (fun _ => ret tt)) env w
                  with
                  | Returned a w' => Returned a w'
                  | Threw e w' =>
                      consoleError "Error saving incoming message:" e env w'
                  end
                with
                | Returned _ w' => w'
                | Threw _ w' => w'
                end).
  { intros step Hs. unfold bind at 1.
    destruct (step env w) as [c w1 | e w1]; simpl in Hs; [| now left].
    unfold bind at 1.
    match goal with
    | |- context [Message.create ?d env w1] =>
        pose proof (Message_create_effect env w1 d) as [_ Hm];
        destruct (Message.create d env w1) as [m w2 | e w2]
    end; simpl in Hm; rewrite Hs in Hm; unfold P; simpl;
      (destruct Hm as [Hm | Hm]; [now left | right]);
      eexists _, _; rewrite Hm; reflexivity. }
  destruct found as [c |].
  - apply Hstep. unfold bind.
    pose proof (Contact_save_messages
                  (Inbound.touch (Inbound.timestamp msg * 1000) c) w) as Hs.
    destruct (Contact.save (Inbound.touch (Inbound.timestamp msg * 1000) c) env w);
      exact Hs.
  - apply Hstep. unfold bind. rewrite contactNameFor_returns.
    apply Contact_create_messages.
Qed.

End InboundEffects.

Lemma outboundNeutral_app ms m :
  Spec.outboundNeutral ms ->
  (MessageSchema.direction m = outbound ->
   MessageSchema.sentiment m = Sentiment.neutral
   /\ MessageSchema.sentimentScore m = (5 # 10)%Q) ->
  Spec.outboundNeutral (ms ++ [m]).
Proof.
  intros H Hm x Hin. apply in_app_or in Hin as [Hin | [<- | []]].
  - now apply H.
  - exact Hm.
Qed.

(** C10. A send adds to the store at most one message, and that message is
    outbound, with deliveryStatus sent and the sentiment fields at the
    defaults of the schema, neutral and 0.5: the send route never runs the
    classifier.  An inbound event adds at most one message, inbound, with
    the classifier's label and score.  So when every outbound message of the
    store has the default sentiment, this is still so after either
    pipeline has run. *)
Theorem outbound_messages_keep_default_sentiment :
  (MessageSchema.default_status = sent
   /\ MessageSchema.default_sentiment = Sentiment.neutral
   /\ MessageSchema.default_sentimentScore = (5 # 10)%Q)
  /\ (forall req env w,
         let w' := snd (Send.handle req env w) in
         Rt.messages w' = Rt.messages w
         \/ exists m,
              Rt.messages w' = (Rt.messages w ++ [m])%list
              /\ MessageSchema.direction m = outbound
              /\ MessageSchema.status m = sent
              /\ MessageSchema.sentiment m = Sentiment.neutral
              /\ MessageSchema.sentimentScore m = (5 # 10)%Q)
  /\ (forall msg env w,
         let w' := Inbound.handle msg env w in
         Rt.messages w' = Rt.messages w
         \/ exists m,
              Rt.messages w' = (Rt.messages w ++ [m])%list
              /\ MessageSchema.direction m = inbound
              /\ MessageSchema.sentiment m
                 = Sentiment.sentiment
                     (Sentiment.analyzeSentiment (Inbound.body msg))
              /\ MessageSchema.sentimentScore m
                 = Sentiment.score
                     (Sentiment.analyzeSentiment (Inbound.body msg)))
  /\ (forall req env w,
         Spec.outboundNeutral (Rt.messages w) ->
         Spec.outboundNeutral (Rt.messages (snd (Send.handle req env w))))
  /\ (forall msg env w,
         Spec.outboundNeutral (Rt.messages w) ->
         Spec.outboundNeutral (Rt.messages (Inbound.handle msg env w))).
Proof.
  split; [repeat split |].
  split; [| split; [| split]].
  - intros req env w w'.
    destruct (send_messages env req w) as [H | (id & contact & now & cleaned & H)];
      [now left | right].
    eexists. split; [exact H |]. repeat split.
  - intros msg env w w'.
    destruct (inbound_messages env msg w) as [H | (id & contact & H)];
      [now left | right].
    eexists. split; [exact H |]. repeat split.
  - intros req env w Hinv.
    destruct (send_messages env req w) as [H | (id & contact & now & cleaned & H)];
      rewrite H; [exact Hinv |].
    apply outboundNeutral_app; [exact Hinv |]. intros _. split; reflexivity.
  - intros msg env w Hinv.
    destruct (inbound_messages env msg w) as [H | (id & contact & H)];
      rewrite H; [exact Hinv |].
    apply outboundNeutral_app; [exact Hinv |]. discriminate.
Qed.

Lemma answeredWorld_outboundNeutral :
  Spec.outboundNeutral (Rt.messages Fixtures.answeredWorld).
Proof.
  intros m [<- | [<- | []]]; [discriminate |]. intros _. split; reflexivity.
Qed.

Lemma outbound_messages_keep_default_sentiment_witness :
  Spec.outboundNeutral
    (Rt.messages
       (snd (Send.handle Fixtures.request Fixtures.calmEnv Fixtures.answeredWorld))).
Proof.
  apply (proj1 (proj2 (proj2 (proj2 outbound_messages_keep_default_sentiment)))).
  exact answeredWorld_outboundNeutral.
Defined.

(** *** The side record of a send, store call by store call *)

Section SideRecordFaults.
Import Rt.
Variables (env : Env) (w : World).
Variables (cid : option nat) (cleaned text : string).
Hypothesis Hphone : Js.truthy cleaned = true.
Hypothesis Htext : Js.truthy (Js.trim text) = true.

Lemma saveToDatabase_lookup_ok :
  faults env (Notions.lookupOp cid) = None ->
  forall k : option ContactSchema.doc -> M unit,
    bind (match cid with
          | Some id => Contact.findById id
          | None => Contact.findOne cleaned
          end) k env w
    = k (Spec.resolve cid cleaned w) env w.
Proof.
  intros H k. unfold bind, Spec.resolve.
  destruct cid; cbn [Notions.lookupOp] in H.
  - now rewrite findById_ok.
  - now rewrite findOne_ok.
Qed.

(** A lookup that rejects ends the record before anything is written. *)
Lemma saveToDatabase_lookup_fault reason :
  faults env (Notions.lookupOp cid) = Some reason ->
  Send.saveToDatabase cid cleaned text env w = Threw (mkError reason) w.
Proof.
  intro H. unfold Send.saveToDatabase. unfold bind at 1.
  destruct cid; cbn [Notions.lookupOp] in H.
  - unfold Contact.findById. now rewrite (dbCall_fail _ _ _ _ reason H).
  - unfold Contact.findOne. now rewrite (dbCall_fail _ _ _ _ reason H).
Qed.

(** For a contact that is found: a message that cannot be created ends
    the record with nothing written, an update that rejects ends it with
    the message written. *)
Lemma saveToDatabase_found_fault c :
  faults env (Notions.lookupOp cid) = None ->
  Spec.resolve cid cleaned w = Some c ->
  (forall reason,
      faults env MessageCreate = Some reason ->
      exists w1,
        Send.saveToDatabase cid cleaned text env w = Threw (mkError reason) w1
        /\ contacts w1 = contacts w /\ messages w1 = messages w
        /\ errorLog w1 = errorLog w)
  /\ (forall reason,
         faults env MessageCreate = None ->
         faults env ContactFindByIdAndUpdate = Some reason ->
         exists w1,
           Send.saveToDatabase cid cleaned text env w
           = Threw (mkError reason) w1
           /\ contacts w1 = contacts w
           /\ messages w1
              = (messages w
                 ++ [Spec.outboundMessage (nextId w) (ContactSchema._id c)
                                          cleaned text (clock env (ticks w))])%list
           /\ errorLog w1 = errorLog w).
Proof.
  intros Hl Hr. split.
  - intros reason Hm. unfold Send.saveToDatabase.
    rewrite (saveToDatabase_lookup_ok Hl), Hr.
    unfold bind at 1. unfold newDate at 1.
    unfold bind at 1. unfold Message.create.
    rewrite (dbCall_fail _ _ _ _ reason Hm).
    eexists. split; [reflexivity |]. now repeat split.
  - intros reason Hm Hu. unfold Send.saveToDatabase.
    rewrite (saveToDatabase_lookup_ok Hl), Hr.
    unfold bind at 1. unfold newDate at 1.
    unfold bind at 1. rewrite Message_create_ok by auto.
    unfold bind at 1. unfold newDate at 1.
    unfold bind at 1. unfold Contact.findByIdAndUpdate.
    rewrite (dbCall_fail _ _ _ _ reason Hu).
    eexists. split; [reflexivity |]. now repeat split.
Qed.

(** For a phone the store does not have: a contact that cannot be created
    ends the record with nothing written, a message that cannot be created
    ends it with the new contact written. *)
Lemma saveToDatabase_new_fault :
  faults env (Notions.lookupOp cid) = None ->
  Spec.resolve cid cleaned w = None ->
  (forall reason,
      faults env ContactCreate = Some reason ->
      exists w1,
        Send.saveToDatabase cid cleaned text env w = Threw (mkError reason) w1
        /\ contacts w1 = contacts w /\ messages w1 = messages w
        /\ errorLog w1 = errorLog w)
  /\ (forall reason,
         faults env ContactCreate = None ->
         faults env MessageCreate = Some reason ->
         exists w1,
           Send.saveToDatabase cid cleaned text env w
           = Threw (mkError reason) w1
           /\ contacts w1
              = (contacts w
                 ++ [{| ContactSchema._id := nextId w;
                        ContactSchema.name :=
                          "Customer "
                          ++ Js.substringFrom (String.length cleaned - 4)
                                              cleaned;
                        ContactSchema.phone := cleaned;
                        ContactSchema.queryStatus := qs_new;
                        ContactSchema.unreadCount := Some 0;
                        ContactSchema.lastContacted := None |}])%list
           /\ messages w1 = messages w
           /\ errorLog w1 = errorLog w).
Proof.
  intros Hl Hr. split.
  - intros reason Hc. unfold Send.saveToDatabase.
    rewrite (saveToDatabase_lookup_ok Hl), Hr.
    unfold bind at 1. unfold newDate at 1.
    unfold bind at 1. unfold Contact.create.
    rewrite (dbCall_fail _ _ _ _ reason Hc).
    eexists. split; [reflexivity |]. now repeat split.
  - intros reason Hc Hm. unfold Send.saveToDatabase.
    rewrite (saveToDatabase_lookup_ok Hl), Hr.
    unfold bind at 1. unfold newDate at 1.
    unfold bind at 1. rewrite Contact_create_ok by exact Hc.
    unfold bind at 1. unfold Message.create.
    rewrite (dbCall_fail _ _ _ _ reason Hm).
    eexists. split; [reflexivity |]. now repeat split.
Qed.

(** The record is written when none of the store calls on its way
    rejects. *)
Lemma saveToDatabase_sound :
  Notions.firstFault env cid (Spec.resolve cid cleaned w) = None ->
  exists w1,
    Send.saveToDatabase cid cleaned text env w = Returned tt w1
    /\ errorLog w1 = errorLog w.
Proof.
  unfold Notions.firstFault.
  destruct (faults env (Notions.lookupOp cid)) eqn:Hl; [discriminate |].
  destruct (Spec.resolve cid cleaned w) as [c |] eqn:Hr.
  - destruct (faults env MessageCreate) eqn:Hm; [discriminate |]. intro Hu.
    unfold Send.saveToDatabase.
    rewrite (saveToDatabase_lookup_ok Hl), Hr.
    unfold bind at 1. unfold newDate at 1.
    unfold bind at 1. rewrite Message_create_ok by auto.
    unfold bind at 1. unfold newDate at 1.
    unfold bind at 1. unfold Contact.findByIdAndUpdate.
    rewrite dbCall_ok by exact Hu.
    unfold bind, getWorld, putWorld, ret. cbn [contacts].
    match goal with
    | |- context [lookupContact ?i ?cs] => destruct (lookupContact i cs)
    end; eexists; split; reflexivity.
  - destruct (faults env ContactCreate) eqn:Hc; [discriminate |]. intro Hm.
    unfold Send.saveToDatabase.
    rewrite (saveToDatabase_lookup_ok Hl), Hr.
    unfold bind at 1. unfold newDate at 1.
    unfold bind at 1. rewrite Contact_create_ok by exact Hc.
    unfold bind at 1. rewrite Message_create_ok by auto.
    eexists; split; reflexivity.
Qed.

(** The record stops at the first store call that rejects, with the error
    of that call. *)
Lemma saveToDatabase_first_fault reason :
  Notions.firstFault env cid (Spec.resolve cid cleaned w) = Some reason ->
  exists w1,
    Send.saveToDatabase cid cleaned text env w = Threw (mkError reason) w1
    /\ errorLog w1 = errorLog w.
Proof.
  unfold Notions.firstFault.
  destruct (faults env (Notions.lookupOp cid)) as [r0 |] eqn:Hl.
  - intro H. injection H as <-. exists w.
    split; [now apply saveToDatabase_lookup_fault | reflexivity].
  - destruct (Spec.resolve cid cleaned w) as [c |] eqn:Hr.
    + destruct (saveToDatabase_found_fault c Hl Hr) as [Hm Hu].
      destruct (faults env MessageCreate) as [r1 |] eqn:Em.
      * intro H. injection H as <-.
        destruct (Hm r1 eq_refl) as (w1 & E & _ & _ & L). now exists w1.
      * intro H. destruct (Hu reason eq_refl H) as (w1 & E & _ & _ & L).
        now exists w1.
    + destruct (saveToDatabase_new_fault Hl Hr) as [Hc Hm].
      destruct (faults env ContactCreate) as [r1 |] eqn:Ec.
      * intro H. injection H as <-.
        destruct (Hc r1 eq_refl) as (w1 & E & _ & _ & L). now exists w1.
      * intro H. destruct (Hm reason eq_refl H) as (w1 & E & _ & _ & L).
        now exists w1.
Qed.

End SideRecordFaults.

(** C2, as the code has it.  When a send has been dispatched, the response
    reports success, with the id of the message, exactly when the store
    calls that follow all succeed: the lookup of the contact, then for a
    contact that is found the creation of the message and the update of the
    contact, and for none the creation of the contact and of the message.
    When one of them rejects, the error goes to the console and the
    response is a 500 that carries the error's message (or the fixed text
    chosen for it), and what was written before the failure stays: the
    message when the update rejects, the new contact when its message
    cannot be created, nothing otherwise. *)
Theorem dispatched_send_succeeds_when_store_succeeds :
  forall (req : Send.Request) (env : Rt.Env) (w : Rt.World)
         (cleaned serialized : string),
    Spec.dispatch req env = Some (cleaned, serialized) ->
    let resolved := Spec.resolve (Send.contactId req) cleaned w in
    let lookup := Notions.lookupOp (Send.contactId req) in
    let r := fst (Send.handle req env w) in
    let w' := snd (Send.handle req env w) in
    (Spec.healthy env ->
     fst (Send.handle req env w)
     = {| Send.code := 200;
          Send.body := Send.SuccessBody serialized "Message sent successfully" |})
    /\ (forall e w1,
           Send.saveToDatabase (Send.contactId req) cleaned (Send.message req)
                               env w
           = Rt.Threw e w1 ->
           fst (Send.handle req env w)
           = {| Send.code := 500; Send.body := Send.ErrorBody (Send.friendly e) |}
           /\ Rt.errorLog (snd (Send.handle req env w))
              = (Rt.errorLog w1 ++ [("Error sending message:", e)])%list
           /\ Rt.contacts (snd (Send.handle req env w)) = Rt.contacts w1
           /\ Rt.messages (snd (Send.handle req env w)) = Rt.messages w1)
    /\ (forall msg,
           Rt.faults env Rt.MessageCreate = Some msg ->
           Send.code (fst (Send.handle req env w)) = 500
           /\ Rt.messages (snd (Send.handle req env w)) = Rt.messages w)
    /\ (Notions.firstFault env (Send.contactId req) resolved = None ->
        r = {| Send.code := 200;
               Send.body := Send.SuccessBody serialized
                                             "Message sent successfully" |}
        /\ Rt.errorLog w' = Rt.errorLog w)
    /\ (forall reason,
           Notions.firstFault env (Send.contactId req) resolved = Some reason ->
           r = {| Send.code := 500;
                  Send.body := Send.ErrorBody
                                 (Send.friendly (Rt.mkError reason)) |}
           /\ Rt.errorLog w'
              = (Rt.errorLog w
                 ++ [("Error sending message:", Rt.mkError reason)])%list)
    /\ (forall reason,
           Js.truthy reason = true ->
           Js.includes reason "not connected" = false ->
           Js.includes reason "timeout" = false ->
           Send.friendly (Rt.mkError reason) = reason)
    /\ (forall reason,
           Rt.faults env lookup = Some reason ->
           Rt.contacts w' = Rt.contacts w /\ Rt.messages w' = Rt.messages w)
    /\ (forall c,
           Rt.faults env lookup = None ->
           resolved = Some c ->
           (forall reason,
               Rt.faults env Rt.MessageCreate = Some reason ->
               Rt.contacts w' = Rt.contacts w
               /\ Rt.messages w' = Rt.messages w)
           /\ (forall reason,
                  Rt.faults env Rt.MessageCreate = None ->
                  Rt.faults env Rt.ContactFindByIdAndUpdate = Some reason ->
                  Rt.contacts w' = Rt.contacts w
                  /\ Rt.messages w'
                     = (Rt.messages w
                        ++ [Spec.outboundMessage
                              (Rt.nextId w) (ContactSchema._id c) cleaned
                              (Send.message req)
                              (Rt.clock env (Rt.ticks w))])%list))
    /\ (Rt.faults env lookup = None ->
        resolved = None ->
        (forall reason,
            Rt.faults env Rt.ContactCreate = Some reason ->
            Rt.contacts w' = Rt.contacts w /\ Rt.messages w' = Rt.messages w)
        /\ (forall reason,
               Rt.faults env Rt.ContactCreate = None ->
               Rt.faults env Rt.MessageCreate = Some reason ->
               Rt.contacts w'
               = (Rt.contacts w
                  ++ [{| ContactSchema._id := Rt.nextId w;
                         ContactSchema.name :=
                           "Customer "
                           ++ Js.substringFrom (String.length cleaned - 4)
                                               cleaned;
                         ContactSchema.phone := cleaned;
                         ContactSchema.queryStatus := qs_new;
                         ContactSchema.unreadCount := Some 0;
                         ContactSchema.lastContacted := None |}])%list
               /\ Rt.messages w' = Rt.messages w)).
Proof.
  intros req env w cleaned serialized Hd resolved lookup r w'.
  pose proof (send_dispatched req env w cleaned serialized Hd) as Hh.
  pose proof (dispatch_inv _ _ _ _ Hd) as (_ & _ & _ & Hv & Ht & _).
  pose proof (validatePhone_accepted _ _ Hv) as (_ & _ & Hp & _).
  assert (Htext : Js.truthy (Js.trim (Send.message req)) = true).
  { rewrite truthy_length, Ht. reflexivity. }
  assert (Hsound :
            Notions.firstFault env (Send.contactId req) resolved = None ->
            r = {| Send.code := 200;
                   Send.body := Send.SuccessBody serialized
                                                 "Message sent successfully" |}
            /\ Rt.errorLog w' = Rt.errorLog w).
  { intro Hn. subst r w'.
    destruct (saveToDatabase_sound env w _ _ _ Hp Htext Hn) as (w1 & E & L).
    rewrite Hh, E. split; [reflexivity | exact L]. }
  assert (Hthrown :
            forall e w1,
              Send.saveToDatabase (Send.contactId req) cleaned
                                  (Send.message req) env w
              = Rt.Threw e w1 ->
              r = {| Send.code := 500;
                     Send.body := Send.ErrorBody (Send.friendly e) |}
              /\ Rt.errorLog w'
                 = (Rt.errorLog w1 ++ [("Error sending message:", e)])%list
              /\ Rt.contacts w' = Rt.contacts w1
              /\ Rt.messages w' = Rt.messages w1).
  { intros e w1 He. subst r w'. rewrite Hh, He. repeat split. }
  split; [| split; [| split; [| split; [| split; [| split; [| split;
    [| split]]]]]]].
  - intro Hhealthy. apply Hsound.
    unfold Notions.firstFault. rewrite !Hhealthy.
    now destruct (resolved).
  - exact Hthrown.
  - intros msg Hf.
    destruct (Rt.faults env lookup) as [r0 |] eqn:Hl.
    { pose proof (saveToDatabase_lookup_fault env w _ cleaned
                    (Send.message req) r0 Hl) as E.
      destruct (Hthrown _ _ E) as (R & _ & _ & M).
      fold r. rewrite R. fold w'. now rewrite M. }
    destruct (Spec.resolve (Send.contactId req) cleaned w) as [c |] eqn:Hr.
    + destruct (proj1 (saveToDatabase_found_fault env w _ _ _ Hp Htext c Hl Hr)
                      msg Hf) as (w1 & E & _ & M & _).
      destruct (Hthrown _ _ E) as (R & _ & _ & M').
      fold r. rewrite R. fold w'. rewrite M'. now split.
    + destruct (saveToDatabase_new_fault env w _ _ (Send.message req) Hl Hr)
        as [Hc Hm].
      destruct (Rt.faults env Rt.ContactCreate) as [r1 |] eqn:Ec.
      * destruct (Hc r1 eq_refl) as (w1 & E & _ & M & _).
        destruct (Hthrown _ _ E) as (R & _ & _ & M').
        fold r. rewrite R. fold w'. rewrite M'. now split.
      * destruct (Hm msg eq_refl Hf) as (w1 & E & _ & M & _).
        destruct (Hthrown _ _ E) as (R & _ & _ & M').
        fold r. rewrite R. fold w'. rewrite M'. now split.
  - exact Hsound.
  - intros reason Hf.
    destruct (saveToDatabase_first_fault env w _ _ _ Hp Htext reason Hf)
      as (w1 & E & L).
    destruct (Hthrown _ _ E) as (R & L' & _). rewrite <- L. now split.
  - intros reason H1 H2 H3. unfold Send.friendly.
    cbn [Rt.errMessage Rt.mkError]. now rewrite H1, H2, H3.
  - intros reason Hl.
    pose proof (saveToDatabase_lookup_fault env w _ cleaned
                  (Send.message req) reason Hl) as E.
    destruct (Hthrown _ _ E) as (_ & _ & C & M). now split.
  - intros c Hl Hr.
    destruct (saveToDatabase_found_fault env w _ _ _ Hp Htext c Hl Hr)
      as [Hm Hu].
    split.
    + intros reason Hf. destruct (Hm reason Hf) as (w1 & E & C & M & _).
      destruct (Hthrown _ _ E) as (_ & _ & C' & M').
      rewrite C', M'. now split.
    + intros reason Hf Hf'. destruct (Hu reason Hf Hf') as (w1 & E & C & M & _).
      destruct (Hthrown _ _ E) as (_ & _ & C' & M').
      rewrite C', M'. now split.
  - intros Hl Hr.
    destruct (saveToDatabase_new_fault env w _ _ (Send.message req) Hl Hr)
      as [Hc Hm].
    split.
    + intros reason Hf. destruct (Hc reason Hf) as (w1 & E & C & M & _).
      destruct (Hthrown _ _ E) as (_ & _ & C' & M').
      rewrite C', M'. now split.
    + intros reason Hf Hf'. destruct (Hm reason Hf Hf') as (w1 & E & C & M & _).
      destruct (Hthrown _ _ E) as (_ & _ & C' & M').
      rewrite C', M'. now split.
Qed.

Lemma calmEnv_healthy : Spec.healthy Fixtures.calmEnv.
Proof. intro op. reflexivity. Qed.

Lemma dispatched_send_succeeds_when_store_succeeds_witness :
  fst (Send.handle Fixtures.request Fixtures.calmEnv Fixtures.answeredWorld)
  = {| Send.code := 200;
       Send.body := Send.SuccessBody "true_12345678901@c.us_3EB0"
                                     "Message sent successfully" |}
  /\ fst (Send.handle Samples.requestToAlice Samples.updateRefusedEnv
                      Fixtures.answeredWorld)
     = {| Send.code := 500; Send.body := Send.ErrorBody "update refused" |}
  /\ Rt.messages (snd (Send.handle Samples.requestToAlice
                                   Samples.updateRefusedEnv
                                   Fixtures.answeredWorld))
     = [Fixtures.complaint; Fixtures.answer;
        Spec.outboundMessage 3 0 "15551234567" "It is on its way" 5000%Z].
Proof.
  split.
  - exact (proj1 (dispatched_send_succeeds_when_store_succeeds
                    Fixtures.request Fixtures.calmEnv Fixtures.answeredWorld
                    "12345678901" "true_12345678901@c.us_3EB0" eq_refl)
                 (fun op => eq_refl)).
  - destruct (dispatched_send_succeeds_when_store_succeeds
                Samples.requestToAlice Samples.updateRefusedEnv
                Fixtures.answeredWorld
                "15551234567" "true_12345678901@c.us_3EB0" eq_refl)
      as (_ & _ & _ & _ & H5 & _ & _ & H8 & _).
    split.
    + exact (proj1 (H5 "update refused" eq_refl)).
    + exact (proj2 (proj2 (H8 Fixtures.alice eq_refl eq_refl)
                          "update refused" eq_refl eq_refl)).
Defined.

(** C2, as it is stated, fails: the transport has taken the message, the
    store refuses to create the side record, and the response is a 500
    error, not a success. *)
Lemma dispatched_send_fails_with_store :
  Spec.dispatch Fixtures.request Fixtures.brokenStoreEnv
  = Some ("12345678901", "true_12345678901@c.us_3EB0")
  /\ fst (Send.handle Fixtures.request Fixtures.brokenStoreEnv Fixtures.emptyWorld)
     = {| Send.code := 500; Send.body := Send.ErrorBody "connection closed" |}
  /\ fst (Send.handle Fixtures.request Fixtures.brokenStoreEnv Fixtures.emptyWorld)
     <> {| Send.code := 200;
           Send.body := Send.SuccessBody "true_12345678901@c.us_3EB0"
                                         "Message sent successfully" |}.
Proof.
  split; [reflexivity |]. split; [reflexivity |]. discriminate.
Qed.

(** C3, as the code has it.  After a dispatched send, with a store that
    answers: if the request resolves a contact (by contactId when it has
    one, else by phone), an outbound message with deliveryStatus sent is
    recorded for that contact, and the contact gets lastContacted set to the
    clock reading taken for the update and its queryStatus moved from new to
    in-progress (any other status stays).  If it resolves none, a contact
    named 'Customer ' followed by the last four digits is created with
    queryStatus new and unreadCount 0, the message is recorded for it, and
    the new contact is not updated: its queryStatus stays new. *)
Theorem send_records_message_and_updates_known_contact :
  forall (req : Send.Request) (env : Rt.Env) (w : Rt.World)
         (cleaned serialized : string),
    Spec.dispatch req env = Some (cleaned, serialized) ->
    Spec.healthy env ->
    Spec.uniqueIds w ->
    let w' := snd (Send.handle req env w) in
    let sentAt := Rt.clock env (Rt.ticks w) in
    let updatedAt := Rt.clock env (S (Rt.ticks w)) in
    (forall c,
        Spec.resolve (Send.contactId req) cleaned w = Some c ->
        exists c',
          Rt.messages w'
          = (Rt.messages w
             ++ [Spec.outboundMessage (Rt.nextId w) (ContactSchema._id c) cleaned
                                      (Send.message req) sentAt])%list
          /\ Rt.contacts w' = Rt.replaceContact c' (Rt.contacts w)
          /\ Rt.lookupContact (ContactSchema._id c) (Rt.contacts w') = Some c'
          /\ ContactSchema.lastContacted c' = Some updatedAt
          /\ (ContactSchema.queryStatus c = qs_new ->
              ContactSchema.queryStatus c' = qs_in_progress)
          /\ (ContactSchema.queryStatus c <> qs_new ->
              ContactSchema.queryStatus c' = ContactSchema.queryStatus c)
          /\ ContactSchema.name c' = ContactSchema.name c
          /\ ContactSchema.phone c' = ContactSchema.phone c
          /\ ContactSchema.unreadCount c' = ContactSchema.unreadCount c)
    /\ (Spec.resolve (Send.contactId req) cleaned w = None ->
        exists p,
          Rt.contacts w' = (Rt.contacts w ++ [p])%list
          /\ ContactSchema._id p = Rt.nextId w
          /\ ContactSchema.name p
             = "Customer " ++ Js.substringFrom (String.length cleaned - 4) cleaned
          /\ ContactSchema.phone p = cleaned
          /\ ContactSchema.queryStatus p = qs_new
          /\ ContactSchema.unreadCount p = Some 0
          /\ Rt.messages w'
             = (Rt.messages w
                ++ [Spec.outboundMessage (S (Rt.nextId w)) (ContactSchema._id p)
                                         cleaned (Send.message req) sentAt])%list).
Proof.
  intros req env w cleaned serialized Hd Hhealthy Hu w' sentAt updatedAt.
  pose proof (send_dispatched req env w cleaned serialized Hd) as Hh.
  pose proof (dispatch_inv _ _ _ _ Hd) as (_ & _ & _ & Hv & Ht & _).
  pose proof (validatePhone_accepted _ _ Hv) as (_ & _ & Hp & _).
  assert (Htext : Js.truthy (Js.trim (Send.message req)) = true).
  { rewrite truthy_length, Ht. reflexivity. }
  split.
  - intros c Hr. exists (Spec.responded updatedAt c).
    assert (Hw' : w' = Rt.worldOf
                         (Send.saveToDatabase (Send.contactId req) cleaned
                                              (Send.message req) env w)).
    { unfold w'. rewrite Hh.
      now rewrite (saveToDatabase_known env w _ _ _ Hhealthy Hp Htext c Hu Hr). }
    rewrite (saveToDatabase_known env w _ _ _ Hhealthy Hp Htext c Hu Hr) in Hw'.
    simpl in Hw'. rewrite Hw'. cbn [Rt.messages Rt.contacts].
    split; [reflexivity |]. split; [reflexivity |].
    split.
    { change (ContactSchema._id c)
        with (ContactSchema._id (Spec.responded updatedAt c)) at 1.
      apply lookup_replaceContact. exists c.
      split; [now apply resolve_in in Hr | reflexivity]. }
    split; [reflexivity |].
    split; [intro E; simpl; now rewrite E |].
    split; [| repeat split].
    intro E. simpl. destruct (ContactSchema.queryStatus c); congruence.
  - intro Hr.
    assert (Hw' : w' = Rt.worldOf
                         (Send.saveToDatabase (Send.contactId req) cleaned
                                              (Send.message req) env w)).
    { unfold w'. rewrite Hh.
      now rewrite (saveToDatabase_unknown env w _ _ _ Hhealthy Hp Htext Hr). }
    rewrite (saveToDatabase_unknown env w _ _ _ Hhealthy Hp Htext Hr) in Hw'.
    simpl in Hw'. rewrite Hw'. cbn [Rt.messages Rt.contacts].
    eexists. split; [reflexivity |]. repeat split.
Qed.

Lemma answeredWorld_uniqueIds : Spec.uniqueIds Fixtures.answeredWorld.
Proof. repeat constructor. intros []. Qed.

Lemma send_records_message_and_updates_known_contact_witness :
  exists c',
    Rt.lookupContact 0
      (Rt.contacts
         (snd (Send.handle
                 {| Send.phone := "+1 555 123 4567";
                    Send.message := " We are on it ";
                    Send.contactId := Some 0 |}
                 Fixtures.calmEnv Fixtures.answeredWorld)))
    = Some c'
    /\ ContactSchema.lastContacted c' = Some 5001%Z.
Proof.
  destruct (proj1 (send_records_message_and_updates_known_contact
                     {| Send.phone := "+1 555 123 4567";
                        Send.message := " We are on it ";
                        Send.contactId := Some 0 |}
                     Fixtures.calmEnv Fixtures.answeredWorld
                     "15551234567" "true_12345678901@c.us_3EB0"
                     eq_refl calmEnv_healthy answeredWorld_uniqueIds)
                  Fixtures.alice eq_refl)
    as (c' & _ & _ & Hl & Ht & _).
  exists c'. split; [exact Hl | exact Ht].
Defined.

(** C3, as it is stated, fails: a dispatched send to a phone the store
    does not know records the message for a contact created on the spot,
    and after the send that contact is still in status new, not
    in-progress. *)
Lemma send_to_unknown_phone_leaves_contact_new :
  Spec.dispatch Fixtures.request Fixtures.calmEnv
  = Some ("12345678901", "true_12345678901@c.us_3EB0")
  /\ (let w' := snd (Send.handle Fixtures.request Fixtures.calmEnv
                                 Fixtures.emptyWorld) in
      exists c m,
        Rt.contacts w' = [c]
        /\ Rt.messages w' = [m]
        /\ MessageSchema.contactId m = Some (ContactSchema._id c)
        /\ MessageSchema.status m = sent
        /\ ContactSchema.name c = "Customer 8901"
        /\ ContactSchema.queryStatus c = qs_new
        /\ ContactSchema.queryStatus c <> qs_in_progress).
Proof.
  split; [reflexivity |].
  eexists _, _. repeat split. discriminate.
Qed.

(** ** Conversation view *)

Section Grouping.
Import Conversations.
Import Spec.

Lemma key_eqb_eq a b : key_eqb a b = true <-> a = b.
Proof.
  destruct a as [x |], b as [y |]; simpl; split; intro H;
    try discriminate; try reflexivity.
  - apply Nat.eqb_eq in H. now subst.
  - injection H as ->. apply Nat.eqb_refl.
Qed.

Lemma key_eqb_refl a : key_eqb a a = true.
Proof. now apply key_eqb_eq. Qed.

Lemma key_eqb_neq a b : key_eqb a b = false <-> a <> b.
Proof.
  split.
  - intros H E. apply key_eqb_eq in E. congruence.
  - intro H. destruct (key_eqb a b) eqn:E; [| reflexivity].
    apply key_eqb_eq in E. contradiction.
Qed.

Lemma accumulate_keys m gs :
  (In (MessageSchema.contactId m) (map _id gs) ->
   map _id (accumulate m gs) = map _id gs)
  /\ (~ In (MessageSchema.contactId m) (map _id gs) ->
      map _id (accumulate m gs)
      = (map _id gs ++ [MessageSchema.contactId m])%list).
Proof.
  induction gs as [| g r [IHin IHout]]; simpl.
  - split; [intros [] | reflexivity].
  - destruct (key_eqb (_id g) (MessageSchema.contactId m)) eqn:E.
    + apply key_eqb_eq in E. split; [reflexivity |].
      intro H. exfalso. apply H. now left.
    + apply key_eqb_neq in E. simpl. split.
      * intros [H | H]; [contradiction |]. now rewrite IHin.
      * intro H. rewrite IHout; [reflexivity |]. intro. apply H. now right.
Qed.

Lemma accumulate_members m gs g' :
  NoDup (map _id gs) ->
  In g' (accumulate m gs) ->
  (In g' gs /\ _id g' <> MessageSchema.contactId m)
  \/ (exists g, In g gs /\ _id g = MessageSchema.contactId m /\ g' = joined m g)
  \/ (~ In (MessageSchema.contactId m) (map _id gs) /\ g' = opened m).
Proof.
  induction gs as [| g r IH]; simpl; intros Hnd Hin.
  - destruct Hin as [<- | []]. right; right. split; [intros [] | reflexivity].
  - inversion Hnd as [| ? ? Hg Hr]; subst.
    destruct (key_eqb (_id g) (MessageSchema.contactId m)) eqn:E.
    + apply key_eqb_eq in E. destruct Hin as [<- | Hin].
      * right; left. exists g. repeat split; [now left | exact E].
      * left. split; [now right |]. intro E'. apply Hg.
        rewrite E, <- E'. now apply in_map.
    + apply key_eqb_neq in E. destruct Hin as [<- | Hin].
      * left. split; [now left | exact E].
      * destruct (IH Hr Hin) as [[H1 H2] | [(g0 & H1 & H2 & H3) | [H1 H2]]].
        -- left. split; [now right | exact H2].
        -- right; left. exists g0. repeat split; [now right | exact H2 | exact H3].
        -- right; right. split; [| exact H2].
           intros [H | H]; [contradiction | contradiction].
Qed.

Lemma ofContact_snoc k ms m :
  ofContact k (ms ++ [m])
  = (ofContact k ms
     ++ (if key_eqb k (MessageSchema.contactId m) then [m] else []))%list.
Proof. unfold ofContact. rewrite filter_app. reflexivity. Qed.

Lemma inboundOf_snoc k ms m :
  List.length (Spec.inboundOf k (ms ++ [m]))
  = List.length (Spec.inboundOf k ms)
    + (if key_eqb k (MessageSchema.contactId m) then inboundUnit m else 0).
Proof.
  unfold Spec.inboundOf. rewrite ofContact_snoc, filter_app, length_app.
  f_equal. destruct (key_eqb k (MessageSchema.contactId m)); [| reflexivity].
  simpl. unfold inboundUnit.
  destruct (Direction_eqb (MessageSchema.direction m) inbound); reflexivity.
Qed.

Lemma group_snoc ms m : group (ms ++ [m]) = accumulate m (group ms).
Proof. unfold group. now rewrite fold_left_app. Qed.

Lemma group_invariant ms :
  NoDup (map _id (group ms))
  /\ (forall m, In m ms -> In (MessageSchema.contactId m) (map _id (group ms)))
  /\ (forall g, In g (group ms) -> counted ms g).
Proof.
  induction ms as [| m ms (Hnd & Hcov & Hcnt)] using rev_ind.
  - split; [constructor |]. split; intros ? [].
  - rewrite group_snoc.
    destruct (accumulate_keys m (group ms)) as [Kin Kout].
    destruct (in_dec (fun a b => match key_eqb a b as r
                                       return key_eqb a b = r -> {a = b} + {a <> b}
                                 with
                                 | true => fun E => left (proj1 (key_eqb_eq a b) E)
                                 | false => fun E => right (proj1 (key_eqb_neq a b) E)
                                 end eq_refl)
                     (MessageSchema.contactId m) (map _id (group ms)))
      as [Hin | Hout].
    + split; [now rewrite (Kin Hin) |].
      split.
      * intros x Hx. rewrite (Kin Hin).
        apply in_app_or in Hx as [Hx | [<- | []]]; [now apply Hcov | exact Hin].
      * intros g' Hg'.
        destruct (accumulate_members m (group ms) g' Hnd Hg')
          as [[H1 H2] | [(g & H1 & H2 & ->) | [H1 _]]];
          [| | contradiction].
        -- destruct (Hcnt g' H1) as (C1 & C2 & C3).
           apply key_eqb_neq in H2.
           unfold counted. rewrite ofContact_snoc, inboundOf_snoc, H2.
           rewrite app_nil_r, Nat.add_0_r. now repeat split.
        -- destruct (Hcnt g H1) as (C1 & C2 & C3).
           unfold counted, joined. simpl.
           rewrite ofContact_snoc, inboundOf_snoc, length_app.
           rewrite (proj2 (key_eqb_eq _ _) H2). simpl. rewrite C1, C2.
           repeat split; lia.
    + split.
      { rewrite (Kout Hout). apply NoDup_app; [exact Hnd | repeat constructor; intros [] |].
        intros a Ha [<- | []]. contradiction. }
      split.
      * intros x Hx. rewrite (Kout Hout). apply in_or_app.
        apply in_app_or in Hx as [Hx | [<- | []]];
          [left; now apply Hcov | right; now left].
      * intros g' Hg'.
        destruct (accumulate_members m (group ms) g' Hnd Hg')
          as [[H1 H2] | [(g & H1 & H2 & ->) | [_ ->]]].
        -- destruct (Hcnt g' H1) as (C1 & C2 & C3).
           apply key_eqb_neq in H2.
           unfold counted. rewrite ofContact_snoc, inboundOf_snoc, H2.
           rewrite app_nil_r, Nat.add_0_r. now repeat split.
        -- exfalso. apply Hout. rewrite <- H2. now apply in_map.
        -- assert (Hnone : ofContact (MessageSchema.contactId m) ms = []).
           { unfold ofContact.
             destruct (filter _ ms) as [| x r] eqn:F; [reflexivity |].
             assert (Hx : In x (filter
                                  (fun m0 => key_eqb (MessageSchema.contactId m)
                                                     (MessageSchema.contactId m0))
                                  ms))
               by (rewrite F; now left).
             apply filter_In in Hx as [Hx Hk]. apply key_eqb_eq in Hk.
             exfalso. apply Hout. rewrite Hk. now apply Hcov. }
           unfold counted, opened. simpl.
           rewrite ofContact_snoc, inboundOf_snoc, key_eqb_refl, length_app.
           unfold Spec.inboundOf. rewrite Hnone. simpl. repeat split; lia.
Qed.

Lemma insertDesc_In c l x : In x (insertDesc c l) <-> x = c \/ In x l.
Proof.
  induction l as [| y r IH]; simpl.
  - split; intros [H | H]; auto.
  - destruct (lastMessage y <=? lastMessage c)%Z; simpl.
    + split; intros [H | H]; auto.
    + rewrite IH. split; intros [H | [H | H]]; auto.
Qed.

Lemma sortDesc_In l x : In x (sortDesc l) <-> In x l.
Proof.
  induction l as [| y r IH]; simpl; [reflexivity |].
  rewrite insertDesc_In, IH. split; intros [H | H]; auto.
Qed.

Lemma newest_nonempty ms :
  ms <> [] -> exists m, newest ms = Some m /\ In m ms.
Proof.
  induction ms as [| m r IH]; [congruence |]. intros _. simpl.
  destruct r as [| m' r'].
  - exists m. split; [reflexivity | now left].
  - destruct IH as (x & -> & Hx); [discriminate |].
    destruct (MessageSchema.timestamp m <? MessageSchema.timestamp x)%Z.
    + exists x. split; [reflexivity | now right].
    + exists m. split; [reflexivity | now left].
Qed.

End Grouping.

Section View.
Import Rt.
Import Conversations.
Variable env : Env.

Lemma calculateSLATime_returns t h w :
  exists r w1,
    calculateSLATime t h env w = Returned r w1
    /\ contacts w1 = contacts w /\ messages w1 = messages w.
Proof.
  unfold calculateSLATime. destruct t as [lastMsg |];
    [| now eexists _, _].
  unfold bind, newDate.
  repeat match goal with
         | |- context [if ?b then _ else _] => destruct b
         end; now eexists _, _.
Qed.

Lemma populate_returned conv w s w1 :
  populate conv env w = Returned s w1 ->
  contacts w1 = contacts w /\ messages w1 = messages w
  /\ Spec.summarizes (contacts w) (messages w) conv s.
Proof.
  unfold populate. unfold bind at 1.
  assert (Hc : findContact (_id conv) env w
               = match faults env ContactFindById with
                 | Some msg => Threw (mkError msg) w
                 | None =>
                     Returned match _id conv with
                              | Some id => lookupContact id (contacts w)
                              | None => None
                              end w
                 end).
  { unfold findContact, Contact.findById, dbCall, bind, askEnv.
    destruct (_id conv); destruct (faults env ContactFindById); reflexivity. }
  rewrite Hc. clear Hc.
  destruct (faults env ContactFindById); [discriminate |].
  unfold bind at 1. unfold findLast, dbCall. unfold bind at 1. unfold askEnv.
  destruct (faults env MessageFindOne); [discriminate |].
  unfold bind at 1. unfold getWorld, ret.
  unfold bind at 1.
  set (slaStep := match
                    match _id conv with
                    | Some id => lookupContact id (contacts w)
                    | None => None
                    end
                  with
                  | Some c =>
                      match ContactSchema.lastContacted c with
                      | Some t => calculateSLATime (Some t) 2
                      | None => fun _ w0 => Returned None w0
                      end
                  | None => fun _ w0 => Returned None w0
                  end).
  assert (Hs : exists r w2,
             slaStep env w = Returned r w2
             /\ contacts w2 = contacts w /\ messages w2 = messages w).
  { unfold slaStep.
    destruct (match _id conv with
              | Some id => lookupContact id (contacts w)
              | None => None
              end) as [c |]; [| now eexists _, _].
    destruct (ContactSchema.lastContacted c); [| now eexists _, _].
    apply calculateSLATime_returns. }
  destruct Hs as (r & w2 & -> & Hcs & Hms).
  intro H. inversion H; subst. clear H.
  split; [exact Hcs |]. split; [exact Hms |].
  unfold Spec.summarizes. simpl. repeat split.
Qed.

Lemma populate_healthy conv w :
  Spec.healthy env -> exists s w1, populate conv env w = Returned s w1.
Proof.
  intro Hh. unfold populate. unfold bind at 1.
  assert (Hc : exists c, findContact (_id conv) env w = Returned c w).
  { unfold findContact. destruct (_id conv).
    - rewrite findById_ok by apply Hh. now eexists.
    - rewrite dbCall_ok by apply Hh. now eexists. }
  destruct Hc as [c ->].
  unfold bind at 1. unfold findLast. rewrite dbCall_ok by apply Hh.
  unfold bind at 1. unfold getWorld, ret. unfold bind at 1.
  assert (Hs : exists r w2,
             match c with
             | Some c0 =>
                 match ContactSchema.lastContacted c0 with
                 | Some t => calculateSLATime (Some t) 2
                 | None => fun _ w0 => Returned None w0
                 end
             | None => fun _ w0 => Returned None w0
             end env w = Returned r w2).
  { destruct c as [c0 |]; [| now eexists _, _].
    destruct (ContactSchema.lastContacted c0); [| now eexists _, _].
    destruct (calculateSLATime_returns (Some z) 2 w) as (r & w2 & E & _).
    now exists r, w2. }
  destruct Hs as (r & w2 & ->). now eexists _, _.
Qed.

Lemma mapM_populate_returned convs :
  forall w sums w1,
    mapM populate convs env w = Returned sums w1 ->
    contacts w1 = contacts w /\ messages w1 = messages w
    /\ Forall2 (Spec.summarizes (contacts w) (messages w)) convs sums.
Proof.
  induction convs as [| conv r IH]; intros w sums w1 H.
  - inversion H; subst. repeat split. constructor.
  - simpl in H. unfold bind at 1 in H.
    destruct (populate conv env w) as [s w2 | e w2] eqn:Ep; [| discriminate].
    apply populate_returned in Ep as (Hc & Hm & Hs).
    unfold bind at 1 in H.
    destruct (mapM populate r env w2) as [ss w3 | e w3] eqn:Er; [| discriminate].
    apply IH in Er as (Hc' & Hm' & Hss).
    inversion H; subst. clear H.
    rewrite Hc, Hm in *. repeat split; try assumption.
    constructor; assumption.
Qed.

Lemma mapM_populate_healthy convs :
  Spec.healthy env ->
  forall w, exists sums w1, mapM populate convs env w = Returned sums w1.
Proof.
  intro Hh. induction convs as [| conv r IH]; intro w.
  - now eexists _, _.
  - simpl. unfold bind at 1.
    destruct (populate_healthy conv w Hh) as (s & w2 & ->).
    unfold bind at 1. destruct (IH w2) as (ss & w3 & ->). now eexists _, _.
Qed.

Lemma handle_healthy w :
  Spec.healthy env -> exists sums, handle env w = Json sums.
Proof.
  intro Hh. unfold handle, get, tryCatch. unfold bind at 1.
  unfold aggregate. rewrite dbCall_ok by apply Hh.
  unfold bind at 1. unfold getWorld, ret. unfold bind at 1.
  destruct (mapM_populate_healthy (sortDesc (group (messages w))) Hh w)
    as (sums & w1 & ->).
  now exists sums.
Qed.

(** Every summary of the answer renders one group of the store. *)
Lemma handle_summaries w sums s :
  handle env w = Json sums -> In s sums ->
  exists conv,
    In conv (group (messages w))
    /\ Spec.summarizes (contacts w) (messages w) conv s.
Proof.
  unfold handle, get, tryCatch. unfold bind at 1.
  unfold aggregate, dbCall. unfold bind at 1. unfold askEnv.
  destruct (faults env MessageAggregate); [discriminate |].
  unfold bind at 1. unfold getWorld, ret. unfold bind at 1.
  destruct (mapM populate (sortDesc (group (messages w))) env w)
    as [ss w1 | e w1] eqn:E; [| discriminate].
  intros H Hin. inversion H; subst. clear H.
  apply mapM_populate_returned in E as (_ & _ & HF).
  clear - HF Hin.
  assert (Hex : exists conv,
             In conv (sortDesc (group (messages w)))
             /\ Spec.summarizes (contacts w) (messages w) conv s).
  { induction HF as [| conv s' cs ss' Hs _ IH]; [destruct Hin |].
    destruct Hin as [<- | Hin].
    - exists conv. split; [now left | exact Hs].
    - destruct (IH Hin) as (c & Hc & Hcs). exists c. split; [now right | exact Hcs]. }
  destruct Hex as (conv & Hc & Hs). exists conv.
  split; [now apply sortDesc_In | exact Hs].
Qed.

(** Every group of the store has its summary in the answer. *)
Lemma handle_covers w sums conv :
  handle env w = Json sums -> In conv (group (messages w)) ->
  exists s,
    In s sums /\ Spec.summarizes (contacts w) (messages w) conv s.
Proof.
  unfold handle, get, tryCatch. unfold bind at 1.
  unfold aggregate, dbCall. unfold bind at 1. unfold askEnv.
  destruct (faults env MessageAggregate); [discriminate |].
  unfold bind at 1. unfold getWorld, ret. unfold bind at 1.
  destruct (mapM populate (sortDesc (group (messages w))) env w)
    as [ss w1 | e w1] eqn:E; [| discriminate].
  intros H Hin. inversion H; subst. clear H.
  apply mapM_populate_returned in E as (_ & _ & HF).
  apply sortDesc_In in Hin. clear - HF Hin.
  induction HF as [| c s' cs ss' Hs _ IH]; [destruct Hin |].
  destruct Hin as [<- | Hin].
  - exists s'. split; [now left | exact Hs].
  - destruct (IH Hin) as (s & Hs' & Hcs). exists s. split; [now right | exact Hcs].
Qed.

End View.

Lemma newest_is_latest ms m :
  Conversations.newest ms = Some m ->
  forall x, In x ms -> (MessageSchema.timestamp x <= MessageSchema.timestamp m)%Z.
Proof.
  revert m. induction ms as [| y r IH]; intros m H x Hx; [destruct Hx |].
  simpl in H. destruct (Conversations.newest r) as [m' |] eqn:E.
  - destruct (MessageSchema.timestamp y <? MessageSchema.timestamp m')%Z eqn:L;
      injection H as <-.
    + apply Z.ltb_lt in L. destruct Hx as [<- | Hx]; [lia | now apply (IH m')].
    + apply Z.ltb_ge in L. destruct Hx as [<- | Hx]; [lia |].
      specialize (IH m' eq_refl x Hx). lia.
  - injection H as <-. destruct Hx as [<- | Hx]; [lia |].
    destruct r; [destruct Hx | simpl in E].
    destruct (Conversations.newest r); [| discriminate].
    destruct (_ <? _)%Z; discriminate.
Qed.

(** C1, as the code has it.  With a store that answers, the view returns a
    list of summaries; each summary stands for a contact id that has at
    least one message, carries the contact found under that id, and reports
    as unreadCount the number of inbound messages of that id, counted from
    the message collection, next to the number of all its messages; and
    every contact id that a message refers to has such a summary. *)
Theorem view_unreadCount_counts_inbound_messages :
  forall (env : Rt.Env) (w : Rt.World),
    (Spec.healthy env -> exists sums, Conversations.handle env w
                                      = Conversations.Json sums)
    /\ (forall sums s,
           Conversations.handle env w = Conversations.Json sums ->
           In s sums ->
           exists k,
             Conversations.s_contact s
             = match k with
               | Some id => Rt.lookupContact id (Rt.contacts w)
               | None => None
               end
             /\ Conversations.s_unreadCount s
                = List.length (Spec.inboundOf k (Rt.messages w))
             /\ Conversations.s_messageCount s
                = List.length (Conversations.ofContact k (Rt.messages w))
             /\ 1 <= Conversations.s_messageCount s)
    /\ (forall sums m,
           Conversations.handle env w = Conversations.Json sums ->
           In m (Rt.messages w) ->
           exists s,
             In s sums
             /\ Conversations.s_contact s
                = match MessageSchema.contactId m with
                  | Some id => Rt.lookupContact id (Rt.contacts w)
                  | None => None
                  end
             /\ Conversations.s_unreadCount s
                = List.length
                    (Spec.inboundOf (MessageSchema.contactId m) (Rt.messages w))).
Proof.
  intros env w. split; [apply handle_healthy |].
  destruct (group_invariant (Rt.messages w)) as (_ & Hcov & Hcnt).
  split.
  - intros sums s H Hin.
    destruct (handle_summaries env w sums s H Hin) as (conv & Hc & Hs).
    destruct (Hcnt conv Hc) as (C1 & C2 & C3).
    destruct Hs as (S1 & S2 & S3 & _).
    exists (Conversations._id conv).
    rewrite S1, S2, S3. repeat split; assumption.
  - intros sums m H Hin.
    apply Hcov, in_map_iff in Hin as (conv & Hid & Hc).
    destruct (handle_covers env w sums conv H Hc) as (s & Hs & S1 & _ & S3 & _).
    destruct (Hcnt conv Hc) as (_ & C2 & _).
    exists s. rewrite S1, S3, C2, Hid. repeat split. exact Hs.
Qed.

Lemma view_unreadCount_counts_inbound_messages_witness :
  exists sums,
    Conversations.handle Fixtures.calmEnv Fixtures.answeredWorld
    = Conversations.Json sums.
Proof.
  exact (proj1 (view_unreadCount_counts_inbound_messages
                  Fixtures.calmEnv Fixtures.answeredWorld)
               calmEnv_healthy).
Defined.

(** C1, as it is stated, fails: the contact has read everything, its
    stored unreadCount is 0, and the view reports 1, the number of its
    inbound messages. *)
Lemma view_unreadCount_differs_from_contact :
  exists s,
    Conversations.handle Fixtures.calmEnv Fixtures.readWorld
    = Conversations.Json [s]
    /\ Conversations.s_contact s = Some Fixtures.alice
    /\ Spec.storedUnread_spec s = Some 0
    /\ Conversations.s_unreadCount s = 1
    /\ Some (Conversations.s_unreadCount s) <> Spec.storedUnread_spec s.
Proof.
  eexists. split; [reflexivity |]. repeat split. discriminate.
Qed.





(* ------------------------------------------------------------------------- *)
(** * Further properties of the routes *)

(** ** The SLA countdown *)

(** X1. For a contact last contacted at [last], the countdown read at [now]
    is overdue exactly from 120 minutes on (7 200 000 ms), urgent exactly
    from 90 minutes on (5 400 000 ms), so overdue implies urgent; the
    minutes it reports are never negative, and below 90 minutes the text
    splits the remaining minutes into hours and minutes under 60.  Reading
    the countdown changes neither contacts nor messages, and a contact never
    contacted has no countdown. *)
Theorem sla_thresholds_in_milliseconds :
  forall (env : Rt.Env) (w : Rt.World) (last : Z),
    let elapsed := (Rt.clock env (Rt.ticks w) - last)%Z in
    (exists sla w1,
        Conversations.calculateSLATime (Some last) 2 env w
        = Rt.Returned (Some sla) w1
        /\ Rt.contacts w1 = Rt.contacts w
        /\ Rt.messages w1 = Rt.messages w
        /\ (Conversations.overdue sla = true <-> (7200000 <= elapsed)%Z)
        /\ (Conversations.urgent sla = true <-> (5400000 <= elapsed)%Z)
        /\ (0 <= Conversations.minutes sla)%Z
        /\ Conversations.minutes sla = Z.abs (120 - elapsed / 60000)
        /\ ((elapsed < 5400000)%Z ->
            exists hours mins,
              (Conversations.minutes sla = 60 * hours + mins)%Z
              /\ (0 <= mins < 60)%Z /\ (0 <= hours)%Z
              /\ Conversations.text sla
                 = Conversations.show hours ++ "h " ++ Conversations.show mins
                   ++ "m remaining"))
    /\ Conversations.calculateSLATime None 2 env w = Rt.Returned None w.
Proof.
  intros env w last elapsed. split; [| reflexivity].
  unfold Conversations.calculateSLATime, Rt.bind, Rt.newDate.
  fold elapsed.
  pose proof (Z.div_mod elapsed 60000 ltac:(lia)) as Hdm.
  pose proof (Z.mod_pos_bound elapsed 60000 ltac:(lia)) as Hmb.
  set (q := (elapsed / 60000)%Z) in *.
  replace (2 * 60 - q)%Z with (120 - q)%Z by lia.
  destruct (120 - q <=? 0)%Z eqn:E1.
  - apply Z.leb_le in E1. eexists _, _. split; [reflexivity |].
    cbn [Conversations.overdue Conversations.urgent Conversations.minutes
         Conversations.text Rt.contacts Rt.messages].
    repeat split; try reflexivity; try discriminate; try lia;
      try (intros; lia).
  - apply Z.leb_gt in E1.
    destruct (120 - q <=? 30)%Z eqn:E2.
    + apply Z.leb_le in E2. eexists _, _. split; [reflexivity |].
      cbn [Conversations.overdue Conversations.urgent Conversations.minutes
           Conversations.text Rt.contacts Rt.messages].
      repeat split; try reflexivity; try discriminate; try lia;
        try (intros; lia).
    + apply Z.leb_gt in E2. eexists _, _. split; [reflexivity |].
      cbn [Conversations.overdue Conversations.urgent Conversations.minutes
           Conversations.text Rt.contacts Rt.messages].
      repeat split; try reflexivity; try discriminate; try lia;
        try (intros; lia).
      intros _. exists ((120 - q) / 60)%Z, ((120 - q) mod 60)%Z.
      pose proof (Z.div_mod (120 - q) 60 ltac:(lia)).
      pose proof (Z.mod_pos_bound (120 - q) 60 ltac:(lia)).
      repeat split; try lia.
Qed.

Lemma sla_thresholds_in_milliseconds_witness :
  exists sla w1,
    Conversations.calculateSLATime (Some (-5335000)%Z) 2
                                   Fixtures.calmEnv Fixtures.emptyWorld
    = Rt.Returned (Some sla) w1
    /\ Conversations.text sla = "0h 31m remaining".
Proof.
  destruct (proj1 (sla_thresholds_in_milliseconds
                     Fixtures.calmEnv Fixtures.emptyWorld (-5335000)%Z))
    as (sla & w1 & Hr & _).
  exists sla, w1. split; [exact Hr |].
  vm_compute in Hr. injection Hr as <- _. reflexivity.
Defined.

(** ** The session: retry policy and restarts *)

Lemma retryWithBackoff_withinPolicy s :
  Notions.withinPolicy s -> Notions.withinPolicy (Session.retryWithBackoff s).
Proof.
  intros [Hc Ht]. unfold Session.retryWithBackoff.
  destruct (Session.MAX_RETRIES <=? Session.retryCount s)%nat eqn:E.
  - split; assumption.
  - apply Nat.leb_gt in E. split; [simpl; lia |]. simpl.
    apply Forall_app. split; [exact Ht |]. constructor; [| constructor].
    intros _. simpl. unfold Session.MAX_RETRIES in E.
    destruct (Session.retryCount s) as [| [| [| n]]];
      [left | right; left | right; right | lia]; reflexivity.
Qed.

Lemma initWhatsApp_withinPolicy b s :
  Notions.withinPolicy s -> Notions.withinPolicy (Session.initWhatsApp b s).
Proof.
  intros [Hc Ht]. unfold Session.initWhatsApp.
  destruct (Session.hasClient s || Session.isInitializing s); [now split |].
  split; [| exact Ht]. simpl. destruct b; [lia | exact Hc].
Qed.

Lemma removeNth_Forall {A} (P : A -> Prop) i (l : list A) :
  Forall P l -> Forall P (Session.removeNth i l).
Proof.
  revert i. induction l as [| x r IH]; intros i H; destruct i; simpl;
    try constructor; inversion H; subst; auto.
Qed.

Lemma step_withinPolicy s e :
  Notions.withinPolicy s -> Notions.withinPolicy (Session.step s e).
Proof.
  intros [Hc Ht].
  assert (Hnew : forall d cb, cb <> Session.RetryInit ->
                   Forall Notions.policyTimer
                     (Session.timers s
                      ++ [{| Session.delay := d; Session.callback := cb |}])%list).
  { intros d cb Hcb. apply Forall_app. split; [exact Ht |].
    constructor; [| constructor]. intro E. simpl in E. contradiction. }
  destruct e as [qr | | | | | message | message | i | |];
    unfold Session.step.
  - now split.
  - split; [simpl; lia | exact Ht].
  - now split.
  - now split.
  - split; [exact Hc | simpl; apply Hnew; discriminate].
  - destruct (Js.truthy message && Js.includes message "EBUSY"); [now split |].
    destruct (Js.truthy message && Session.isProtocolError message);
      [| now split].
    apply retryWithBackoff_withinPolicy. now split.
  - apply retryWithBackoff_withinPolicy. now split.
  - destruct (nth_error (Session.timers s) i) as [t |]; [| now split].
    assert (Hrest : Notions.withinPolicy
                      (Session.set_timers (Session.removeNth i (Session.timers s)) s)).
    { split; [exact Hc | simpl; now apply removeNth_Forall]. }
    destruct (Session.callback t); unfold Session.runCallback.
    + apply initWhatsApp_withinPolicy. destruct Hrest. now split.
    + destruct Hrest. now split.
    + now apply initWhatsApp_withinPolicy.
  - split; [simpl; lia | simpl; apply Hnew; discriminate].
  - split; [simpl; lia | simpl; apply Hnew; discriminate].
Qed.

(** X2. Whatever events, timers and route calls follow the loading of the
    module, the retry count never exceeds 3 and every retry waiting in a
    timer has a delay of 1000, 2000 or 4000 ms: the cap of 10 seconds in the
    backoff formula is never reached. *)
Theorem session_stays_within_retry_policy :
  forall (events : list Session.Event),
    let s := Session.run Session.loaded events in
    Session.retryCount s <= 3
    /\ (forall t, In t (Session.timers s) ->
                  Session.callback t = Session.RetryInit ->
                  Session.delay t = 1000%Z \/ Session.delay t = 2000%Z
                  \/ Session.delay t = 4000%Z)
    /\ (forall t, In t (Session.timers s) -> (Session.delay t < 10000)%Z
                  \/ Session.callback t <> Session.RetryInit).
Proof.
  intros events s.
  assert (H : Notions.withinPolicy s).
  { unfold s, Session.run.
    assert (G : forall es st, Notions.withinPolicy st ->
                              Notions.withinPolicy (fold_left Session.step es st)).
    { induction es as [| e r IH]; intros st Hst; [exact Hst |].
      simpl. apply IH. now apply step_withinPolicy. }
    apply G. split; [simpl; unfold Session.MAX_RETRIES; lia | constructor]. }
  destruct H as [Hc Ht]. split; [exact Hc |].
  rewrite Forall_forall in Ht. split.
  - intros t Hin. exact (Ht t Hin).
  - intros t Hin.
    destruct (Session.callback t) eqn:E; [left | right; discriminate ..].
    destruct (Ht t Hin E) as [-> | [-> | ->]]; lia.
Qed.



(** ** The pairing code *)

(** X4. The QR route hands out a pairing code only when the session holds
    one, and answers with a status exactly when it holds none.  A code
    issued by the transport is reported by the status route and handed out
    raw, rendered as an image only when an image is asked for and the
    renderer succeeds (a failing renderer falls back to the raw code).
    Becoming ready clears the code: both routes then report connected.
    After a disconnect or reconnect request both report a session that is
    neither connected nor pairing. *)
Theorem pairing_code_lifecycle :
  forall (s : Session.State) (format : string)
         (renderer : option (string -> Rt.JsError + string)),
    (forall q, Pairing.qr format renderer s = Pairing.Qr q ->
               Session.qrCodeData s = Some q)
    /\ (Pairing.hasQR (Pairing.status s) = false
        <-> exists st, Pairing.qr format renderer s = Pairing.QrStatus st)
    /\ (forall q, Js.truthy q = true ->
          let s' := Session.step s (Session.OnQr q) in
          Pairing.hasQR (Pairing.status s') = true
          /\ Pairing.qr format None s' = Pairing.Qr q
          /\ (format <> "image" -> Pairing.qr format renderer s' = Pairing.Qr q)
          /\ (forall toDataURL e,
                 toDataURL q = inl e ->
                 Pairing.qr "image" (Some toDataURL) s' = Pairing.Qr q)
          /\ (forall toDataURL img,
                 toDataURL q = inr img ->
                 Pairing.qr "image" (Some toDataURL) s' = Pairing.QrImage img))
    /\ (Pairing.status (Session.step s Session.OnReady)
        = {| Pairing.connected := true; Pairing.hasQR := false |}
        /\ Pairing.qr format renderer (Session.step s Session.OnReady)
           = Pairing.QrStatus "connected")
    /\ (forall e, e = Session.PostDisconnect \/ e = Session.PostReconnect ->
          Pairing.status (Session.step s e)
          = {| Pairing.connected := false; Pairing.hasQR := false |}
          /\ Pairing.qr format renderer (Session.step s e)
             = Pairing.QrStatus "initializing").
Proof.
  intros s format renderer.
  split; [| split; [| split; [| split]]].
  - intros q. unfold Pairing.qr, Pairing.held.
    destruct (Session.qrCodeData s) as [c |];
      [| destruct (Session.isReady s); discriminate].
    destruct (Js.truthy c); [| destruct (Session.isReady s); discriminate].
    destruct (String.eqb format "image"), renderer as [f |];
      try (intro H; injection H as <-; reflexivity).
    destruct (f c); [| discriminate]. intro H; injection H as <-; reflexivity.
  - unfold Pairing.status, Pairing.qr. simpl.
    destruct (Pairing.held s) as [c |]; split.
    + discriminate.
    + intros [st H].
      destruct (String.eqb format "image"), renderer as [f |];
        try discriminate.
      destruct (f c); discriminate.
    + intros _. destruct (Session.isReady s); eexists; reflexivity.
    + reflexivity.
  - intros q Hq s'.
    assert (Hh : Pairing.held s' = Some q).
    { unfold Pairing.held, s'. simpl. now rewrite Hq. }
    unfold Pairing.status, Pairing.qr. rewrite Hh. simpl.
    split; [reflexivity |]. split; [now destruct (String.eqb format "image") |].
    split.
    { intro Hf. apply String.eqb_neq in Hf. rewrite Hf.
      now destruct renderer. }
    split; intros f x Hx; now rewrite Hx.
  - split; reflexivity.
  - intros e [-> | ->]; split; reflexivity.
Qed.

Lemma pairing_code_lifecycle_witness :
  Pairing.qr "image" (Some (fun q => inr ("data:image/png;base64," ++ q)))
             (Session.step Session.loaded (Session.OnQr "2@abc"))
  = Pairing.QrImage "data:image/png;base64,2@abc".
Proof.
  apply (proj2 (proj2 (proj2 (proj2
          (proj1 (proj2 (proj2
             (pairing_code_lifecycle Session.loaded "image" None)))
             "2@abc" eq_refl))))).
  reflexivity.
Defined.

(** ** A send that does not go out *)

(** A text made of white space only is trimmed to nothing. *)
Lemma trimStart_allWhite s : Js.allWhite s = true -> Js.trimStart s = "".
Proof.
  assert (G : forall n s, String.length s <= n ->
                          Js.allWhite s = true -> Js.trimStart s = "").
  { induction n as [| n IH]; intros t Hn Hw.
    - destruct t; [reflexivity | simpl in Hn; lia].
    - destruct t as [| a r]; [reflexivity |].
      simpl in Hn. simpl in Hw |- *.
      destruct (Js.isSpace a); [apply IH; [lia | exact Hw] |].
      destruct r as [| b r2]; [discriminate |].
      simpl in Hn.
      destruct (Js.isSpace2 a b); [apply IH; [lia | exact Hw] |].
      destruct r2 as [| c r3]; [discriminate |].
      simpl in Hn.
      apply andb_true_iff in Hw as [H3 Hw]. rewrite H3.
      apply IH; [lia | exact Hw]. }
  now apply (G (String.length s)).
Qed.

Lemma trim_allWhite s :
  Js.allWhite s = true -> (String.length (Js.trim s) =? 0)%nat = true.
Proof. intro H. unfold Js.trim. now rewrite (trimStart_allWhite s H). Qed.

Lemma classifySendError_answers cleaned e env w :
  exists r,
    Send.classifySendError cleaned e env w = Rt.Returned r w
    /\ Notions.failureCode (Send.code r)
    /\ exists err, Send.body r = Send.ErrorBody err.
Proof.
  unfold Send.classifySendError, Send.reject, Rt.bind, Rt.askEnv, Rt.ret,
    Notions.failureCode.
  repeat match goal with
         | |- context [if ?b then _ else _] => destruct b
         end;
    (eexists; split; [reflexivity |]; split; [simpl; tauto | now eexists]).
Qed.

(** A send that is not dispatched keeps the contacts and answers with a
    failure code. *)
Lemma undispatched_send_effect :
  forall (req : Send.Request) (env : Rt.Env) (w : Rt.World),
    Spec.dispatch req env = None ->
    Rt.contacts (snd (Send.handle req env w)) = Rt.contacts w
    /\ Notions.failureCode (Send.code (fst (Send.handle req env w))).
Proof.
  intros req env w Hd.
  set (P := fun rw : Send.Response * Rt.World =>
              Rt.contacts (snd rw) = Rt.contacts w
              /\ Notions.failureCode (Send.code (fst rw))).
  change (P (Send.handle req env w)).
  assert (Hrefuse : forall err,
             P ({| Send.code := 400; Send.body := Send.ErrorBody err |}, w)).
  { intro err. unfold P, Notions.failureCode. simpl. tauto. }
  unfold Spec.dispatch in Hd.
  unfold Send.handle, Send.send, Rt.tryCatch. unfold Rt.bind at 1.
  unfold Rt.askEnv.
  destruct (Session.connected (Rt.session env)); [| apply Hrefuse].
  destruct (Js.truthy (Send.phone req)); [| apply Hrefuse].
  destruct (Js.truthy (Send.message req)); [| apply Hrefuse].
  cbn [negb orb andb] in *.
  destruct (Send.validatePhone (Send.phone req)) as [refusal | cleaned] eqn:Hv;
    [apply Hrefuse |].
  pose proof (validatePhone_accepted _ _ Hv) as (_ & _ & _ & Hat).
  rewrite Hat. cbn [negb].
  destruct (String.length (Js.trim (Send.message req)) =? 0)%nat;
    [apply Hrefuse |].
  destruct (Rt.sendMessage env (cleaned ++ "@c.us") (Js.trim (Send.message req)))
    as [e | serialized] eqn:Hs; [| discriminate].
  unfold Rt.bind at 1. unfold Rt.consoleError at 1.
  match goal with
  | |- context [Send.classifySendError cleaned e env ?w1] =>
      destruct (classifySendError_answers cleaned e env w1)
        as (r & -> & Hcode & _)
  end.
  unfold P. simpl. split; [reflexivity | exact Hcode].
Qed.

(** A request that is refused is answered 400 with the text of the
    refusal, and the world stays as it is. *)
Lemma refused_send req env w text :
  Notions.refusal req env = Some text ->
  Send.handle req env w
  = ({| Send.code := 400; Send.body := Send.ErrorBody text |}, w).
Proof.
  unfold Notions.refusal, Send.handle, Send.send, Rt.tryCatch.
  unfold Rt.bind at 1. unfold Rt.askEnv.
  destruct (negb (Session.connected (Rt.session env)));
    [intro H; now injection H as <- |].
  destruct (negb (Js.truthy (Send.phone req))
            || negb (Js.truthy (Send.message req)));
    [intro H; now injection H as <- |].
  destruct (Send.validatePhone (Send.phone req)) as [refusal | cleaned];
    [intro H; now injection H as <- |].
  destruct (String.length (Js.trim (Send.message req)) =? 0)%nat;
    [intro H; now injection H as <- | discriminate].
Qed.

(** A request that is not refused has passed every check of the route. *)
Lemma unrefused_send req env :
  Notions.refusal req env = None ->
  exists cleaned,
    Session.connected (Rt.session env) = true
    /\ Js.truthy (Send.phone req) = true
    /\ Js.truthy (Send.message req) = true
    /\ Send.validatePhone (Send.phone req) = inr cleaned
    /\ (String.length (Js.trim (Send.message req)) =? 0)%nat = false.
Proof.
  unfold Notions.refusal.
  destruct (Session.connected (Rt.session env)); [| discriminate].
  destruct (Js.truthy (Send.phone req)); [| discriminate].
  destruct (Js.truthy (Send.message req)); [| discriminate].
  cbn [negb orb].
  destruct (Send.validatePhone (Send.phone req)) as [refusal | cleaned];
    [discriminate |].
  destruct (String.length (Js.trim (Send.message req)) =? 0)%nat;
    [discriminate |].
  intros _. now exists cleaned.
Qed.

(** X5. A send that is refused before the transport is called, or that the
    transport rejects, writes nothing: contacts and messages are as before
    and no id is used up.  Its response is an error with code 400, 429, 500,
    503 or 504.  A request that is refused (session not connected, phone or
    message missing, phone not of 10 to 15 digits, message of white space
    only) is answered 400 with the text of the refusal and prints nothing on
    the error console; a request that is not refused reaches the transport,
    and the rejection of the transport is printed there once. *)
Theorem undispatched_send_writes_nothing :
  forall (req : Send.Request) (env : Rt.Env) (w : Rt.World),
    Spec.dispatch req env = None ->
    let r := fst (Send.handle req env w) in
    let w' := snd (Send.handle req env w) in
    Rt.contacts w' = Rt.contacts w
    /\ Rt.messages w' = Rt.messages w
    /\ Rt.nextId w' = Rt.nextId w
    /\ Notions.failureCode (Send.code r)
    /\ (exists err, Send.body r = Send.ErrorBody err)
    /\ (forall text,
           Notions.refusal req env = Some text ->
           r = {| Send.code := 400; Send.body := Send.ErrorBody text |}
           /\ Rt.errorLog w' = Rt.errorLog w)
    /\ (Notions.refusal req env = None ->
        exists e cleaned,
          Send.validatePhone (Send.phone req) = inr cleaned
          /\ Rt.sendMessage env (cleaned ++ "@c.us")
                            (Js.trim (Send.message req)) = inl e
          /\ Rt.errorLog w'
             = (Rt.errorLog w ++ [("WhatsApp send error details:", e)])%list)
    /\ (Js.allWhite (Send.message req) = true ->
        Session.connected (Rt.session env) = true ->
        Js.truthy (Send.message req) = true ->
        forall cleaned,
          Send.validatePhone (Send.phone req) = inr cleaned ->
          Notions.refusal req env = Some "Message cannot be empty").
Proof.
  intros req env w Hd. cbv zeta.
  assert (Hblank :
            Js.allWhite (Send.message req) = true ->
            Session.connected (Rt.session env) = true ->
            Js.truthy (Send.message req) = true ->
            forall cleaned,
              Send.validatePhone (Send.phone req) = inr cleaned ->
              Notions.refusal req env = Some "Message cannot be empty").
  { intros Hw Hc Hm cleaned Hv. unfold Notions.refusal.
    rewrite Hc, Hm, Hv.
    assert (Hph : Js.truthy (Send.phone req) = true).
    { destruct (Send.phone req); [| reflexivity].
      vm_compute in Hv. discriminate. }
    rewrite Hph. cbn [negb orb].
    now rewrite (trim_allWhite _ Hw). }
  destruct (Notions.refusal req env) as [text |] eqn:Hr.
  - rewrite (refused_send req env w text Hr). cbn [fst snd Send.code Send.body].
    split; [reflexivity |]. split; [reflexivity |]. split; [reflexivity |].
    split; [unfold Notions.failureCode; tauto |].
    split; [now eexists |].
    split; [intros t Ht; injection Ht as <-; now split |].
    split; [discriminate | exact Hblank].
  - destruct (unrefused_send req env Hr) as (cleaned & Hc & Hp & Hm & Hv & Ht).
    pose proof (validatePhone_accepted _ _ Hv) as (_ & _ & _ & Hat).
    unfold Spec.dispatch in Hd. rewrite Hc, Hp, Hm, Hv, Ht in Hd.
    cbn [andb] in Hd.
    destruct (Rt.sendMessage env (cleaned ++ "@c.us")
                             (Js.trim (Send.message req)))
      as [e | serialized] eqn:Hs; [clear Hd | discriminate].
    assert (Hh : exists r,
               Send.handle req env w
               = (r, {| Rt.contacts := Rt.contacts w;
                        Rt.messages := Rt.messages w;
                        Rt.nextId := Rt.nextId w; Rt.ticks := Rt.ticks w;
                        Rt.errorLog :=
                          (Rt.errorLog w
                           ++ [("WhatsApp send error details:", e)])%list |})
               /\ Notions.failureCode (Send.code r)
               /\ exists err, Send.body r = Send.ErrorBody err).
    { unfold Send.handle, Send.send, Rt.tryCatch. unfold Rt.bind at 1.
      unfold Rt.askEnv. rewrite Hc, Hp, Hm, Hv. cbv beta iota.
      rewrite Hat, Ht. cbn [negb orb]. rewrite Hs.
      unfold Rt.bind at 1. unfold Rt.consoleError at 1.
      match goal with
      | |- context [Send.classifySendError cleaned e env ?w1] =>
          destruct (classifySendError_answers cleaned e env w1)
            as (r & -> & Hcode & Herr)
      end.
      exists r. now split. }
    destruct Hh as (r & -> & Hcode & Herr).
    cbn [fst snd Rt.contacts Rt.messages Rt.nextId Rt.errorLog].
    split; [reflexivity |]. split; [reflexivity |]. split; [reflexivity |].
    split; [exact Hcode |]. split; [exact Herr |].
    split; [discriminate |].
    split; [intros _; now exists e, cleaned | exact Hblank].
Qed.

Lemma undispatched_send_writes_nothing_witness :
  (fst (Send.handle {| Send.phone := "12345"; Send.message := "hello";
                       Send.contactId := None |}
                    Fixtures.calmEnv Fixtures.answeredWorld)
   = {| Send.code := 400;
        Send.body :=
          Send.ErrorBody
            ("Phone number is too short (5 digits). Please include country code."
             ++ Js.nl ++ "Example: 1234567890 (US) or 911234567890 (India)") |}
   /\ Rt.errorLog
        (snd (Send.handle {| Send.phone := "12345"; Send.message := "hello";
                             Send.contactId := None |}
                          Fixtures.calmEnv Fixtures.answeredWorld))
      = Rt.errorLog Fixtures.answeredWorld)
  /\ fst (Send.handle Samples.blankRequest Fixtures.calmEnv
                      Fixtures.answeredWorld)
     = {| Send.code := 400;
          Send.body := Send.ErrorBody "Message cannot be empty" |}.
Proof.
  split.
  - destruct (undispatched_send_writes_nothing
                {| Send.phone := "12345"; Send.message := "hello";
                   Send.contactId := None |}
                Fixtures.calmEnv Fixtures.answeredWorld eq_refl)
      as (_ & _ & _ & _ & _ & H & _).
    exact (H _ eq_refl).
  - destruct (undispatched_send_writes_nothing
                Samples.blankRequest Fixtures.calmEnv Fixtures.answeredWorld
                eq_refl)
      as (_ & _ & _ & _ & _ & H & _ & Hb).
    exact (proj1 (H _ (Hb eq_refl eq_refl eq_refl "15551234567" eq_refl))).
Defined.

(** ** A send that reports success *)

Lemma replaceContact_ids c cs :
  map ContactSchema._id (Rt.replaceContact c cs) = map ContactSchema._id cs.
Proof.
  induction cs as [| x r IH]; [reflexivity |]. simpl.
  destruct (ContactSchema._id x =? ContactSchema._id c)%nat eqn:E; simpl.
  - apply Nat.eqb_eq in E. now rewrite E.
  - now rewrite IH.
Qed.

Lemma lookup_returned env cid cleaned w found w0 :
  match cid with
  | Some id => Rt.Contact.findById id
  | None => Rt.Contact.findOne cleaned
  end env w = Rt.Returned found w0 ->
  w0 = w /\ found = Spec.resolve cid cleaned w.
Proof.
  unfold Spec.resolve, Rt.Contact.findById, Rt.Contact.findOne, Rt.dbCall,
    Rt.bind, Rt.askEnv, Rt.getWorld, Rt.ret.
  destruct cid;
    match goal with |- context [Rt.faults env ?op] => destruct (Rt.faults env op) end;
    try discriminate; intro H; inversion H; now split.
Qed.

Lemma Message_create_returned env w d m w1 :
  Rt.Message.create d env w = Rt.Returned m w1 ->
  Rt.contacts w1 = Rt.contacts w
  /\ Rt.messages w1
     = (Rt.messages w
        ++ [MessageSchema.build (Rt.nextId w) (Rt.clock env (Rt.ticks w)) d])%list.
Proof.
  unfold Rt.Message.create, Rt.dbCall, Rt.bind, Rt.askEnv, Rt.getWorld,
    Rt.putWorld, Rt.ret, Rt.throw.
  destruct (Rt.faults env Rt.MessageCreate); [discriminate |].
  destruct (Js.truthy (MessageSchema.d_phone d)); [| discriminate].
  destruct (Js.truthy (MessageSchema.d_message d)); [| discriminate].
  simpl. intro H. inversion H. now split.
Qed.

Lemma findByIdAndUpdate_effect env w id u :
  Rt.messages (Rt.worldOf (Rt.Contact.findByIdAndUpdate id u env w))
  = Rt.messages w
  /\ map ContactSchema._id
         (Rt.contacts (Rt.worldOf (Rt.Contact.findByIdAndUpdate id u env w)))
     = map ContactSchema._id (Rt.contacts w).
Proof.
  unfold Rt.Contact.findByIdAndUpdate, Rt.dbCall, Rt.bind, Rt.askEnv,
    Rt.getWorld, Rt.putWorld, Rt.ret, Rt.set_contacts.
  destruct (Rt.faults env Rt.ContactFindByIdAndUpdate); [now split |].
  destruct (Rt.lookupContact id (Rt.contacts w)); simpl; [| now split].
  split; [reflexivity | apply replaceContact_ids].
Qed.

Lemma saveToDatabase_returned env w cid cleaned text w' :
  Send.saveToDatabase cid cleaned text env w = Rt.Returned tt w' ->
  exists id contact now,
    Rt.messages w'
    = (Rt.messages w ++ [Spec.outboundMessage id contact cleaned text now])%list
    /\ In contact (map ContactSchema._id (Rt.contacts w'))
    /\ (forall c, Spec.resolve cid cleaned w = Some c ->
                  contact = ContactSchema._id c).
Proof.
  unfold Send.saveToDatabase. unfold Rt.bind at 1.
  destruct (match cid with
            | Some id => Rt.Contact.findById id
            | None => Rt.Contact.findOne cleaned
            end env w) as [found w0 | e w0] eqn:El; [| discriminate].
  apply lookup_returned in El as [-> Hfound].
  unfold Rt.bind at 1. unfold Rt.newDate at 1.
  destruct found as [c |].
  - unfold Rt.bind at 1.
    match goal with
    | |- context [Rt.Message.create ?d env ?w1] =>
        destruct (Rt.Message.create d env w1) as [m w2 | e w2] eqn:Em
    end; [| discriminate].
    apply Message_create_returned in Em as [Hc Hm]. simpl in Hc, Hm.
    unfold Rt.bind at 1. unfold Rt.newDate at 1. unfold Rt.bind at 1.
    match goal with
    | |- context [Rt.Contact.findByIdAndUpdate ?i ?u env ?w3] =>
        pose proof (findByIdAndUpdate_effect env w3 i u) as [Hum Huc];
        destruct (Rt.Contact.findByIdAndUpdate i u env w3) as [a w4 | e w4]
    end; [| discriminate].
    simpl in Hum, Huc. unfold Rt.ret. intro H. inversion H; subst w4. clear H.
    eexists _, (ContactSchema._id c), _. split; [| split].
    + rewrite Hum, Hm. reflexivity.
    + rewrite Huc, Hc. apply in_map.
      symmetry in Hfound. now apply resolve_in in Hfound.
    + intros c0 Hc0. rewrite <- Hfound in Hc0. now injection Hc0 as <-.
  - unfold Rt.bind at 1.
    match goal with
    | |- context [Rt.Contact.create ?d env ?w1] =>
        destruct (Rt.Contact.create d env w1) as [c w2 | e w2] eqn:Ec
    end; [| discriminate].
    assert (Hcw : Rt.contacts w2 = (Rt.contacts w ++ [c])%list
                  /\ Rt.messages w2 = Rt.messages w).
    { revert Ec. unfold Rt.Contact.create, Rt.dbCall, Rt.bind, Rt.askEnv,
        Rt.getWorld, Rt.putWorld, Rt.ret.
      destruct (Rt.faults env Rt.ContactCreate); [discriminate |].
      simpl. intro H. inversion H. now split. }
    destruct Hcw as [Hcc Hcm].
    unfold Rt.bind at 1.
    match goal with
    | |- context [Rt.Message.create ?d env w2] =>
        destruct (Rt.Message.create d env w2) as [m w3 | e w3] eqn:Em
    end; [| discriminate].
    apply Message_create_returned in Em as [Hc Hm].
    unfold Rt.ret. intro H. inversion H; subst w3. clear H.
    eexists _, (ContactSchema._id c), _. split; [| split].
    + rewrite Hm, Hcm. reflexivity.
    + rewrite Hc, Hcc, map_app. apply in_or_app. right. now left.
    + intros c0 Hc0. rewrite <- Hfound in Hc0. discriminate.
Qed.

(** X6. A send answers 200 only when the message went out and its side
    record was written: the response carries the id the transport gave, and
    the store holds one more message, outbound, sent, for the digits of the
    requested phone, linked to a contact id that the store has (the
    resolved contact's when one was resolved). *)
Theorem send_success_means_recorded :
  forall (req : Send.Request) (env : Rt.Env) (w : Rt.World),
    Send.code (fst (Send.handle req env w)) = 200 ->
    let w' := snd (Send.handle req env w) in
    exists cleaned serialized id contact now,
      Spec.dispatch req env = Some (cleaned, serialized)
      /\ Send.body (fst (Send.handle req env w))
         = Send.SuccessBody serialized "Message sent successfully"
      /\ Rt.messages w'
         = (Rt.messages w
            ++ [Spec.outboundMessage id contact cleaned (Send.message req) now])%list
      /\ In contact (map ContactSchema._id (Rt.contacts w'))
      /\ (forall c, Spec.resolve (Send.contactId req) cleaned w = Some c ->
                    contact = ContactSchema._id c).
Proof.
  intros req env w H200 w'.
  destruct (Spec.dispatch req env) as [[cleaned serialized] |] eqn:Hd.
  - pose proof (send_dispatched req env w cleaned serialized Hd) as Hh.
    unfold w'. rewrite Hh in H200 |- *.
    destruct (Send.saveToDatabase (Send.contactId req) cleaned
                                  (Send.message req) env w)
      as [[] w1 | e w1] eqn:Es; [| discriminate H200].
    destruct (saveToDatabase_returned _ _ _ _ _ _ Es)
      as (id & contact & now & Hm & Hin & Hres).
    exists cleaned, serialized, id, contact, now. simpl.
    repeat split; assumption.
  - exfalso.
    destruct (undispatched_send_effect req env w Hd) as (_ & H).
    rewrite H200 in H. unfold Notions.failureCode in H.
    repeat (destruct H as [H | H]; [discriminate |]). discriminate.
Qed.

Lemma send_success_means_recorded_witness :
  exists cleaned serialized,
    Spec.dispatch Fixtures.request Fixtures.calmEnv = Some (cleaned, serialized).
Proof.
  destruct (send_success_means_recorded
              Fixtures.request Fixtures.calmEnv Fixtures.emptyWorld eq_refl)
    as (cleaned & serialized & _ & _ & _ & Hd & _).
  now exists cleaned, serialized.
Defined.

(** ** Handlers that cannot fail *)

Lemma tryCatch_returns {A} (c : Rt.M A) (h : Rt.JsError -> Rt.M A) env w :
  (forall e w1, exists a w2, h e env w1 = Rt.Returned a w2) ->
  exists a w2, Rt.tryCatch c h env w = Rt.Returned a w2.
Proof.
  intro H. unfold Rt.tryCatch.
  destruct (c env w) as [a w1 | e w1]; [now exists a, w1 | apply H].
Qed.

Lemma populate_store env conv w :
  Rt.contacts (Rt.worldOf (Conversations.populate conv env w)) = Rt.contacts w
  /\ Rt.messages (Rt.worldOf (Conversations.populate conv env w)) = Rt.messages w.
Proof.
  destruct (Conversations.populate conv env w) as [s w1 | e w1] eqn:E.
  - apply populate_returned in E as (Hc & Hm & _). now split.
  - revert E. unfold Conversations.populate. unfold Rt.bind at 1.
    assert (Hc : Rt.worldOf (Conversations.findContact (Conversations._id conv) env w)
                 = w).
    { unfold Conversations.findContact, Rt.Contact.findById, Rt.dbCall, Rt.bind,
        Rt.askEnv.
      destruct (Conversations._id conv);
        destruct (Rt.faults env Rt.ContactFindById); reflexivity. }
    destruct (Conversations.findContact (Conversations._id conv) env w)
      as [c w0 | e0 w0]; simpl in Hc; subst w0;
      [| intro H; inversion H; now split].
    unfold Rt.bind at 1. unfold Conversations.findLast, Rt.dbCall.
    unfold Rt.bind at 1. unfold Rt.askEnv.
    destruct (Rt.faults env Rt.MessageFindOne);
      [intro H; inversion H; now split |].
    unfold Rt.bind at 1. unfold Rt.getWorld, Rt.ret. unfold Rt.bind at 1.
    match goal with
    | |- match ?step env w with _ => _ end = _ -> _ =>
        assert (Hs : exists r w2, step env w = Rt.Returned r w2)
    end.
    { destruct c as [c0 |]; [| now eexists _, _].
      destruct (ContactSchema.lastContacted c0); [| now eexists _, _].
      destruct (calculateSLATime_returns env (Some z) 2 w) as (r & w2 & E & _).
      now exists r, w2. }
    destruct Hs as (r & w2 & ->). discriminate.
Qed.

Lemma mapM_populate_store env convs :
  forall w,
    Rt.contacts (Rt.worldOf (Conversations.mapM Conversations.populate convs env w))
    = Rt.contacts w
    /\ Rt.messages
         (Rt.worldOf (Conversations.mapM Conversations.populate convs env w))
       = Rt.messages w.
Proof.
  induction convs as [| conv r IH]; intro w; [now split |].
  set (P := fun o : Rt.Outcome (list Conversations.Summary) =>
              Rt.contacts (Rt.worldOf o) = Rt.contacts w
              /\ Rt.messages (Rt.worldOf o) = Rt.messages w).
  change (P (Conversations.mapM Conversations.populate (conv :: r) env w)).
  simpl. unfold Rt.bind at 1.
  pose proof (populate_store env conv w) as [Hc Hm].
  destruct (Conversations.populate conv env w) as [s w1 | e w1];
    simpl in Hc, Hm; [| now split].
  unfold Rt.bind at 1. specialize (IH w1) as [Hc' Hm'].
  destruct (Conversations.mapM Conversations.populate r env w1) as [ss w2 | e w2];
    simpl in Hc', Hm'; unfold P; simpl; split; congruence.
Qed.

Lemma group_nonempty ms : ms <> [] -> Conversations.group ms <> [].
Proof.
  destruct ms as [| m r]; [congruence |]. intros _ E.
  destruct (group_invariant (m :: r)) as (_ & Hcov & _).
  specialize (Hcov m (or_introl eq_refl)). rewrite E in Hcov. destruct Hcov.
Qed.

Lemma sortDesc_nonempty l : l <> [] -> Conversations.sortDesc l <> [].
Proof.
  destruct l as [| x r]; [congruence |]. intros _ E.
  assert (H : In x (Conversations.sortDesc (x :: r)))
    by (apply sortDesc_In; now left).
  rewrite E in H. destruct H.
Qed.

(** X7. None of the three handlers lets an exception escape, whatever the
    store and the transport do: the inbound handler settles, the send route
    and the conversation view always produce a response; and the store
    calls of the view leave contacts and messages as they were, also when
    the view fails, in which case it answers 500 with the error's message. *)
Theorem handlers_never_throw :
  (forall msg env w,
      exists w', Inbound.onMessage msg env w = Rt.Returned tt w')
  /\ (forall req env w,
         exists r w', Send.send req env w = Rt.Returned r w')
  /\ (forall env w,
         exists r w',
           Conversations.get env w = Rt.Returned r w'
           /\ Rt.contacts w' = Rt.contacts w
           /\ Rt.messages w' = Rt.messages w
           /\ (forall msg, Rt.faults env Rt.MessageAggregate = Some msg ->
                           r = Conversations.Failure 500 msg)
           /\ (forall msg, Rt.messages w <> [] ->
                           Rt.faults env Rt.MessageAggregate = None ->
                           Rt.faults env Rt.MessageFindOne = Some msg ->
                           Rt.faults env Rt.ContactFindById = None ->
                           r = Conversations.Failure 500 msg)).
Proof.
  split; [| split].
  - intros msg env w. unfold Inbound.onMessage.
    match goal with
    | |- exists w', Rt.tryCatch ?c ?h env w = _ =>
        destruct (tryCatch_returns c h env w) as ([] & w2 & H)
    end; [| now exists w2].
    intros e w1. now eexists _, _.
  - intros req env w. unfold Send.send. apply tryCatch_returns.
    intros e w1. now eexists _, _.
  - intros env w. unfold Conversations.get, Rt.tryCatch.
    unfold Rt.bind at 1. unfold Conversations.aggregate, Rt.dbCall.
    unfold Rt.bind at 1. unfold Rt.askEnv.
    destruct (Rt.faults env Rt.MessageAggregate) as [m0 |] eqn:Ea.
    { eexists _, _. split; [reflexivity |]. repeat split.
      - intros msg H. now injection H as <-.
      - intros msg _ H. discriminate. }
    unfold Rt.bind at 1. unfold Rt.getWorld, Rt.ret. unfold Rt.bind at 1.
    pose proof (mapM_populate_store
                  env (Conversations.sortDesc (Conversations.group (Rt.messages w)))
                  w) as [Hc Hm].
    destruct (Conversations.mapM Conversations.populate
                (Conversations.sortDesc (Conversations.group (Rt.messages w)))
                env w) as [sums w1 | e w1] eqn:Em; simpl in Hc, Hm.
    + eexists _, _. split; [reflexivity |]. repeat split; try assumption.
      * intros msg H. discriminate.
      * intros msg Hne _ Hf Hcf. exfalso.
        pose proof (sortDesc_nonempty _ (group_nonempty _ Hne)) as Hs.
        destruct (Conversations.sortDesc (Conversations.group (Rt.messages w)))
          as [| conv r]; [congruence |].
        revert Em. simpl. unfold Rt.bind at 1.
        unfold Conversations.populate. unfold Rt.bind at 1.
        assert (Hfc : exists c, Conversations.findContact
                                  (Conversations._id conv) env w
                                = Rt.Returned c w).
        { unfold Conversations.findContact.
          destruct (Conversations._id conv).
          - rewrite findById_ok by assumption. now eexists.
          - rewrite dbCall_ok by assumption. now eexists. }
        destruct Hfc as [c ->]. unfold Rt.bind at 1.
        unfold Conversations.findLast.
        rewrite (dbCall_fail env w _ _ msg Hf). discriminate.
    + eexists _, _. split; [reflexivity |]. repeat split; try assumption.
      * intros msg H. discriminate.
      * intros msg Hne _ Hf Hcf.
        pose proof (sortDesc_nonempty _ (group_nonempty _ Hne)) as Hs.
        destruct (Conversations.sortDesc (Conversations.group (Rt.messages w)))
          as [| conv r]; [congruence |].
        revert Em. simpl. unfold Rt.bind at 1.
        unfold Conversations.populate. unfold Rt.bind at 1.
        assert (Hfc : exists c, Conversations.findContact
                                  (Conversations._id conv) env w
                                = Rt.Returned c w).
        { unfold Conversations.findContact.
          destruct (Conversations._id conv).
          - rewrite findById_ok by assumption. now eexists.
          - rewrite dbCall_ok by assumption. now eexists. }
        destruct Hfc as [c ->]. unfold Rt.bind at 1.
        unfold Conversations.findLast.
        rewrite (dbCall_fail env w _ _ msg Hf).
        intro H. inversion H. reflexivity.
Qed.

Lemma handlers_never_throw_witness :
  exists r w',
    Conversations.get Fixtures.brokenStoreEnv Fixtures.answeredWorld
    = Rt.Returned r w'.
Proof.
  destruct (proj2 (proj2 handlers_never_throw)
                  Fixtures.brokenStoreEnv Fixtures.answeredWorld)
    as (r & w' & H & _).
  now exists r, w'.
Defined.

(** ** Order and totals of the conversation view *)

Lemma handle_Forall2 env w sums :
  Conversations.handle env w = Conversations.Json sums ->
  Forall2 (Spec.summarizes (Rt.contacts w) (Rt.messages w))
          (Conversations.sortDesc (Conversations.group (Rt.messages w))) sums.
Proof.
  unfold Conversations.handle, Conversations.get, Rt.tryCatch.
  unfold Rt.bind at 1. unfold Conversations.aggregate, Rt.dbCall.
  unfold Rt.bind at 1. unfold Rt.askEnv.
  destruct (Rt.faults env Rt.MessageAggregate); [discriminate |].
  unfold Rt.bind at 1. unfold Rt.getWorld, Rt.ret. unfold Rt.bind at 1.
  destruct (Conversations.mapM Conversations.populate
              (Conversations.sortDesc (Conversations.group (Rt.messages w)))
              env w) as [ss w1 | e w1] eqn:E; [| discriminate].
  intro H. inversion H; subst.
  now apply mapM_populate_returned in E as (_ & _ & HF).
Qed.

(** The [$max] of a group is the instant of one of its messages and bounds
    them all. *)
Lemma group_peak ms g :
  In g (Conversations.group ms) ->
  (exists m, In m (Conversations.ofContact (Conversations._id g) ms)
             /\ MessageSchema.timestamp m = Conversations.lastMessage g)
  /\ (forall m, In m (Conversations.ofContact (Conversations._id g) ms) ->
                (MessageSchema.timestamp m <= Conversations.lastMessage g)%Z).
Proof.
  revert g. induction ms as [| m ms IH] using rev_ind; intros g Hg;
    [destruct Hg |].
  rewrite group_snoc in Hg.
  destruct (group_invariant ms) as (Hnd & Hcov & _).
  rewrite ofContact_snoc.
  destruct (accumulate_members m (Conversations.group ms) g Hnd Hg)
    as [[H1 H2] | [(g0 & H1 & H2 & ->) | [H1 ->]]].
  - apply key_eqb_neq in H2. rewrite H2, app_nil_r. now apply IH.
  - destruct (IH g0 H1) as [(x & Hx & Hxt) Hub].
    unfold Spec.joined. simpl.
    rewrite (proj2 (key_eqb_eq _ _) H2). split.
    + destruct (Z.le_ge_cases (Conversations.lastMessage g0)
                              (MessageSchema.timestamp m)) as [L | L].
      * exists m. split; [apply in_or_app; right; now left | lia].
      * exists x. split; [apply in_or_app; now left | lia].
    + intros y Hy. apply in_app_or in Hy as [Hy | [<- | []]]; [| lia].
      specialize (Hub y Hy). lia.
  - unfold Spec.opened. simpl. rewrite key_eqb_refl.
    assert (Hnone : Conversations.ofContact (MessageSchema.contactId m) ms = []).
    { destruct (Conversations.ofContact (MessageSchema.contactId m) ms)
        as [| x r] eqn:F; [reflexivity |].
      assert (Hx : In x (Conversations.ofContact (MessageSchema.contactId m) ms))
        by (rewrite F; now left).
      unfold Conversations.ofContact in Hx.
      apply filter_In in Hx as [Hx Hk]. apply key_eqb_eq in Hk.
      exfalso. apply H1. rewrite Hk. now apply Hcov. }
    rewrite Hnone. simpl. split.
    + exists m. split; [now left | reflexivity].
    + intros y [<- | []]. lia.
Qed.

Lemma insertDesc_descending c l :
  Notions.descending (map Conversations.lastMessage l) ->
  Notions.descending (map Conversations.lastMessage (Conversations.insertDesc c l)).
Proof.
  induction l as [| x r IH]; [intros _; exact I |].
  intro H. simpl.
  destruct (Conversations.lastMessage x <=? Conversations.lastMessage c)%Z eqn:E.
  - apply Z.leb_le in E. simpl. split; [exact E | exact H].
  - apply Z.leb_gt in E.
    destruct r as [| y r'].
    + simpl. split; [lia | exact I].
    + simpl in H. destruct H as [Hxy Hr]. specialize (IH Hr).
      simpl in IH |- *.
      destruct (Conversations.lastMessage y <=? Conversations.lastMessage c)%Z;
        simpl in IH |- *; (split; [lia | exact IH]).
Qed.

Lemma sortDesc_descending l :
  Notions.descending (map Conversations.lastMessage (Conversations.sortDesc l)).
Proof.
  induction l as [| x r IH]; [exact I |]. simpl. now apply insertDesc_descending.
Qed.

(** X8. Read from a store that is not written to while the view is
    computed, the summaries of the view come newest conversation first: each
    one shows a message, and the instants of the messages shown never
    increase along the list. *)
Theorem view_is_sorted_newest_first :
  forall (env : Rt.Env) (w : Rt.World) sums,
    Conversations.handle env w = Conversations.Json sums ->
    exists instants,
      map Notions.shownAt sums = map Some instants
      /\ Notions.descending instants.
Proof.
  intros env w sums H.
  exists (map Conversations.lastMessage
              (Conversations.sortDesc (Conversations.group (Rt.messages w)))).
  split; [| apply sortDesc_descending].
  apply handle_Forall2 in H.
  assert (Hin : forall g,
             In g (Conversations.sortDesc (Conversations.group (Rt.messages w))) ->
             In g (Conversations.group (Rt.messages w)))
    by (intros g; apply sortDesc_In).
  induction H as [| conv s convs ss Hs _ IH]; [reflexivity |].
  simpl. f_equal; [| apply IH; intros g Hg; apply Hin; now right].
  destruct Hs as (_ & _ & _ & _ & S5). cbv zeta in S5.
  destruct (group_peak _ conv (Hin conv (or_introl eq_refl)))
    as [(x & Hx & Hxt) Hub].
  assert (Hne : Conversations.ofContact (Conversations._id conv) (Rt.messages w)
                <> []) by (intro E; rewrite E in Hx; destruct Hx).
  destruct (newest_nonempty _ Hne) as (m & Hm & Hmin).
  rewrite Hm in S5. unfold Notions.shownAt. rewrite S5. simpl. f_equal.
  pose proof (newest_is_latest _ m Hm x Hx). specialize (Hub m Hmin). lia.
Qed.

Lemma view_is_sorted_newest_first_witness :
  exists sums instants,
    Conversations.handle Fixtures.calmEnv Samples.twoChats
    = Conversations.Json sums
    /\ map Conversations.s_contact sums = [Some Samples.bob; Some Fixtures.alice]
    /\ map Notions.shownAt sums = [Some 3000%Z; Some 2000%Z]
    /\ map Notions.shownAt sums = map Some instants
    /\ Notions.descending instants.
Proof.
  eexists.
  destruct (view_is_sorted_newest_first Fixtures.calmEnv Samples.twoChats _
                                        eq_refl)
    as (instants & H1 & H2).
  exists instants.
  split; [reflexivity |]. split; [reflexivity |]. split; [reflexivity |].
  split; [exact H1 | exact H2].
Defined.

Lemma accumulate_sums m gs :
  list_sum (map Conversations.messageCount (Conversations.accumulate m gs))
  = list_sum (map Conversations.messageCount gs) + 1
  /\ list_sum (map Conversations.unreadCount (Conversations.accumulate m gs))
     = list_sum (map Conversations.unreadCount gs) + Conversations.inboundUnit m.
Proof.
  induction gs as [| g r [IH1 IH2]]; simpl; [split; lia |].
  destruct (Conversations.key_eqb (Conversations._id g) (MessageSchema.contactId m));
    simpl; split; lia.
Qed.

Lemma group_sums ms :
  list_sum (map Conversations.messageCount (Conversations.group ms))
  = List.length ms
  /\ list_sum (map Conversations.unreadCount (Conversations.group ms))
     = List.length
         (filter (fun m => Direction_eqb (MessageSchema.direction m) inbound) ms).
Proof.
  induction ms as [| m ms [IH1 IH2]] using rev_ind; [split; reflexivity |].
  rewrite group_snoc, filter_app, !length_app.
  destruct (accumulate_sums m (Conversations.group ms)) as [-> ->].
  rewrite IH1, IH2. simpl. unfold Conversations.inboundUnit.
  destruct (Direction_eqb (MessageSchema.direction m) inbound); split; reflexivity.
Qed.

Lemma insertDesc_sum (f : Conversations.Conv -> nat) c l :
  list_sum (map f (Conversations.insertDesc c l)) = f c + list_sum (map f l).
Proof.
  induction l as [| x r IH]; [reflexivity |]. simpl.
  destruct (Conversations.lastMessage x <=? Conversations.lastMessage c)%Z;
    simpl; [reflexivity |]. rewrite IH. lia.
Qed.

Lemma sortDesc_sum (f : Conversations.Conv -> nat) l :
  list_sum (map f (Conversations.sortDesc l)) = list_sum (map f l).
Proof.
  induction l as [| x r IH]; [reflexivity |]. simpl.
  now rewrite insertDesc_sum, IH.
Qed.

(** X9. The view accounts for every stored message once: the message
    counts of its summaries add up to the number of messages in the store,
    and their unread counts to the number of inbound messages. *)
Theorem view_counts_add_up :
  forall (env : Rt.Env) (w : Rt.World) sums,
    Conversations.handle env w = Conversations.Json sums ->
    list_sum (map Conversations.s_messageCount sums)
    = List.length (Rt.messages w)
    /\ list_sum (map Conversations.s_unreadCount sums)
       = List.length
           (filter (fun m => Direction_eqb (MessageSchema.direction m) inbound)
                   (Rt.messages w)).
Proof.
  intros env w sums H. apply handle_Forall2 in H.
  destruct (group_sums (Rt.messages w)) as [G1 G2].
  rewrite <- G1, <- G2.
  rewrite <- (sortDesc_sum Conversations.messageCount),
          <- (sortDesc_sum Conversations.unreadCount).
  induction H as [| conv s convs ss Hs _ [IH1 IH2]]; [split; reflexivity |].
  destruct Hs as (_ & S2 & S3 & _). simpl. rewrite S2, S3, IH1, IH2.
  split; reflexivity.
Qed.

Lemma view_counts_add_up_witness :
  exists sums,
    Conversations.handle Fixtures.calmEnv Fixtures.answeredWorld
    = Conversations.Json sums
    /\ list_sum (map Conversations.s_messageCount sums) = 2.
Proof.
  eexists. split; [reflexivity |].
  exact (proj1 (view_counts_add_up Fixtures.calmEnv Fixtures.answeredWorld _
                                   eq_refl)).
Defined.

(** ** What the pipelines do to the contacts, on every path *)

Lemma Contact_create_effect env w d :
  (Rt.Contact.create d env w = Rt.Threw
                                 match Rt.faults env Rt.ContactCreate with
                                 | Some msg => Rt.mkError msg
                                 | None => Rt.mkError ""
                                 end w
   /\ Rt.faults env Rt.ContactCreate <> None)
  \/ Rt.Contact.create d env w
     = Rt.Returned (ContactSchema.build (Rt.nextId w) d)
         {| Rt.contacts := Rt.contacts w ++ [ContactSchema.build (Rt.nextId w) d];
            Rt.messages := Rt.messages w; Rt.nextId := S (Rt.nextId w);
            Rt.ticks := Rt.ticks w; Rt.errorLog := Rt.errorLog w |}.
Proof.
  unfold Rt.Contact.create, Rt.dbCall, Rt.bind, Rt.askEnv.
  destruct (Rt.faults env Rt.ContactCreate); [left | right; reflexivity].
  split; [reflexivity | discriminate].
Qed.

Lemma inbound_contacts env msg w :
  let phone := Js.removeFirst "@c.us" (Inbound.from msg) in
  let t := (Inbound.timestamp msg * 1000)%Z in
  let known :=
    find (fun c => String.eqb (ContactSchema.phone c) phone) (Rt.contacts w) in
  let w' := Inbound.handle msg env w in
  Rt.contacts w' = Rt.contacts w
  \/ (exists c, known = Some c
                /\ Rt.contacts w'
                   = Rt.replaceContact (Inbound.touch t c) (Rt.contacts w))
  \/ (known = None
      /\ exists name,
           Rt.contacts w'
           = (Rt.contacts w
              ++ [{| ContactSchema._id := Rt.nextId w;
                     ContactSchema.name := name;
                     ContactSchema.phone := phone;
                     ContactSchema.queryStatus := qs_new;
                     ContactSchema.unreadCount := Some 1;
                     ContactSchema.lastContacted := Some t |}])%list).
Proof.
  intros phone t known w'.
  set (P := fun x : Rt.World =>
              Rt.contacts x = Rt.contacts w
              \/ (exists c, known = Some c
                            /\ Rt.contacts x
                               = Rt.replaceContact (Inbound.touch t c) (Rt.contacts w))
              \/ (known = None
                  /\ exists name,
                       Rt.contacts x
                       = (Rt.contacts w
                          ++ [{| ContactSchema._id := Rt.nextId w;
                                 ContactSchema.name := name;
                                 ContactSchema.phone := phone;
                                 ContactSchema.queryStatus := qs_new;
                                 ContactSchema.unreadCount := Some 1;
                                 ContactSchema.lastContacted := Some t |}])%list)).
  change (P w'). unfold w', Inbound.handle, Inbound.onMessage, Rt.tryCatch.
  unfold Rt.bind, Rt.Contact.findOne, Rt.dbCall, Rt.bind, Rt.askEnv,
    Rt.getWorld, Rt.ret.
  fold phone.
  destruct (Rt.faults env Rt.ContactFindOne); [now left |].
  fold known.
  assert (Hfinish :
            forall d w1 (label : string),
              P w1 ->
              P match
                  match
                    match Rt.Message.create d env w1 with
                    | Rt.Returned _ w2 => Rt.Returned tt w2
                    | Rt.Threw e w2 => Rt.Threw e w2
                    end
                  with
                  | Rt.Returned a w2 => Rt.Returned a w2
                  | Rt.Threw e w2 => Rt.consoleError label e env w2
                  end
                with
                | Rt.Returned _ w2 => w2
                | Rt.Threw _ w2 => w2
                end).
  { intros d w1 label Hp.
    pose proof (Message_create_effect env w1 d) as [Hc _].
    destruct (Rt.Message.create d env w1); simpl in Hc |- *;
      unfold P in *; rewrite Hc; exact Hp. }
  destruct known as [c |] eqn:Hk.
  - unfold Rt.Contact.save, Rt.dbCall, Rt.bind, Rt.askEnv, Rt.getWorld,
      Rt.putWorld.
    destruct (Rt.faults env Rt.ContactSave); [now left |].
    apply Hfinish. right; left. exists c. split; reflexivity.
  - rewrite contactNameFor_returns.
    match goal with
    | |- context [Rt.Contact.create ?d env w] =>
        destruct (Contact_create_effect env w d) as [[-> _] | ->]
    end; [now left |].
    apply Hfinish. right; right. split; [reflexivity |]. eexists. reflexivity.
Qed.

Lemma saveToDatabase_contacts env w cid cleaned text :
  Spec.uniqueIds w ->
  let w' := Rt.worldOf (Send.saveToDatabase cid cleaned text env w) in
  Rt.contacts w' = Rt.contacts w
  \/ (exists c now,
         Spec.resolve cid cleaned w = Some c
         /\ Rt.contacts w'
            = Rt.replaceContact (Spec.responded now c) (Rt.contacts w))
  \/ (Spec.resolve cid cleaned w = None
      /\ exists name,
           Rt.contacts w'
           = (Rt.contacts w
              ++ [{| ContactSchema._id := Rt.nextId w;
                     ContactSchema.name := name;
                     ContactSchema.phone := cleaned;
                     ContactSchema.queryStatus := qs_new;
                     ContactSchema.unreadCount := Some 0;
                     ContactSchema.lastContacted := None |}])%list).
Proof.
  intros Hu w'.
  set (P := fun x : Rt.World =>
              Rt.contacts x = Rt.contacts w
              \/ (exists c now,
                     Spec.resolve cid cleaned w = Some c
                     /\ Rt.contacts x
                        = Rt.replaceContact (Spec.responded now c) (Rt.contacts w))
              \/ (Spec.resolve cid cleaned w = None
                  /\ exists name,
                       Rt.contacts x
                       = (Rt.contacts w
                          ++ [{| ContactSchema._id := Rt.nextId w;
                                 ContactSchema.name := name;
                                 ContactSchema.phone := cleaned;
                                 ContactSchema.queryStatus := qs_new;
                                 ContactSchema.unreadCount := Some 0;
                                 ContactSchema.lastContacted := None |}])%list)).
  change (P w'). unfold w', Send.saveToDatabase. unfold Rt.bind at 1.
  destruct (match cid with
            | Some id => Rt.Contact.findById id
            | None => Rt.Contact.findOne cleaned
            end env w) as [found w0 | e w0] eqn:El.
  2:{ pose proof (lookup_keeps_world env cid cleaned w) as Hl.
      rewrite El in Hl. simpl in Hl. subst w0. now left. }
  apply lookup_returned in El as [-> Hfound].
  unfold Rt.bind at 1. unfold Rt.newDate at 1.
  destruct found as [c |].
  - unfold Rt.bind at 1.
    match goal with
    | |- context [Rt.Message.create ?d env ?w1] =>
        pose proof (Message_create_effect env w1 d) as [Hc _];
        destruct (Rt.Message.create d env w1) as [m w2 | e w2]
    end; simpl in Hc; [| now left].
    unfold Rt.bind at 1. unfold Rt.newDate at 1. unfold Rt.bind at 1.
    unfold Rt.Contact.findByIdAndUpdate, Rt.dbCall. unfold Rt.bind at 1.
    unfold Rt.askEnv.
    destruct (Rt.faults env Rt.ContactFindByIdAndUpdate); [now left |].
    unfold Rt.bind at 1. unfold Rt.getWorld. cbn [Rt.contacts].
    rewrite Hc.
    rewrite (lookup_unique c (Rt.contacts w) Hu
               (resolve_in _ _ _ _ (eq_sym Hfound))).
    unfold Rt.bind, Rt.putWorld, Rt.ret, Rt.set_contacts. simpl.
    unfold P. simpl. right; left.
    exists c, (Rt.clock env (Rt.ticks w2)). split; [now symmetry |].
    destruct c as [id nm ph qs ur lc]. destruct qs; reflexivity.
  - unfold Rt.bind at 1.
    match goal with
    | |- context [Rt.Contact.create ?d env ?w1] =>
        destruct (Contact_create_effect env w1 d) as [[-> _] | ->]
    end; [now left |].
    unfold Rt.bind at 1.
    match goal with
    | |- context [Rt.Message.create ?d env ?w1] =>
        pose proof (Message_create_effect env w1 d) as [Hc _];
        destruct (Rt.Message.create d env w1) as [m w2 | e w2]
    end; simpl in Hc; unfold P; simpl; rewrite Hc;
      (right; right; split; [now symmetry | eexists; reflexivity]).
Qed.

(** ** Inbound events whose message cannot be stored *)



(** ** One contact per phone *)

Lemma same_id_same_doc cs x c :
  NoDup (map ContactSchema._id cs) -> In x cs -> In c cs ->
  ContactSchema._id x = ContactSchema._id c -> x = c.
Proof.
  intros Hnd Hx Hc E.
  pose proof (lookup_unique x cs Hnd Hx) as H1.
  pose proof (lookup_unique c cs Hnd Hc) as H2.
  rewrite E, H2 in H1. now injection H1.
Qed.

Lemma replaceContact_phones c' c cs :
  NoDup (map ContactSchema._id cs) -> In c cs ->
  ContactSchema._id c' = ContactSchema._id c ->
  ContactSchema.phone c' = ContactSchema.phone c ->
  map ContactSchema.phone (Rt.replaceContact c' cs) = map ContactSchema.phone cs.
Proof.
  intros Hnd Hc Hid Hph.
  assert (G : forall l, (forall x, In x l -> In x cs) ->
                        map ContactSchema.phone (Rt.replaceContact c' l)
                        = map ContactSchema.phone l).
  { induction l as [| x r IH]; intros Hsub; [reflexivity |]. simpl.
    destruct (ContactSchema._id x =? ContactSchema._id c')%nat eqn:E; simpl.
    - apply Nat.eqb_eq in E. f_equal. rewrite Hph. f_equal. symmetry.
      apply (same_id_same_doc cs x c Hnd); [apply Hsub; now left | exact Hc |].
      now rewrite E.
    - f_equal. apply IH. intros y Hy. apply Hsub. now right. }
  apply G. auto.
Qed.

Lemma phones_snoc cs (p : ContactSchema.doc) :
  NoDup (map ContactSchema.phone cs) ->
  find (fun c => String.eqb (ContactSchema.phone c) (ContactSchema.phone p)) cs
  = None ->
  NoDup (map ContactSchema.phone (cs ++ [p])).
Proof.
  intros Hnd Hf. rewrite map_app. simpl.
  apply NoDup_app; [exact Hnd | repeat constructor; intros [] |].
  intros a Ha [<- | []].
  apply in_map_iff in Ha as (x & Hx & Hin).
  pose proof (find_none _ _ Hf x Hin) as Hn. simpl in Hn.
  rewrite Hx, String.eqb_refl in Hn. discriminate.
Qed.

(** *** The ids a handler uses up *)

Lemma grows_refl w : Notions.grows w w.
Proof. split; [lia | now left]. Qed.

Lemma grows_trans w1 w2 w3 :
  Notions.grows w1 w2 -> Notions.grows w2 w3 -> Notions.grows w1 w3.
Proof.
  intros [H1 [E1 | L1]] [H2 [E2 | L2]]; (split; [lia |]);
    [left; congruence | right; lia ..].
Qed.

Lemma replaceContact_length c cs :
  List.length (Rt.replaceContact c cs) = List.length cs.
Proof.
  induction cs as [| x r IH]; [reflexivity |]. simpl.
  destruct (ContactSchema._id x =? ContactSchema._id c)%nat; simpl;
    [reflexivity | now rewrite IH].
Qed.

Section Tame.
Import Rt.

Lemma tame_ret {A} (a : A) : Notions.tame (ret a).
Proof. intros env w. apply grows_refl. Qed.

Lemma tame_throw {A} e : Notions.tame (@throw A e).
Proof. intros env w. apply grows_refl. Qed.

Lemma tame_askEnv : Notions.tame askEnv.
Proof. intros env w. apply grows_refl. Qed.

Lemma tame_newDate : Notions.tame newDate.
Proof. intros env w. split; [simpl; lia | now left]. Qed.

Lemma tame_consoleError label e : Notions.tame (consoleError label e).
Proof. intros env w. split; [simpl; lia | now left]. Qed.

Lemma tame_bind {A B} (c : M A) (k : A -> M B) :
  Notions.tame c -> (forall a, Notions.tame (k a)) -> Notions.tame (bind c k).
Proof.
  intros Hc Hk env w. unfold bind. specialize (Hc env w).
  destruct (c env w) as [a w1 | e w1]; simpl in Hc |- *; [| exact Hc].
  eapply grows_trans; [exact Hc | apply Hk].
Qed.

Lemma tame_tryCatch {A} (c : M A) (h : JsError -> M A) :
  Notions.tame c -> (forall e, Notions.tame (h e)) ->
  Notions.tame (tryCatch c h).
Proof.
  intros Hc Hh env w. unfold tryCatch. specialize (Hc env w).
  destruct (c env w) as [a w1 | e w1]; simpl in Hc |- *; [exact Hc |].
  eapply grows_trans; [exact Hc | apply Hh].
Qed.

Lemma tame_findOne phone : Notions.tame (Contact.findOne phone).
Proof.
  intros env w. unfold Contact.findOne, dbCall, bind, askEnv, getWorld, ret.
  destruct (faults env ContactFindOne); apply grows_refl.
Qed.

Lemma tame_findById id : Notions.tame (Contact.findById id).
Proof.
  intros env w. unfold Contact.findById, dbCall, bind, askEnv, getWorld, ret.
  destruct (faults env ContactFindById); apply grows_refl.
Qed.

Lemma tame_Contact_create d : Notions.tame (Contact.create d).
Proof.
  intros env w.
  unfold Contact.create, dbCall, bind, askEnv, getWorld, putWorld, ret.
  destruct (faults env ContactCreate); [apply grows_refl |].
  split; [simpl; lia | right; simpl; lia].
Qed.

Lemma tame_Contact_save c : Notions.tame (Contact.save c).
Proof.
  intros env w.
  unfold Contact.save, dbCall, bind, askEnv, getWorld, putWorld, ret.
  destruct (faults env ContactSave); [apply grows_refl |].
  split; [simpl; lia | left; simpl; apply replaceContact_length].
Qed.

Lemma tame_findByIdAndUpdate id u :
  Notions.tame (Contact.findByIdAndUpdate id u).
Proof.
  intros env w.
  unfold Contact.findByIdAndUpdate, dbCall, bind, askEnv, getWorld, putWorld,
    ret.
  destruct (faults env ContactFindByIdAndUpdate); [apply grows_refl |].
  destruct (lookupContact id (contacts w)); [| apply grows_refl].
  split; [simpl; lia | left; simpl; apply replaceContact_length].
Qed.

Lemma tame_Message_create d : Notions.tame (Message.create d).
Proof.
  intros env w.
  unfold Message.create, dbCall, bind, askEnv, getWorld, putWorld, ret, throw.
  destruct (faults env MessageCreate); [apply grows_refl |].
  destruct (negb (Js.truthy (MessageSchema.d_phone d))); [apply grows_refl |].
  destruct (negb (Js.truthy (MessageSchema.d_message d)));
    [apply grows_refl |].
  split; [simpl; lia | now left].
Qed.

End Tame.

Ltac tame_step :=
  match goal with
  | |- Notions.tame (Rt.bind _ _) => apply tame_bind; [| intro]
  | |- Notions.tame (Rt.tryCatch _ _) => apply tame_tryCatch; [| intro]
  | |- Notions.tame (Rt.ret _) => apply tame_ret
  | |- Notions.tame (Rt.throw _) => apply tame_throw
  | |- Notions.tame Rt.askEnv => apply tame_askEnv
  | |- Notions.tame Rt.newDate => apply tame_newDate
  | |- Notions.tame (Rt.consoleError _ _) => apply tame_consoleError
  | |- Notions.tame (Rt.Contact.findOne _) => apply tame_findOne
  | |- Notions.tame (Rt.Contact.findById _) => apply tame_findById
  | |- Notions.tame (Rt.Contact.create _) => apply tame_Contact_create
  | |- Notions.tame (Rt.Contact.save _) => apply tame_Contact_save
  | |- Notions.tame (Rt.Contact.findByIdAndUpdate _ _) =>
      apply tame_findByIdAndUpdate
  | |- Notions.tame (Rt.Message.create _) => apply tame_Message_create
  | |- Notions.tame (Send.reject _ _) => apply tame_ret
  | |- Notions.tame (match ?x with _ => _ end) => destruct x
  end.

Lemma tame_onMessage msg : Notions.tame (Inbound.onMessage msg).
Proof.
  unfold Inbound.onMessage, Inbound.contactNameFor. cbv zeta.
  repeat tame_step.
Qed.

Lemma tame_send req : Notions.tame (Send.send req).
Proof.
  unfold Send.send, Send.saveToDatabase, Send.classifySendError. cbv zeta.
  repeat tame_step.
Qed.

Lemma inbound_grows msg env w : Notions.grows w (Inbound.handle msg env w).
Proof.
  pose proof (tame_onMessage msg env w) as H. unfold Inbound.handle.
  now destruct (Inbound.onMessage msg env w).
Qed.

Lemma send_grows req env w : Notions.grows w (snd (Send.handle req env w)).
Proof.
  pose proof (tame_send req env w) as H. unfold Send.handle.
  now destruct (Send.send req env w).
Qed.

(** A store stays well formed when a handler has left the contacts alone,
    has rewritten one of them under its id and phone, or has added one
    under the next id for a phone that had none. *)
Lemma wellFormed_kept w w' :
  Notions.wellFormed w ->
  Notions.grows w w' ->
  Rt.contacts w' = Rt.contacts w
  \/ (exists c c',
         In c (Rt.contacts w)
         /\ ContactSchema._id c' = ContactSchema._id c
         /\ ContactSchema.phone c' = ContactSchema.phone c
         /\ Rt.contacts w' = Rt.replaceContact c' (Rt.contacts w))
  \/ (exists p,
         ContactSchema._id p = Rt.nextId w
         /\ find (fun c => String.eqb (ContactSchema.phone c)
                                      (ContactSchema.phone p))
                 (Rt.contacts w) = None
         /\ Rt.contacts w' = (Rt.contacts w ++ [p])%list) ->
  Notions.wellFormed w'.
Proof.
  intros (Hu & Hf & Hp) [Hle Hlen] Hc.
  unfold Notions.wellFormed, Spec.uniqueIds, Notions.freshIds in *.
  destruct Hc as [E | [(c & c' & Hin & Hid & Hph & E) | (p & Hid & Hnone & E)]];
    rewrite E in *.
  - split; [exact Hu |]. split; [| exact Hp].
    intros x Hx. specialize (Hf x Hx). lia.
  - split; [now rewrite replaceContact_ids |].
    split; [| now rewrite (replaceContact_phones c' c)].
    intros x Hx.
    assert (Hxi : In (ContactSchema._id x)
                     (map ContactSchema._id (Rt.contacts w))).
    { rewrite <- (replaceContact_ids c'). now apply in_map. }
    apply in_map_iff in Hxi as (y & Hy & Hyin).
    specialize (Hf y Hyin). lia.
  - assert (Hlt : Rt.nextId w < Rt.nextId w').
    { destruct Hlen as [Hlen | Hlt]; [| exact Hlt].
      rewrite length_app in Hlen. simpl in Hlen. lia. }
    split; [| split; [| now apply phones_snoc]].
    + rewrite map_app. simpl.
      apply NoDup_app; [exact Hu | repeat constructor; intros [] |].
      intros a Ha [<- | []].
      apply in_map_iff in Ha as (x & Hx & Hxin).
      specialize (Hf x Hxin). lia.
    + intros x Hx. apply in_app_or in Hx as [Hx | [<- | []]];
        [specialize (Hf x Hx) |]; lia.
Qed.

(** X11. With handlers run one at a time, each to its end before the next
    starts, the pipelines keep the contacts of the store well formed: when
    contact ids are unique and lie below the id the store hands out next,
    and no two contacts share a phone, all of this still holds after an
    inbound event, after a send that names no contact id, and so after any
    sequence of them, whatever the store and the transport do.  Run alone,
    these paths create a contact only for a phone that has none.  Handlers
    that overlap at an await are outside this statement. *)
Theorem pipelines_keep_one_contact_per_phone :
  forall (w : Rt.World),
    Notions.wellFormed w ->
    (forall msg env, Notions.wellFormed (Inbound.handle msg env w))
    /\ (forall req env,
           Send.contactId req = None ->
           Notions.wellFormed (snd (Send.handle req env w)))
    /\ (forall jobs,
           Forall Notions.byPhone jobs ->
           Notions.wellFormed (fold_left Notions.perform jobs w)).
Proof.
  assert (Hin : forall w msg env,
             Notions.wellFormed w ->
             Notions.wellFormed (Inbound.handle msg env w)).
  { intros w msg env Hw.
    apply (wellFormed_kept w); [exact Hw | apply inbound_grows |].
    destruct (inbound_contacts env msg w)
      as [E | [(c & Hk & E) | (Hk & name & E)]].
    - now left.
    - right; left.
      pose proof (touch_fields (Inbound.timestamp msg * 1000) c)
        as (Hid & _ & Hph & _).
      exists c, (Inbound.touch (Inbound.timestamp msg * 1000) c).
      split; [now apply find_some in Hk |]. now repeat split.
    - right; right. eexists. split; [| split; [| exact E]]; [reflexivity |].
      exact Hk. }
  assert (Hout : forall w req env,
             Notions.wellFormed w ->
             Send.contactId req = None ->
             Notions.wellFormed (snd (Send.handle req env w))).
  { intros w req env Hw Hcid.
    apply (wellFormed_kept w); [exact Hw | apply send_grows |].
    destruct (Spec.dispatch req env) as [[cleaned serialized] |] eqn:Hd.
    - rewrite (send_dispatched req env w cleaned serialized Hd).
      pose proof (saveToDatabase_contacts env w (Send.contactId req) cleaned
                                          (Send.message req) (proj1 Hw)) as Hc.
      cbv zeta in Hc.
      assert (Hgoal :
                let w1 := Rt.worldOf
                            (Send.saveToDatabase (Send.contactId req) cleaned
                                                 (Send.message req) env w) in
                Rt.contacts w1 = Rt.contacts w
                \/ (exists c c',
                       In c (Rt.contacts w)
                       /\ ContactSchema._id c' = ContactSchema._id c
                       /\ ContactSchema.phone c' = ContactSchema.phone c
                       /\ Rt.contacts w1 = Rt.replaceContact c' (Rt.contacts w))
                \/ (exists p,
                       ContactSchema._id p = Rt.nextId w
                       /\ find (fun c => String.eqb (ContactSchema.phone c)
                                                    (ContactSchema.phone p))
                               (Rt.contacts w) = None
                       /\ Rt.contacts w1 = (Rt.contacts w ++ [p])%list)).
      { cbv zeta.
        destruct Hc as [E | [(c & now & Hr & E) | (Hr & name & E)]].
        - now left.
        - right; left. exists c, (Spec.responded now c).
          split; [now apply resolve_in in Hr |]. now repeat split.
        - right; right. eexists.
          split; [| split; [| exact E]]; [reflexivity |].
          simpl. rewrite Hcid in Hr. exact Hr. }
      cbv zeta in Hgoal.
      destruct (Send.saveToDatabase (Send.contactId req) cleaned
                                    (Send.message req) env w); exact Hgoal.
    - left. exact (proj1 (undispatched_send_effect req env w Hd)). }
  intros w Hw. split; [intros; now apply Hin |].
  split; [intros; now apply Hout |].
  intros jobs. revert w Hw.
  induction jobs as [| j r IH]; intros w Hw Hj; [exact Hw |].
  inversion Hj as [| ? ? Hj1 Hjr]; subst. simpl. apply IH; [| exact Hjr].
  destruct j as [msg env | req env]; simpl in Hj1 |- *;
    [now apply Hin | now apply Hout].
Qed.

Lemma readWorld_uniqueIds : Spec.uniqueIds Fixtures.readWorld.
Proof. repeat constructor. intros []. Qed.

Lemma twoChats_wellFormed : Notions.wellFormed Samples.twoChats.
Proof.
  split; [| split].
  - repeat constructor; simpl; intuition discriminate.
  - intros c [<- | [<- | []]]; simpl; lia.
  - repeat constructor; simpl; intuition discriminate.
Qed.

Lemma pipelines_keep_one_contact_per_phone_witness :
  Notions.wellFormed
    (fold_left Notions.perform
               [Notions.Arrives Samples.stranger Fixtures.calmEnv;
                Notions.Sends Fixtures.request Fixtures.calmEnv;
                Notions.Arrives Fixtures.hello Fixtures.calmEnv]
               Samples.twoChats)
  /\ map ContactSchema.phone
         (Rt.contacts
            (fold_left Notions.perform
                       [Notions.Arrives Samples.stranger Fixtures.calmEnv;
                        Notions.Sends Fixtures.request Fixtures.calmEnv;
                        Notions.Arrives Fixtures.hello Fixtures.calmEnv]
                       Samples.twoChats))
     = ["15551234567"; "15557654321"; "15550001111"; "12345678901"].
Proof.
  split; [| reflexivity].
  apply (proj2 (proj2 (pipelines_keep_one_contact_per_phone
                         Samples.twoChats twoChats_wellFormed))).
  repeat constructor.
Defined.

(** ** A customer message and its answer *)

Lemma inbound_known env msg w c :
  Rt.faults env Rt.ContactFindOne = None ->
  Rt.faults env Rt.ContactSave = None ->
  find (fun x => String.eqb (ContactSchema.phone x)
                            (Js.removeFirst "@c.us" (Inbound.from msg)))
       (Rt.contacts w) = Some c ->
  Rt.contacts (Inbound.handle msg env w)
  = Rt.replaceContact (Inbound.touch (Inbound.timestamp msg * 1000) c)
                      (Rt.contacts w).
Proof.
  intros Hfind Hsave Hk.
  destruct (inbound_contacts env msg w)
    as [H | [(c0 & Hk0 & H) | (Hk0 & _)]].
  - revert H. unfold Inbound.handle, Inbound.onMessage, Rt.tryCatch, Rt.bind.
    rewrite (findOne_ok env w _ Hfind), Hk.
    rewrite Contact_save_ok by assumption. unfold Rt.ret. cbv beta iota.
    match goal with
    | |- context [Rt.Message.create ?d env ?w1] =>
        pose proof (Message_create_effect env w1 d) as [Hc _];
        destruct (Rt.Message.create d env w1)
    end; simpl in Hc |- *; rewrite Hc; simpl; intros <-; reflexivity.
  - rewrite Hk in Hk0. injection Hk0 as <-. exact H.
  - rewrite Hk in Hk0. discriminate.
Qed.

(** X13. When a known customer writes and an agent then answers that
    contact, the contact ends in status in-progress whatever its status
    was before (new, in-progress, resolved or closed); the answer sets
    lastContacted but leaves the unread count as the inbound message raised
    it: sending does not mark anything as read. *)
Theorem answered_customer_is_in_progress :
  forall (msg : Inbound.Msg) (env1 : Rt.Env) (req : Send.Request)
         (env2 : Rt.Env) (w : Rt.World) (c : ContactSchema.doc)
         (cleaned serialized : string),
    Rt.faults env1 Rt.ContactFindOne = None ->
    Rt.faults env1 Rt.ContactSave = None ->
    find (fun x => String.eqb (ContactSchema.phone x)
                              (Js.removeFirst "@c.us" (Inbound.from msg)))
         (Rt.contacts w) = Some c ->
    Spec.uniqueIds w ->
    Spec.healthy env2 ->
    Spec.dispatch req env2 = Some (cleaned, serialized) ->
    Send.contactId req = Some (ContactSchema._id c) ->
    let w1 := Inbound.handle msg env1 w in
    let w2 := snd (Send.handle req env2 w1) in
    exists c2,
      Rt.lookupContact (ContactSchema._id c) (Rt.contacts w2) = Some c2
      /\ ContactSchema.queryStatus c2 = qs_in_progress
      /\ ContactSchema.unreadCount c2
         = Some (Inbound.orZero (ContactSchema.unreadCount c) + 1)
      /\ ContactSchema.lastContacted c2 = Some (Rt.clock env2 (S (Rt.ticks w1)))
      /\ ContactSchema.phone c2 = ContactSchema.phone c
      /\ ContactSchema.name c2 = ContactSchema.name c.
Proof.
  intros msg env1 req env2 w c cleaned serialized Hfind Hsave Hk Hu Hh Hd Hcid
         w1 w2.
  set (t := (Inbound.timestamp msg * 1000)%Z).
  pose proof (inbound_known env1 msg w c Hfind Hsave Hk) as Hc1. fold w1 t in Hc1.
  pose proof (touch_fields t c) as (Tid & Tnm & Tph & Tur & Tlc & Tqs).
  assert (Hin : In c (Rt.contacts w)) by now apply find_some in Hk.
  assert (Hl1 : Rt.lookupContact (ContactSchema._id c) (Rt.contacts w1)
                = Some (Inbound.touch t c)).
  { rewrite Hc1, <- Tid. apply lookup_replaceContact.
    exists c. split; [exact Hin | now rewrite Tid]. }
  assert (Hu1 : Spec.uniqueIds w1).
  { unfold Spec.uniqueIds. rewrite Hc1, replaceContact_ids. exact Hu. }
  assert (Hr : Spec.resolve (Send.contactId req) cleaned w1
               = Some (Inbound.touch t c)).
  { rewrite Hcid. exact Hl1. }
  pose proof (send_dispatched req env2 w1 cleaned serialized Hd) as Hs.
  pose proof (dispatch_inv _ _ _ _ Hd) as (_ & _ & _ & Hv & Ht & _).
  pose proof (validatePhone_accepted _ _ Hv) as (_ & _ & Hp & _).
  assert (Htext : Js.truthy (Js.trim (Send.message req)) = true).
  { rewrite truthy_length, Ht. reflexivity. }
  rewrite (saveToDatabase_known env2 w1 _ _ _ Hh Hp Htext _ Hu1 Hr) in Hs.
  exists (Spec.responded (Rt.clock env2 (S (Rt.ticks w1))) (Inbound.touch t c)).
  split.
  - unfold w2. rewrite Hs. simpl. rewrite <- Tid.
    change (ContactSchema._id (Inbound.touch t c))
      with (ContactSchema._id
              (Spec.responded (Rt.clock env2 (S (Rt.ticks w1)))
                              (Inbound.touch t c))).
    apply lookup_replaceContact. exists (Inbound.touch t c).
    split; [| reflexivity].
    unfold Rt.lookupContact in Hl1. now apply find_some in Hl1.
  - unfold Spec.responded.
    cbn [ContactSchema.queryStatus ContactSchema.unreadCount
         ContactSchema.lastContacted ContactSchema.phone ContactSchema.name].
    rewrite Tqs, Tur, Tph, Tnm.
    repeat split. destruct (ContactSchema.queryStatus c); reflexivity.
Qed.

Lemma answered_customer_is_in_progress_witness :
  exists c2,
    Rt.lookupContact 0
      (Rt.contacts
         (snd (Send.handle
                 {| Send.phone := "+1 555 123 4567"; Send.message := "On it";
                    Send.contactId := Some 0 |}
                 Fixtures.calmEnv
                 (Inbound.handle Fixtures.hello Fixtures.calmEnv
                                 Fixtures.readWorld))))
    = Some c2
    /\ ContactSchema.queryStatus c2 = qs_in_progress
    /\ ContactSchema.unreadCount c2 = Some 1.
Proof.
  destruct (answered_customer_is_in_progress
              Fixtures.hello Fixtures.calmEnv
              {| Send.phone := "+1 555 123 4567"; Send.message := "On it";
                 Send.contactId := Some 0 |}
              Fixtures.calmEnv Fixtures.readWorld Fixtures.alice
              "15551234567" "true_12345678901@c.us_3EB0"
              eq_refl eq_refl eq_refl readWorld_uniqueIds calmEnv_healthy
              eq_refl eq_refl)
    as (c2 & Hl & Hq & Hur & _).
  exists c2. repeat split; assumption.
Defined.

(** ** Phone numbers there and back *)

Lemma removeFirst_digits_suffix c :
  Spec.onlyDigits c = true -> Js.removeFirst "@c.us" (c ++ "@c.us") = c.
Proof.
  induction c as [| d r IH]; [reflexivity |].
  intro H. change (Js.isDigit d && Spec.onlyDigits r = true) in H.
  apply andb_true_iff in H as [Hd Hr].
  change (String d r ++ "@c.us") with (String d (r ++ "@c.us")).
  change (Js.removeFirst "@c.us" (String d (r ++ "@c.us")))
    with (if String.prefix "@c.us" (String d (r ++ "@c.us"))
          then Js.substringFrom (String.length "@c.us") (String d (r ++ "@c.us"))
          else String d (Js.removeFirst "@c.us" (r ++ "@c.us"))).
  change (String.prefix "@c.us" (String d (r ++ "@c.us")))
    with (if ascii_dec "@" d then String.prefix "c.us" (r ++ "@c.us") else false).
  destruct (ascii_dec "@" d) as [E | _].
  - exfalso. now apply (digit_is_not_at d Hd).
  - now rewrite (IH Hr).
Qed.

(** X14. A phone that the send route accepts is accepted again unchanged
    when its digits are validated once more, and the chat id the route
    builds from it (digits followed by '@c.us') is turned back into the
    same digits by the inbound handler's normalisation: both pipelines
    file a number under the same phone key. *)
Theorem accepted_phone_round_trip :
  forall (phone cleaned : string),
    Send.validatePhone phone = inr cleaned ->
    Send.validatePhone cleaned = inr cleaned
    /\ Js.stripNonDigits cleaned = cleaned
    /\ Js.removeFirst "@c.us" (cleaned ++ "@c.us") = cleaned.
Proof.
  intros phone cleaned Hv.
  pose proof (validatePhone_accepted _ _ Hv) as (-> & Hlen & _ & _).
  pose proof (stripNonDigits_onlyDigits phone) as Hd.
  pose proof (stripNonDigits_fixes_digits _ Hd) as Hfix.
  split; [| split; [exact Hfix | now apply removeFirst_digits_suffix]].
  destruct (validatePhone_cases (Js.stripNonDigits phone))
    as [[B _] | [[B _] | [[B _] | [_ E]]]];
    rewrite Hfix in *; try lia.
  exact E.
Qed.

Lemma accepted_phone_round_trip_witness :
  Js.removeFirst "@c.us" ("12345678901" ++ "@c.us") = "12345678901".
Proof.
  exact (proj2 (proj2 (accepted_phone_round_trip
                         "+1 (234) 567-8901" "12345678901" eq_refl))).
Defined.

Lemma find_snoc {A} (f : A -> bool) l x :
  find f l = None -> find f (l ++ [x]) = if f x then Some x else None.
Proof.
  induction l as [| y r IH]; [reflexivity |]. simpl.
  destruct (f y); [discriminate | exact IH].
Qed.

Lemma replaceContact_snoc p' p cs :
  (forall x, In x cs -> ContactSchema._id x <> ContactSchema._id p') ->
  ContactSchema._id p = ContactSchema._id p' ->
  Rt.replaceContact p' (cs ++ [p]) = (cs ++ [p'])%list.
Proof.
  intros Hne Hid. induction cs as [| y r IH]; simpl.
  - now rewrite Hid, Nat.eqb_refl.
  - destruct (ContactSchema._id y =? ContactSchema._id p')%nat eqn:E.
    + apply Nat.eqb_eq in E. exfalso. apply (Hne y); [now left | exact E].
    + f_equal. apply IH. intros x Hx. apply Hne. now right.
Qed.

(** X15. A number first met by a send gets a placeholder contact; when
    that number then writes back, the inbound handler finds this contact by
    the digits of the chat id and updates it, instead of creating a second
    one: the store has exactly one more contact than before, with unread
    count 1, still in status new, and contacted at the instant of the
    reply. *)
Theorem reply_updates_contact_created_by_send :
  forall (req : Send.Request) (env1 : Rt.Env) (w : Rt.World)
         (cleaned serialized : string) (msg : Inbound.Msg) (env2 : Rt.Env),
    Spec.dispatch req env1 = Some (cleaned, serialized) ->
    Spec.healthy env1 ->
    Send.contactId req = None ->
    find (fun c => String.eqb (ContactSchema.phone c) cleaned) (Rt.contacts w)
    = None ->
    Notions.freshIds w ->
    Inbound.from msg = cleaned ++ "@c.us" ->
    Rt.faults env2 Rt.ContactFindOne = None ->
    Rt.faults env2 Rt.ContactSave = None ->
    let w1 := snd (Send.handle req env1 w) in
    let w2 := Inbound.handle msg env2 w1 in
    exists p,
      Rt.contacts w2 = (Rt.contacts w ++ [p])%list
      /\ ContactSchema._id p = Rt.nextId w
      /\ ContactSchema.phone p = cleaned
      /\ ContactSchema.name p
         = "Customer " ++ Js.substringFrom (String.length cleaned - 4) cleaned
      /\ ContactSchema.unreadCount p = Some 1
      /\ ContactSchema.queryStatus p = qs_new
      /\ ContactSchema.lastContacted p = Some (Inbound.timestamp msg * 1000)%Z.
Proof.
  intros req env1 w cleaned serialized msg env2 Hd Hh Hcid Hnone Hfresh Hfrom
         Hfind Hsave w1 w2.
  pose proof (send_dispatched req env1 w cleaned serialized Hd) as Hs.
  pose proof (dispatch_inv _ _ _ _ Hd) as (_ & _ & _ & Hv & Ht & _).
  pose proof (validatePhone_accepted _ _ Hv) as (Hcl & _ & Hp & _).
  assert (Htext : Js.truthy (Js.trim (Send.message req)) = true).
  { rewrite truthy_length, Ht. reflexivity. }
  assert (Hr : Spec.resolve (Send.contactId req) cleaned w = None)
    by (rewrite Hcid; exact Hnone).
  rewrite (saveToDatabase_unknown env1 w _ _ _ Hh Hp Htext Hr) in Hs.
  set (p0 := {| ContactSchema._id := Rt.nextId w;
                ContactSchema.name :=
                  "Customer "
                  ++ Js.substringFrom (String.length cleaned - 4) cleaned;
                ContactSchema.phone := cleaned;
                ContactSchema.queryStatus := qs_new;
                ContactSchema.unreadCount := Some 0;
                ContactSchema.lastContacted := None |}) in *.
  assert (Hc1 : Rt.contacts w1 = (Rt.contacts w ++ [p0])%list).
  { unfold w1. rewrite Hs. reflexivity. }
  assert (Hnorm : Js.removeFirst "@c.us" (Inbound.from msg) = cleaned).
  { rewrite Hfrom. apply removeFirst_digits_suffix.
    rewrite Hcl. apply stripNonDigits_onlyDigits. }
  assert (Hk : find (fun x => String.eqb (ContactSchema.phone x)
                                 (Js.removeFirst "@c.us" (Inbound.from msg)))
                    (Rt.contacts w1) = Some p0).
  { rewrite Hnorm, Hc1, (find_snoc _ _ _ Hnone). simpl.
    now rewrite String.eqb_refl. }
  pose proof (inbound_known env2 msg w1 p0 Hfind Hsave Hk) as Hc2.
  fold w2 in Hc2.
  exists (Inbound.touch (Inbound.timestamp msg * 1000) p0).
  split.
  - rewrite Hc2, Hc1. apply replaceContact_snoc; [| reflexivity].
    intros x Hx. specialize (Hfresh x Hx). simpl. lia.
  - repeat split.
Qed.

Lemma emptyWorld_freshIds : Notions.freshIds Fixtures.emptyWorld.
Proof. intros c []. Qed.

Lemma reply_updates_contact_created_by_send_witness :
  exists p,
    Rt.contacts
      (Inbound.handle
         {| Inbound.from := "12345678901@c.us"; Inbound.body := "Thanks!";
            Inbound.timestamp := 1700000000 |}
         Fixtures.calmEnv
         (snd (Send.handle Fixtures.request Fixtures.calmEnv Fixtures.emptyWorld)))
    = [p]
    /\ ContactSchema.unreadCount p = Some 1.
Proof.
  destruct (reply_updates_contact_created_by_send
              Fixtures.request Fixtures.calmEnv Fixtures.emptyWorld
              "12345678901" "true_12345678901@c.us_3EB0"
              {| Inbound.from := "12345678901@c.us"; Inbound.body := "Thanks!";
                 Inbound.timestamp := 1700000000 |}
              Fixtures.calmEnv
              eq_refl calmEnv_healthy eq_refl eq_refl emptyWorld_freshIds
              eq_refl eq_refl eq_refl)
    as (p & Hc & _ & _ & _ & Hur & _).
  exists p. split; [exact Hc | exact Hur].
Defined.

(** ** Reply suggestions *)






(** ** Conversation context *)

Lemma insertNewestFirst_In m l x :
  In x (Ai.insertNewestFirst m l) <-> x = m \/ In x l.
Proof.
  induction l as [| y r IH]; simpl.
  - split; intros [H | H]; auto.
  - destruct (MessageSchema.timestamp y <=? MessageSchema.timestamp m)%Z; simpl.
    + split; intros [H | H]; auto.
    + rewrite IH. split; intros [H | [H | H]]; auto.
Qed.

Lemma newestFirst_In l x : In x (Ai.newestFirst l) <-> In x l.
Proof.
  induction l as [| y r IH]; simpl; [reflexivity |].
  rewrite insertNewestFirst_In, IH. split; intros [H | H]; auto.
Qed.

Lemma insertNewestFirst_length m l :
  List.length (Ai.insertNewestFirst m l) = S (List.length l).
Proof.
  induction l as [| y r IH]; [reflexivity |]. simpl.
  destruct (MessageSchema.timestamp y <=? MessageSchema.timestamp m)%Z;
    simpl; [reflexivity | now rewrite IH].
Qed.

Lemma newestFirst_length l : List.length (Ai.newestFirst l) = List.length l.
Proof.
  induction l as [| y r IH]; [reflexivity |]. simpl.
  now rewrite insertNewestFirst_length, IH.
Qed.

Lemma newestFirst_head l m r :
  Ai.newestFirst l = m :: r ->
  forall x, In x l -> (MessageSchema.timestamp x <= MessageSchema.timestamp m)%Z.
Proof.
  revert m r. induction l as [| y l' IH]; intros m r H x Hx; [destruct Hx |].
  simpl in H.
  destruct (Ai.newestFirst l') as [| h t] eqn:E.
  - assert (l' = []).
    { apply length_zero_iff_nil. rewrite <- newestFirst_length, E. reflexivity. }
    subst l'. simpl in H. injection H as <- _.
    destruct Hx as [<- | []]. lia.
  - simpl in H.
    destruct (MessageSchema.timestamp h <=? MessageSchema.timestamp y)%Z eqn:L;
      injection H as <- _.
    + apply Z.leb_le in L. destruct Hx as [<- | Hx]; [lia |].
      specialize (IH h t eq_refl x Hx). lia.
    + apply Z.leb_gt in L. destruct Hx as [<- | Hx]; [lia |].
      exact (IH h t eq_refl x Hx).
Qed.

Lemma firstn_subset {A} n (l : list A) x : In x (firstn n l) -> In x l.
Proof.
  revert l. induction n as [| n IH]; intros l H; [destruct H |].
  destruct l as [| y r]; [destruct H |].
  destruct H as [-> | H]; [now left | right; now apply IH].
Qed.

(** X18. The context route refuses a request without a contact id with
    400 and answers 500 when the store rejects the query.  Otherwise it
    looks at no more than the ten newest messages of the contact: the count
    it reports is the number of the contact's messages capped at 10; the
    direction it reports is that of a newest message of the contact, and
    outbound when the contact has no message (the topic is then general and
    no issue is open); an unresolved issue is reported only if the contact
    has an inbound message; a missing current message suggests
    acknowledge. *)
Theorem context_route_reads_ten_newest :
  forall (currentMessage : string) (stored : list MessageSchema.doc),
    (forall fault,
        Ai.analyzeContext fault None currentMessage stored
        = Ai.ContextError 400 "Contact ID is required")
    /\ (forall id reason,
           Ai.analyzeContext (Some reason) (Some id) currentMessage stored
           = Ai.ContextError 500 reason)
    /\ (forall id,
           let mine := Conversations.ofContact (Some id) stored in
           exists ctx,
             Ai.analyzeContext None (Some id) currentMessage stored
             = Ai.ContextOk ctx
             /\ Ai.messageCount ctx = Nat.min 10 (List.length mine)
             /\ (mine = [] ->
                 Ai.lastMessageDirection ctx = outbound
                 /\ Ai.hasUnresolvedIssue ctx = false
                 /\ Ai.conversationTopic ctx = "general")
             /\ (mine <> [] ->
                 exists m,
                   In m stored
                   /\ MessageSchema.contactId m = Some id
                   /\ Ai.lastMessageDirection ctx = MessageSchema.direction m
                   /\ forall x, In x stored ->
                                MessageSchema.contactId x = Some id ->
                                (MessageSchema.timestamp x
                                 <= MessageSchema.timestamp m)%Z)
             /\ (Ai.hasUnresolvedIssue ctx = true ->
                 exists m,
                   In m stored
                   /\ MessageSchema.contactId m = Some id
                   /\ MessageSchema.direction m = inbound)
             /\ (Js.truthy currentMessage = false ->
                 Ai.suggestedAction ctx = "acknowledge")).
Proof.
  intros currentMessage stored.
  split; [reflexivity |]. split; [reflexivity |].
  intros id mine. unfold Ai.analyzeContext, Ai.recentOf. fold mine.
  eexists. split; [reflexivity |].
  assert (Hmine : forall x, In x mine <->
                            In x stored /\ MessageSchema.contactId x = Some id).
  { intro x. unfold mine, Conversations.ofContact. rewrite filter_In.
    rewrite key_eqb_eq. split; intros [H1 H2]; split; auto. }
  cbn [Ai.messageCount Ai.lastMessageDirection Ai.hasUnresolvedIssue
       Ai.conversationTopic Ai.suggestedAction].
  split; [| split; [| split; [| split]]].
  - rewrite length_firstn, newestFirst_length. reflexivity.
  - intro E. rewrite E. repeat split.
  - intro Hne.
    destruct (Ai.newestFirst mine) as [| m r] eqn:En.
    + exfalso. apply Hne. apply length_zero_iff_nil.
      rewrite <- newestFirst_length, En. reflexivity.
    + assert (Hm : In m mine) by (apply newestFirst_In; rewrite En; now left).
      apply Hmine in Hm as [Hm1 Hm2].
      exists m. simpl. repeat split; try assumption.
      intros x Hx Hxid. apply (newestFirst_head mine m r En).
      apply Hmine. now split.
  - intro H. apply existsb_exists in H as (m & Hin & Hm).
    apply andb_true_iff in Hm as [Hdir _].
    apply firstn_subset, newestFirst_In, Hmine in Hin as [H1 H2].
    exists m. repeat split; try assumption.
    now destruct (MessageSchema.direction m).
  - intro H. unfold Ai.suggestAction. now rewrite H.
Qed.

Lemma context_route_reads_ten_newest_witness :
  exists ctx,
    Ai.analyzeContext None (Some 0) "Any news?"
                      (Rt.messages Fixtures.answeredWorld)
    = Ai.ContextOk ctx
    /\ Ai.lastMessageDirection ctx = outbound
    /\ Ai.messageCount ctx = 2.
Proof.
  destruct (proj2 (proj2 (context_route_reads_ten_newest
                            "Any news?" (Rt.messages Fixtures.answeredWorld)))
                  0)
    as (ctx & Hc & Hn & _ & Hl & _).
  exists ctx. split; [exact Hc |].
  destruct (Hl ltac:(discriminate)) as (m & _ & _ & Hd & _).
  split; [| exact Hn].
  vm_compute in Hc. injection Hc as <-. reflexivity.
Defined.

(** ** Losing the transport *)

(** X19. When the transport reports a disconnect or an authentication
    failure, the session stops being connected and no restart is scheduled:
    an authentication failure adds no timer at all, a disconnect only the
    one that drops the client after 2000 ms, and the retry count is left as
    it was.  From then on the send route refuses every request with 400
    and writes nothing.  After a disconnect with nothing else pending, the
    session ends idle; after an authentication failure the client is kept,
    so that starting the session again is a no-op until a reconnect or
    disconnect request is made. *)
Theorem transport_loss_is_not_recovered :
  forall (s : Session.State),
    let lost := Session.step s Session.OnDisconnected in
    let refused := Session.step s Session.OnAuthFailure in
    Session.connected lost = false
    /\ Session.connected refused = false
    /\ Session.timers lost
       = (Session.timers s
          ++ [{| Session.delay := 2000; Session.callback := Session.ClearClient |}])%list
    /\ Session.timers refused = Session.timers s
    /\ Session.retryCount lost = Session.retryCount s
    /\ Session.retryCount refused = Session.retryCount s
    /\ (forall env req w,
           Rt.session env = lost \/ Rt.session env = refused ->
           Send.handle req env w
           = ({| Send.code := 400;
                 Send.body :=
                   Send.ErrorBody
                     "WhatsApp not connected. Please check your connection in Settings." |},
              w))
    /\ (Session.timers s = [] ->
        let idle := Session.step lost (Session.TimerFires 0) in
        Session.whatsappClient idle = None
        /\ Session.isInitializing idle = false
        /\ Session.isReady idle = false
        /\ Session.timers idle = [])
    /\ (Session.whatsappClient s <> None ->
        forall resetRetryCount,
          Session.initWhatsApp resetRetryCount refused = refused)
    /\ (forall e, e = Session.PostReconnect \/ e = Session.PostDisconnect ->
          exists d,
            Session.timers (Session.step refused e)
            = (Session.timers s
               ++ [{| Session.delay := d; Session.callback := Session.Start |}])%list
            /\ Session.whatsappClient (Session.step refused e) = None).
Proof.
  intros s lost refused.
  repeat match goal with |- _ /\ _ => split end; try reflexivity.
  - intros env req w H.
    assert (Hc : Session.connected (Rt.session env) = false)
      by (destruct H as [-> | ->]; reflexivity).
    unfold Send.handle, Send.send, Rt.tryCatch, Rt.bind, Rt.askEnv.
    now rewrite Hc.
  - intro H. unfold lost. simpl. rewrite H. repeat split.
  - intros Hc b. unfold Session.initWhatsApp, Session.hasClient, refused. simpl.
    destruct (Session.whatsappClient s); [reflexivity | contradiction].
  - intros e [-> | ->]; eexists; split; reflexivity.
Qed.

Lemma transport_loss_is_not_recovered_witness :
  Send.handle Fixtures.request
    {| Rt.clock := Rt.clock Fixtures.calmEnv;
       Rt.faults := Rt.faults Fixtures.calmEnv;
       Rt.session := Session.step Fixtures.readySession Session.OnDisconnected;
       Rt.sessionAtCatch := Fixtures.readySession;
       Rt.sendMessage := Rt.sendMessage Fixtures.calmEnv;
       Rt.getContactById := Rt.getContactById Fixtures.calmEnv |}
    Fixtures.emptyWorld
  = ({| Send.code := 400;
        Send.body :=
          Send.ErrorBody
            "WhatsApp not connected. Please check your connection in Settings." |},
     Fixtures.emptyWorld).
Proof.
  apply (proj1 (proj2 (proj2 (proj2 (proj2 (proj2 (proj2
           (transport_loss_is_not_recovered Fixtures.readySession)))))))).
  left. reflexivity.
Defined.
